(** * haberlea-deezer: the Deezer API client, embedded and verified

    A shallow embedding of [src/haberlea_deezer/deezer_api.py]:
    the Blowfish key derivation ([get_blowfish_key]), the striped chunk
    decryptor ([_create_blowfish_decryptor] and its closure
    [process_chunk]), the gateway call with its auto-relogin
    ([_gw_api_call]), the ARL login ([login_via_arl]), the stream-URL
    resolution ([get_track_url]), the catalogue calls ([get_track],
    [get_album], [get_playlist], [get_artist_album_ids], ...) and
    [download_and_decrypt_track]; and of the parts of
    [src/haberlea_deezer/interface.py] that choose the format of a track
    and the URL of a cover ([_find_available_format],
    [_check_track_availability], [_calculate_track_codec_bitrate],
    [_get_image_url], [_get_track_data], [get_track_cover]).

    Python values are modelled as follows.
    - [bytes] is [list byte]; a Python [int] is [Z]; [len] is [length],
      offsets into a sequence are [nat]; a finite [float] is the rational
      it stands for, and what is computed in floats is rounded to the
      nearest one ([Float.round64]), as binary64 arithmetic does.
    - [str] is [string], one [ascii] standing for one character (a code
      point below 256).
    - a raised exception is the [Err] case of [result]; code that can raise
      lives in the [result] monad (or, for the client, in the state and
      error monad [M]).
    - what the code gets from outside the repository (the Blowfish cipher,
      the HTTP transport, the clock, the random generator, [download_file],
      the text of a [ModuleAPIError], [str] of a decoded value that is not
      a [str]) is a parameter; MD5 is embedded from RFC 1321 and checked on
      its test vectors. *)

From Stdlib Require Import String Ascii DecimalString.
From Stdlib.Strings Require Import Byte.
From Stdlib Require Import QArith Qround Qabs Lqa.
From Stdlib Require Import ZArith NArith List Bool Lia.
Import ListNotations.

Set Warnings "-register-all".

Local Open Scope Z_scope.
Local Open Scope list_scope.

(** ** Python objects decoded from JSON, and exceptions *)

Module Py.

(** What [msgspec.json.decode] returns: [None], [bool], numbers, [str],
    [list] and [dict] with string keys (in the order of the document). *)
Inductive json : Type :=
| JNull
| JBool (b : bool)
| JNum (q : Q)
| JStr (s : string)
| JArr (items : list json)
| JObj (fields : list (string * json)).

(** The exceptions the embedded code raises or lets through.  The message
    of [ModuleAPIError], the f-string [error_type: error_msg], is kept as
    its two parts. *)
Inductive exn : Type :=
| ValueError (msg : string)
| KeyError (key : json)
| IndexError
| TypeError
| AttributeError
| UnicodeEncodeError
| OverflowError
| ClientError
| DecodeError
| ModuleAPIError (error_code : Z) (error_type : string) (error_msg : json)
                 (api_endpoint : string) (module_name : string)
| ModuleAuthError (module_name : string)
| RecursionError.

Inductive result (A : Type) : Type :=
| Ok (a : A)
| Err (e : exn).
Arguments Ok {A} a.
Arguments Err {A} e.

Definition bind {A B} (m : result A) (k : A -> result B) : result B :=
  match m with
  | Ok a => k a
  | Err e => Err e
  end.

(** Run [f] on every element, left to right, stopping at the first
    exception. *)
Fixpoint mapM {A B} (f : A -> result B) (l : list A) : result (list B) :=
  match l with
  | [] => Ok []
  | x :: l' =>
      bind (f x) (fun y => bind (mapM f l') (fun ys => Ok (y :: ys)))
  end.

End Py.
Export Py.

Declare Scope result_scope.
Delimit Scope result_scope with result.
Notation "x <- m ;; k" := (bind m (fun x => k))
  (at level 100, m at next level, right associativity) : result_scope.

Abbreviation bytes := (list byte).

(** ** Python floats *)

(** A [float] is an IEEE binary64 number; a finite one is modelled by its
    value, a rational.  Arithmetic on floats gives the float nearest to
    the exact result, halves going to the even mantissa. *)

Module Float.

Local Open Scope result_scope.

(** The least exponent of a mantissa of 53 bits. *)
Definition emin : Z := -1074.

(** The integer part of the binary logarithm of [n / d], for positive
    [n] and [d]. *)
Definition ilog2 (n d : Z) : Z :=
  let k := Z.log2 n - Z.log2 d in
  if 0 <=? k
  then (if d * 2 ^ k <=? n then k else k - 1)
  else (if d <=? n * 2 ^ (- k) then k else k - 1).

(** [n / d] rounded to the nearest integer, a half to the even one. *)
Definition round_half_even (n d : Z) : Z :=
  let q := n / d in
  let r := n mod d in
  match 2 * r ?= d with
  | Lt => q
  | Gt => q + 1
  | Eq => if Z.even q then q else q + 1
  end.

(** The float nearest to [n / d], for positive [n] and [d]: a mantissa of
    at most 53 bits times a power of two. *)
Definition round_pos (n d : Z) : Q :=
  let e := Z.max (ilog2 n d - 52) emin in
  if 0 <=? e
  then inject_Z (round_half_even n (d * 2 ^ e) * 2 ^ e)
  else Qmake (round_half_even (n * 2 ^ (- e)) d) (Z.to_pos (2 ^ (- e))).

(** The float nearest to a rational (no float is as large as [2 ^ 1024];
    what rounds to that or beyond is not a finite float). *)
Definition round64 (x : Q) : Q :=
  let q := Qred x in
  match Qnum q with
  | Z0 => 0%Q
  | Zpos n => round_pos (Zpos n) (Zpos (Qden q))
  | Zneg n => (- round_pos (Zpos n) (Zpos (Qden q)))%Q
  end.

(** [float(n)] for an [int], as the subtraction of an [int] from a
    [float] converts it: [OverflowError] for an [int] too large. *)
Definition of_int (n : Z) : result Q :=
  let x := round64 (inject_Z n) in
  if Qle_bool (inject_Z (2 ^ 1024)) (Qabs x) then Err OverflowError
  else Ok x.

(** [a - b] on floats. *)
Definition sub (a b : Q) : Q := round64 (a - b).

Arguments round64 : simpl never.
Arguments of_int : simpl never.
Arguments sub : simpl never.

End Float.

(** ** The striped Blowfish decryptor *)

Module Decryptor.

Local Open Scope result_scope.

(** [block_size = 2048] in [_create_blowfish_decryptor]. *)
Definition block_size : nat := 2048.

(** [iv = b"\x00\x01\x02\x03\x04\x05\x06\x07"]. *)
Definition iv : bytes := [x00; x01; x02; x03; x04; x05; x06; x07].

(** [range(0, stop, step)] for a positive [step]: the offsets
    [0, step, 2*step, ...] below [stop]. *)
Definition range0 (stop step : nat) : list nat :=
  map (fun k => (k * step)%nat) (seq 0 ((stop + step - 1) / step)).

(** The slice [chunk[i : j]] for [0 <= i <= j]. *)
Definition slice {A} (l : list A) (i j : nat) : list A :=
  firstn (j - i) (skipn i l).

(** The [k]-th window of [n] elements of a sequence (the last one may be
    shorter), and the number of windows of a sequence of [len] elements. *)
Definition window {A} (n : nat) (l : list A) (k : nat) : list A :=
  firstn n (skipn (k * n) l).

Definition nwin (n len : nat) : nat := (len + n - 1) / n.

Section WithCipher.

(** [Blowfish_decrypt key iv data] stands for
    [Blowfish.new(key, Blowfish.MODE_CBC, iv).decrypt(data)] of
    Cryptodome, which is not part of the repository.  It raises
    [ValueError] for a key it refuses. *)
Variable Blowfish_decrypt : bytes -> bytes -> bytes -> result bytes.

(** The body of the [for] loop of [process_chunk], from the value of
    [result] before the iteration at offset [i] to its value after. *)
Definition loop_body (bf_key : bytes) (base_block_index : Z)
    (chunk : bytes) (acc : result bytes) (i : nat) : result bytes :=
  result <- acc ;;
  let block := slice chunk i (i + block_size) in
  let block_index := base_block_index + Z.of_nat (i / block_size) in
  block <- (if (block_index mod 3 =? 0)
               && (length block =? block_size)%nat
            then Blowfish_decrypt bf_key iv block
            else Ok block) ;;
  Ok (result ++ block).

(** The closure [process_chunk(chunk, chunk_index)]; [bf_key] and
    [blocks_per_chunk] are the variables it captures. *)
Definition process_chunk (bf_key : bytes) (blocks_per_chunk : Z)
    (chunk : bytes) (chunk_index : Z) : result bytes :=
  let base_block_index := chunk_index * blocks_per_chunk in
  fold_left (loop_body bf_key base_block_index chunk)
            (range0 (length chunk) block_size) (Ok []).

(** [_create_blowfish_decryptor(bf_key, chunk_size)]: the check of
    [chunk_size], then the closure.  (The message of the [ValueError] is
    shortened: the source also prints [chunk_size] in it.) *)
Definition _create_blowfish_decryptor (bf_key : bytes) (chunk_size : Z)
    : result (bytes -> Z -> result bytes) :=
  if negb (chunk_size mod Z.of_nat block_size =? 0) then
    Err (ValueError "chunk_size must be a multiple of 2048")
  else
    let blocks_per_chunk := chunk_size / Z.of_nat block_size in
    Ok (process_chunk bf_key blocks_per_chunk).

(** The default [chunk_size: int = 1048576]. *)
Definition default_chunk_size : Z := 1048576.

(** How the caller of the processor, [download_file], uses it: the
    chunks of the stream, in order, each with the next [chunk_index],
    the outputs written one after the other. *)
Fixpoint process_stream (proc : bytes -> Z -> result bytes)
    (chunks : list bytes) (chunk_index : Z) : result bytes :=
  match chunks with
  | [] => Ok []
  | chunk :: rest =>
      out <- proc chunk chunk_index ;;
      outs <- process_stream proc rest (chunk_index + 1) ;;
      Ok (out ++ outs)
  end.

(** What the documentation of Cryptodome promises of the cipher: the
    plaintext is as long as the ciphertext, and a key it accepts
    decrypts every 2048-byte block. *)
Definition keeps_length : Prop :=
  forall key v data plain,
    Blowfish_decrypt key v data = Ok plain -> length plain = length data.

Definition accepts (bf_key : bytes) : Prop :=
  forall data, length data = block_size ->
    exists plain, Blowfish_decrypt bf_key iv data = Ok plain.

(** What the processor does to the [k]-th window of a chunk whose first
    block has absolute index [base]. *)
Definition transform (bf_key : bytes) (base : Z) (chunk : bytes)
    (k : nat) : result bytes :=
  let w := window block_size chunk k in
  if ((base + Z.of_nat k) mod 3 =? 0) && (length w =? block_size)%nat
  then Blowfish_decrypt bf_key iv w
  else Ok w.

End WithCipher.

(** Blocks all of length [n] but the last, which is not longer. *)
Definition blocks_shape {A} (n : nat) (ls : list (list A)) : Prop :=
  forall k, (k < length ls)%nat ->
    (length (nth k ls []) <= n)%nat /\
    ((S k < length ls)%nat -> length (nth k ls []) = n).

(** The stream cut into consecutive chunks of [n] bytes. *)
Definition split_stream (n : nat) (stream : bytes) : list bytes :=
  map (window n stream) (seq 0 (nwin n (length stream))).

(** A stand-in for the cipher, to run the processor on concrete inputs:
    it refuses the key lengths Blowfish refuses (outside 4..56 bytes) and
    mirrors the data. *)
Definition mirror_cipher (key v data : bytes) : result bytes :=
  if ((4 <=? length key) && (length key <=? 56))%nat then Ok (rev data)
  else Err (ValueError "Incorrect Blowfish key length").

(** Sample inputs: a 16-byte key and a stream counting up from byte 0. *)
Definition sample_key : bytes := repeat x2a 16.

Definition byte_of_nat (n : nat) : byte :=
  match Byte.of_N (N.of_nat n mod 256) with
  | Some b => b
  | None => x00
  end.

Definition sample_stream (len : nat) : bytes := map byte_of_nat (seq 0 len).

End Decryptor.

(** ** MD5, as [hashlib.md5] computes it (RFC 1321) *)

Module MD5.
Local Open Scope N_scope.

Definition mask32 (x : N) : N := N.land x 0xffffffff.
Definition add32 (a b : N) : N := mask32 (a + b).
Definition not32 (x : N) : N := N.lxor x 0xffffffff.
Definition rotl32 (x s : N) : N :=
  mask32 (N.lor (N.shiftl x s) (N.shiftr x (32 - s))).

(** The sine table: [floor (2^32 * abs (sin (i + 1)))]. *)
Definition K : list N :=
  [ 0xd76aa478; 0xe8c7b756; 0x242070db; 0xc1bdceee;
    0xf57c0faf; 0x4787c62a; 0xa8304613; 0xfd469501;
    0x698098d8; 0x8b44f7af; 0xffff5bb1; 0x895cd7be;
    0x6b901122; 0xfd987193; 0xa679438e; 0x49b40821;
    0xf61e2562; 0xc040b340; 0x265e5a51; 0xe9b6c7aa;
    0xd62f105d; 0x02441453; 0xd8a1e681; 0xe7d3fbc8;
    0x21e1cde6; 0xc33707d6; 0xf4d50d87; 0x455a14ed;
    0xa9e3e905; 0xfcefa3f8; 0x676f02d9; 0x8d2a4c8a;
    0xfffa3942; 0x8771f681; 0x6d9d6122; 0xfde5380c;
    0xa4beea44; 0x4bdecfa9; 0xf6bb4b60; 0xbebfbc70;
    0x289b7ec6; 0xeaa127fa; 0xd4ef3085; 0x04881d05;
    0xd9d4d039; 0xe6db99e5; 0x1fa27cf8; 0xc4ac5665;
    0xf4292244; 0x432aff97; 0xab9423a7; 0xfc93a039;
    0x655b59c3; 0x8f0ccc92; 0xffeff47d; 0x85845dd1;
    0x6fa87e4f; 0xfe2ce6e0; 0xa3014314; 0x4e0811a1;
    0xf7537e82; 0xbd3af235; 0x2ad7d2bb; 0xeb86d391 ].

Definition shifts : list N :=
  [ 7; 12; 17; 22; 7; 12; 17; 22; 7; 12; 17; 22; 7; 12; 17; 22;
    5; 9; 14; 20; 5; 9; 14; 20; 5; 9; 14; 20; 5; 9; 14; 20;
    4; 11; 16; 23; 4; 11; 16; 23; 4; 11; 16; 23; 4; 11; 16; 23;
    6; 10; 15; 21; 6; 10; 15; 21; 6; 10; 15; 21; 6; 10; 15; 21 ].

Definition byte_of_N (n : N) : byte :=
  match Byte.of_N (n mod 256) with
  | Some b => b
  | None => x00
  end.

(** Little-endian words and bytes. *)
Definition bytes_of_word (len : nat) (w : N) : bytes :=
  map (fun k => byte_of_N (N.shiftr w (8 * N.of_nat k))) (seq 0 len).

Fixpoint word_of_bytes (l : bytes) : N :=
  match l with
  | [] => 0
  | b :: l' => Byte.to_N b + 256 * word_of_bytes l'
  end.

(** The message, a 1 bit, zeros up to 56 modulo 64 bytes, and the length
    in bits on 64 bits. *)
Definition pad (msg : bytes) : bytes :=
  let len := length msg in
  msg ++ [x80] ++ repeat x00 ((119 - len mod 64) mod 64)%nat
      ++ bytes_of_word 8 (8 * N.of_nat len).

Definition state : Type := N * N * N * N.

Definition init : state :=
  (0x67452301, 0xefcdab89, 0x98badcfe, 0x10325476).

(** One of the 64 operations on a block [M] of 16 words. *)
Definition step (M : list N) (st : state) (i : nat) : state :=
  let '(a, b, c, d) := st in
  let '(f, g) :=
    if (i <? 16)%nat then
      (N.lor (N.land b c) (N.land (not32 b) d), i)
    else if (i <? 32)%nat then
      (N.lor (N.land d b) (N.land (not32 d) c), ((5 * i + 1) mod 16)%nat)
    else if (i <? 48)%nat then
      (N.lxor (N.lxor b c) d, ((3 * i + 5) mod 16)%nat)
    else
      (N.lxor c (N.lor b (not32 d)), ((7 * i) mod 16)%nat) in
  let f := add32 (add32 (add32 f a) (nth i K 0)) (nth g M 0) in
  (d, add32 b (rotl32 f (nth i shifts 0)), b, c).

Definition compress (h : state) (block : bytes) : state :=
  let M := map (fun k => word_of_bytes (firstn 4 (skipn (4 * k) block)))
               (seq 0 16) in
  let '(a0, b0, c0, d0) := h in
  let '(a, b, c, d) := fold_left (step M) (seq 0 64) h in
  (add32 a0 a, add32 b0 b, add32 c0 c, add32 d0 d).

(** [md5(msg).digest()]: 16 bytes. *)
Definition digest (msg : bytes) : bytes :=
  let p := pad msg in
  let blocks := map (fun k => firstn 64 (skipn (64 * k) p))
                    (seq 0 (length p / 64)) in
  let '(a, b, c, d) := fold_left compress blocks init in
  bytes_of_word 4 a ++ bytes_of_word 4 b
    ++ bytes_of_word 4 c ++ bytes_of_word 4 d.

Definition hex_digits : list ascii :=
  list_ascii_of_string "0123456789abcdef".

Definition hex_digit (n : N) : ascii := nth (N.to_nat n) hex_digits "0"%char.

Definition is_hex (c : ascii) : bool := existsb (Ascii.eqb c) hex_digits.

Definition hex_of_byte (b : byte) : list ascii :=
  let n := Byte.to_N b in [hex_digit (n / 16); hex_digit (n mod 16)].

(** [md5(msg).hexdigest()]: 32 lowercase hexadecimal digits. *)
Definition hexdigest (msg : bytes) : string :=
  string_of_list_ascii (flat_map hex_of_byte (digest msg)).

End MD5.

(** ** [str.encode] *)

Module Codec.

(** [s.encode()], UTF-8: a character below 128 is one byte, one from 128
    to 255 is two. *)
Definition encode_utf8 (s : string) : bytes :=
  flat_map
    (fun c =>
       let n := N_of_ascii c in
       if (n <? 128)%N then [byte_of_ascii c]
       else [MD5.byte_of_N (192 + n / 64); MD5.byte_of_N (128 + n mod 64)])
    (list_ascii_of_string s).

(** [s.encode("ascii")], which raises on a character above 127. *)
Definition encode_ascii (s : string) : result bytes :=
  mapM (fun c => if (N_of_ascii c <? 128)%N then Ok (byte_of_ascii c)
                 else Err UnicodeEncodeError)
       (list_ascii_of_string s).

(** [b[i]] on [bytes]: an [int], or [IndexError]. *)
Definition index (b : bytes) (i : nat) : result Z :=
  match nth_error b i with
  | Some x => Ok (Z.of_N (Byte.to_N x))
  | None => Err IndexError
  end.

(** [bytes(ints)], which raises [ValueError] on an [int] outside
    [range(256)]. *)
Definition bytes_of_ints (ints : list Z) : result bytes :=
  let out_of_range := ValueError "bytes must be in range(0, 256)" in
  mapM (fun z => if (0 <=? z) && (z <? 256)
                 then match Byte.of_N (Z.to_N z) with
                      | Some b => Ok b
                      | None => Err out_of_range
                      end
                 else Err out_of_range)
       ints.

End Codec.

(** ** The client *)

Module Api.

Local Open Scope string_scope.

(** *** Python operations on decoded JSON *)

(** Truth value of an object, as [if x] and [not x] take it. *)
Definition truthy (v : json) : bool :=
  match v with
  | JNull => false
  | JBool b => b
  | JNum q => negb (Qeq_bool q 0)
  | JStr s => negb (s =? "")
  | JArr items => match items with [] => false | _ => true end
  | JObj fields => match fields with [] => false | _ => true end
  end.

(** The value of a key in the items of a [dict] (keys are distinct). *)
Fixpoint lookup (k : string) (fields : list (string * json))
    : option json :=
  match fields with
  | [] => None
  | (k', v) :: rest => if k' =? k then Some v else lookup k rest
  end.

(** [v[k]] for a string [k]: [KeyError] on a [dict] without the key,
    [TypeError] on anything that is not a [dict]. *)
Definition getitem (v : json) (k : string) : result json :=
  match v with
  | JObj fields =>
      match lookup k fields with
      | Some x => Ok x
      | None => Err (KeyError (JStr k))
      end
  | _ => Err TypeError
  end.

(** [v[0]]: the first item of a [list] or character of a [str], or
    [IndexError]; [KeyError] on a [dict] (its keys are strings);
    [TypeError] otherwise. *)
Definition getitem0 (v : json) : result json :=
  match v with
  | JArr (x :: _) => Ok x
  | JArr [] => Err IndexError
  | JStr (String c _) => Ok (JStr (String c ""))
  | JStr "" => Err IndexError
  | JObj _ => Err (KeyError (JNum 0))
  | _ => Err TypeError
  end.

(** [v.get(k)]: [None] without the key; [AttributeError] on anything
    that is not a [dict]. *)
Definition get (v : json) (k : string) : result json :=
  match v with
  | JObj fields =>
      match lookup k fields with
      | Some x => Ok x
      | None => Ok JNull
      end
  | _ => Err AttributeError
  end.

(** *** The state of a [DeezerApi] object *)

Definition cookies : Type := list (string * string).

Record client : Type := {
  client_id : string;
  client_secret : string;
  bf_secret : bytes;
  track_url_key : string;
  cookie_jar : cookies;              (* [self.session.cookie_jar]: the
                                        cookies it holds for the gateway *)
  api_token : json;
  country : json;
  license_token : json;
  language : json;
  renew_timestamp : Z;
  available_formats : list string;
  _arl : string
}.

Definition set_cookie_jar (x : cookies) (c : client) : client :=
  {| client_id := client_id c; client_secret := client_secret c;
     bf_secret := bf_secret c; track_url_key := track_url_key c;
     cookie_jar := x; api_token := api_token c; country := country c;
     license_token := license_token c; language := language c;
     renew_timestamp := renew_timestamp c;
     available_formats := available_formats c; _arl := _arl c |}.

Definition set_api_token (x : json) (c : client) : client :=
  {| client_id := client_id c; client_secret := client_secret c;
     bf_secret := bf_secret c; track_url_key := track_url_key c;
     cookie_jar := cookie_jar c; api_token := x; country := country c;
     license_token := license_token c; language := language c;
     renew_timestamp := renew_timestamp c;
     available_formats := available_formats c; _arl := _arl c |}.

Definition set_country (x : json) (c : client) : client :=
  {| client_id := client_id c; client_secret := client_secret c;
     bf_secret := bf_secret c; track_url_key := track_url_key c;
     cookie_jar := cookie_jar c; api_token := api_token c; country := x;
     license_token := license_token c; language := language c;
     renew_timestamp := renew_timestamp c;
     available_formats := available_formats c; _arl := _arl c |}.

Definition set_license_token (x : json) (c : client) : client :=
  {| client_id := client_id c; client_secret := client_secret c;
     bf_secret := bf_secret c; track_url_key := track_url_key c;
     cookie_jar := cookie_jar c; api_token := api_token c;
     country := country c; license_token := x; language := language c;
     renew_timestamp := renew_timestamp c;
     available_formats := available_formats c; _arl := _arl c |}.

Definition set_language (x : json) (c : client) : client :=
  {| client_id := client_id c; client_secret := client_secret c;
     bf_secret := bf_secret c; track_url_key := track_url_key c;
     cookie_jar := cookie_jar c; api_token := api_token c;
     country := country c; license_token := license_token c;
     language := x; renew_timestamp := renew_timestamp c;
     available_formats := available_formats c; _arl := _arl c |}.

Definition set_renew_timestamp (x : Z) (c : client) : client :=
  {| client_id := client_id c; client_secret := client_secret c;
     bf_secret := bf_secret c; track_url_key := track_url_key c;
     cookie_jar := cookie_jar c; api_token := api_token c;
     country := country c; license_token := license_token c;
     language := language c; renew_timestamp := x;
     available_formats := available_formats c; _arl := _arl c |}.

Definition set_available_formats (x : list string) (c : client) : client :=
  {| client_id := client_id c; client_secret := client_secret c;
     bf_secret := bf_secret c; track_url_key := track_url_key c;
     cookie_jar := cookie_jar c; api_token := api_token c;
     country := country c; license_token := license_token c;
     language := language c; renew_timestamp := renew_timestamp c;
     available_formats := x; _arl := _arl c |}.

Definition set_arl (x : string) (c : client) : client :=
  {| client_id := client_id c; client_secret := client_secret c;
     bf_secret := bf_secret c; track_url_key := track_url_key c;
     cookie_jar := cookie_jar c; api_token := api_token c;
     country := country c; license_token := license_token c;
     language := language c; renew_timestamp := renew_timestamp c;
     available_formats := available_formats c; _arl := x |}.

(** [DeezerApi.__init__]: [bf_secret.encode("ascii")] can raise. *)
Definition __init__ (client_id client_secret bf_secret track_url_key : string)
    : result client :=
  bind (Codec.encode_ascii bf_secret) (fun secret =>
  Ok {| client_id := client_id; client_secret := client_secret;
        bf_secret := secret; track_url_key := track_url_key;
        cookie_jar := []; api_token := JStr ""; country := JStr "";
        license_token := JStr ""; language := JStr "en";
        renew_timestamp := 0; available_formats := ["MP3_128"];
        _arl := "" |}).

(** *** Key derivation *)

(** [get_blowfish_key(self, track_id)]. *)
Definition get_blowfish_key (self : client) (track_id : string)
    : result bytes :=
  bind (Codec.encode_ascii (MD5.hexdigest (Codec.encode_utf8 track_id)))
    (fun md5_hash =>
  bind (mapM (fun i =>
                bind (Codec.index md5_hash i) (fun a =>
                bind (Codec.index md5_hash (i + 16)) (fun b =>
                bind (Codec.index (bf_secret self) i) (fun s =>
                Ok (Z.lxor (Z.lxor a b) s)))))
             (seq 0 16))
    (fun key => Codec.bytes_of_ints key)).

(** *** The outside world *)

(** A request the client sends: a POST to the gateway ([GW_LIGHT_URL],
    with the parameters [method], [api_token] and [cid]; [input] and
    [api_version] are constants) or to the media service ([MEDIA_URL]),
    each with its JSON body.  A request to the gateway goes with the
    cookies of the jar; which of them go to the host of the media service
    is decided by [aiohttp], cookie by cookie (the cookie [arl], set for
    the host of the gateway, does not), and is not recorded. *)
Inductive request : Type :=
| GwPost (method : string) (token : json) (cid : Z) (payload : json)
         (jar : cookies)
| MediaPost (payload : json).

(** What comes back: a body that decodes, with the cookies of the
    response that the jar then holds for the gateway; or the transport
    fails; or the body is not JSON. *)
Inductive outcome : Type :=
| Reply (body : json) (set_cookies : cookies)
| Unreachable
| Malformed.

(** The client object, the requests sent so far (oldest first), and how
    many times the clock and the random generator were read. *)
Record world : Type := {
  self : client;
  sent : list request;
  ticks : nat;
  rolls : nat
}.

Definition with_self (f : client -> client) (w : world) : world :=
  {| self := f (self w); sent := sent w; ticks := ticks w;
     rolls := rolls w |}.

Definition tick (w : world) : world :=
  {| self := self w; sent := sent w; ticks := S (ticks w);
     rolls := rolls w |}.

Definition roll (w : world) : world :=
  {| self := self w; sent := sent w; ticks := ticks w;
     rolls := S (rolls w) |}.

Definition log (req : request) (w : world) : world :=
  {| self := self w; sent := (sent w ++ [req])%list; ticks := ticks w;
     rolls := rolls w |}.

(** Code that reads and writes the client and can raise: an exception
    keeps the assignments made before it. *)
Definition M (A : Type) : Type := world -> result A * world.

Definition ret {A} (a : A) : M A := fun w => (Ok a, w).

Definition raise {A} (e : exn) : M A := fun w => (Err e, w).

Definition lift {A} (r : result A) : M A := fun w => (r, w).

Definition bindM {A B} (m : M A) (k : A -> M B) : M B :=
  fun w =>
    match m w with
    | (Ok a, w') => k a w'
    | (Err e, w') => (Err e, w')
    end.

Definition read : M client := fun w => (Ok (self w), w).

Definition assign (f : client -> client) : M unit :=
  fun w => (Ok tt, with_self f w).

Declare Scope M_scope.
Delimit Scope M_scope with M.
Notation "x <- m ;; k" := (bindM m (fun x => k))
  (at level 100, m at next level, right associativity) : M_scope.
Notation "m ;; k" := (bindM m (fun _ => k))
  (at level 100, right associativity) : M_scope.

(** [for x in l: body(x)]. *)
Fixpoint for_each {A} (l : list A) (body : A -> M unit) : M unit :=
  match l with
  | [] => ret tt
  | x :: rest => bindM (body x) (fun _ => for_each rest body)
  end.

(** [cookie_jar.update_cookies]: a new value replaces the old one of the
    same name. *)
Definition set_cookie (name value : string) (jar : cookies) : cookies :=
  (name, value)
    :: filter (fun c => negb (fst c =? name)) jar.

Definition update_cookies (new jar : cookies) : cookies :=
  fold_left (fun j c => set_cookie (fst c) (snd c) j) new jar.

Definition receive (set_cookies : cookies) (w : world) : world :=
  with_self (fun c => set_cookie_jar
                        (update_cookies set_cookies (cookie_jar c)) c) w.

Definition is_auth_method (method : string) : bool :=
  (method =? "deezer.getUserData") || (method =? "user.getArl").

(** The condition of the auto-relogin of [_gw_api_call], and the
    [payload] it works with. *)
Definition relogin_due (method : string) (w : world) : bool :=
  negb (truthy (api_token (self w)))
  && negb (_arl (self w) =? "")
  && negb (is_auth_method method).

Definition default_payload (payload : option json) : json :=
  match payload with
  | None => JObj []
  | Some p => p
  end.

(** [format_map = {"web_hq": "MP3_320", "web_lossless": "FLAC"}]. *)
Definition format_map : list (string * string) :=
  [("web_hq", "MP3_320"); ("web_lossless", "FLAC")].

(** [data["data"][0]["media"][0]["sources"][0]["url"]]. *)
Definition stream_url (data : json) : result json :=
  (d <- getitem data "data" ;;
   d0 <- getitem0 d ;;
   m <- getitem d0 "media" ;;
   m0 <- getitem0 m ;;
   s <- getitem m0 "sources" ;;
   s0 <- getitem0 s ;;
   getitem s0 "url")%result.

(** The body of the media request. *)
Definition media_payload (license_token : json) (audio_format : string)
    (track_token : json) : json :=
  JObj [("license_token", license_token);
        ("media",
         JArr [JObj [("type", JStr "FULL");
                     ("formats",
                      JArr [JObj [("cipher", JStr "BF_CBC_STRIPE");
                                  ("format", JStr audio_format)]])]]);
        ("track_tokens", JArr [track_token])].

(** The body of the request for a fresh track token. *)
Definition track_token_payload (track_id : string) : json :=
  JObj [("sng_id", JStr track_id);
        ("array_default", JArr [JStr "TRACK_TOKEN"])].

Section Env.

Local Open Scope M_scope.

(** The services: the outcome of the last request of a history.  The
    clock and the random generator: their successive values; the clock
    gives the time in seconds, of which [time()] returns the nearest
    float. *)
Variable network : list request -> outcome.
Variable clock : nat -> Q.
Variable random : nat -> Z.

(** [time()]. *)
Definition time : M Q :=
  fun w => (Ok (Float.round64 (clock (ticks w))), tick w).

(** [randint(0, 1_000_000_000)]. *)
Definition randint : M Z := fun w => (Ok (random (rolls w)), roll w).

(** [async with self.session.post(...) as response:
     data = msgspec.json.decode(await response.read())]: the request
    goes out, and the jar takes the cookies of the response. *)
Definition post (req : cookies -> request) : M json :=
  fun w =>
    let w1 := log (req (cookie_jar (self w))) w in
    match network (sent w1) with
    | Reply body set_cookies => (Ok body, receive set_cookies w1)
    | Unreachable => (Err ClientError, w1)
    | Malformed => (Err DecodeError, w1)
    end.

(** The branch [if method == "deezer.getUserData":] of [_gw_api_call],
    one assignment after the other. *)
Definition update_session (data : json) : M unit :=
  results <- lift (getitem data "results") ;;
  v <- lift (getitem results "checkForm") ;;
  assign (set_api_token v) ;;
  v <- lift (getitem results "COUNTRY") ;;
  assign (set_country v) ;;
  v <- lift (u <- getitem results "USER" ;;
             o <- getitem u "OPTIONS" ;;
             getitem o "license_token")%result ;;
  assign (set_license_token v) ;;
  now <- time ;;
  assign (set_renew_timestamp (Qceiling now)) ;;
  v <- lift (u <- getitem results "USER" ;;
             s <- getitem u "SETTING" ;;
             g <- getitem s "global" ;;
             getitem g "language")%result ;;
  assign (set_language v) ;;
  assign (set_available_formats ["MP3_128"]) ;;
  for_each format_map (fun kf =>
    flag <- lift (u <- getitem results "USER" ;;
                  o <- getitem u "OPTIONS" ;;
                  get o (fst kf))%result ;;
    if truthy flag then
      self <- read ;;
      assign (set_available_formats
                (available_formats self ++ [snd kf])%list)
    else ret tt).

(** [_gw_api_call(self, method, payload)].  The function calls itself;
    [depth] is the number of nested calls the interpreter still
    allows. *)
Fixpoint _gw_api_call (depth : nat) (method : string)
    (payload : option json) : M json :=
  match depth with
  | O => raise RecursionError
  | S depth' =>
      let payload := match payload with
                     | None => JObj []
                     | Some p => p
                     end in
      self <- read ;;
      (if negb (truthy (api_token self))
          && negb (_arl self =? "")
          && negb (is_auth_method method)
       then _gw_api_call depth' "deezer.getUserData" None ;; ret tt
       else ret tt) ;;
      self <- read ;;
      let api_token := if negb (is_auth_method method)
                       then api_token self
                       else JStr "" in
      cid <- randint ;;
      data <- post (GwPost method api_token cid payload) ;;
      error <- lift (get data "error") ;;
      if truthy error then
        match error with
        | JObj ((error_type, error_msg) :: _) =>
            raise (ModuleAPIError 400 error_type error_msg method "deezer")
        | JObj [] => raise IndexError
        | _ => raise AttributeError
        end
      else
        (if method =? "deezer.getUserData"
         then update_session data
         else ret tt) ;;
        lift (getitem data "results")
  end.

(** [_gw_api_call] from the line [api_token = ...] on: what a call
    does once the auto-relogin is behind it. *)
Definition gw_request (method : string) (payload : json) : M json :=
  self <- read ;;
  let api_token := if negb (is_auth_method method)
                   then api_token self
                   else JStr "" in
  cid <- randint ;;
  data <- post (GwPost method api_token cid payload) ;;
  error <- lift (get data "error") ;;
  if truthy error then
    match error with
    | JObj ((error_type, error_msg) :: _) =>
        raise (ModuleAPIError 400 error_type error_msg method "deezer")
    | JObj [] => raise IndexError
    | _ => raise AttributeError
    end
  else
    (if method =? "deezer.getUserData"
     then update_session data
     else ret tt) ;;
    lift (getitem data "results").

(** What a call of a method other than [deezer.getUserData] returns
    for a decoded response. *)
Definition gw_answer (method : string) (data : json) : result json :=
  (error <- get data "error" ;;
   if truthy error then
     match error with
     | JObj ((error_type, error_msg) :: _) =>
         Err (ModuleAPIError 400 error_type error_msg method "deezer")
     | JObj [] => Err IndexError
     | _ => Err AttributeError
     end
   else getitem data "results")%result.

(** The request a call sends from the world [w]. *)
Definition gw_post_of (method : string) (payload : json) (w : world)
    : request :=
  GwPost method
         (if negb (is_auth_method method) then api_token (self w)
          else JStr "")
         (random (rolls w)) payload (cookie_jar (self w)).

(** [login_via_arl(self, arl)]. *)
Definition login_via_arl (depth : nat) (arl : string) : M json :=
  assign (set_arl arl) ;;
  self <- read ;;
  assign (set_cookie_jar (set_cookie "arl" arl (cookie_jar self))) ;;
  user_data <- _gw_api_call depth "deezer.getUserData" None ;;
  user_id <- lift (u <- getitem user_data "USER" ;;
                   getitem u "USER_ID")%result ;;
  if negb (truthy user_id) then
    assign (set_cookie_jar []) ;;
    assign (set_arl "") ;;
    raise (ModuleAuthError "deezer")
  else ret user_data.

(** [get_track_url(self, track_id, track_token, track_token_expiry,
    audio_format)]. *)
Definition get_track_url (depth : nat) (track_id : string)
    (track_token : json) (track_token_expiry : Q)
    (audio_format : string) : M json :=
  now <- time ;;
  self <- read ;;
  issued <- lift (Float.of_int (renew_timestamp self)) ;;
  (if Qle_bool (inject_Z 3600) (Float.sub now issued)
   then _gw_api_call depth "deezer.getUserData" None ;; ret tt
   else ret tt) ;;
  now <- time ;;
  track_token <-
    (if Qle_bool track_token_expiry now then
       result <- _gw_api_call depth "song.getData"
                   (Some (track_token_payload track_id)) ;;
       lift (getitem result "TRACK_TOKEN")
     else ret track_token) ;;
  self <- read ;;
  data <- post (fun _ =>
                  MediaPost
                    (media_payload (license_token self) audio_format
                                   track_token)) ;;
  lift (stream_url data).

(** The first steps of [get_track_url]: the two renewals, which give
    the track token to use. *)
Definition renew_tokens (depth : nat) (track_id : string)
    (track_token : json) (track_token_expiry : Q) : M json :=
  now <- time ;;
  self <- read ;;
  issued <- lift (Float.of_int (renew_timestamp self)) ;;
  (if Qle_bool (inject_Z 3600) (Float.sub now issued)
   then _gw_api_call depth "deezer.getUserData" None ;; ret tt
   else ret tt) ;;
  now <- time ;;
  (if Qle_bool track_token_expiry now then
     result <- _gw_api_call depth "song.getData"
                 (Some (track_token_payload track_id)) ;;
     lift (getitem result "TRACK_TOKEN")
   else ret track_token).

(** The last step of [get_track_url]: the media request with the
    token to use, and the URL read in the response. *)
Definition media_step (audio_format : string) (track_token : json)
    : M json :=
  self <- read ;;
  data <- post (fun _ =>
                  MediaPost
                    (media_payload (license_token self) audio_format
                                   track_token)) ;;
  lift (stream_url data).

(** Whether the licence token is stale, and whether the track token is
    expired, at the next reading of the clock; the first is
    [time() - self.renew_timestamp >= 3600], which raises when the
    time of issue is too large an [int] for a float. *)
Definition stale (w : world) : result bool :=
  (issued <- Float.of_int (renew_timestamp (self w)) ;;
   Ok (Qle_bool (inject_Z 3600)
                (Float.sub (Float.round64 (clock (ticks w))) issued)))%result.

Definition expired (track_token_expiry : Q) (w : world) : bool :=
  Qle_bool track_token_expiry (Float.round64 (clock (ticks w))).

End Env.

(** What [update_session] reads in [results]. *)
Definition session_fields (results : json)
    : result (json * json * json * json * json * json) :=
  (token <- getitem results "checkForm" ;;
   ctry <- getitem results "COUNTRY" ;;
   lic <- (u <- getitem results "USER" ;;
           o <- getitem u "OPTIONS" ;;
           getitem o "license_token") ;;
   lang <- (u <- getitem results "USER" ;;
            s <- getitem u "SETTING" ;;
            g <- getitem s "global" ;;
            getitem g "language") ;;
   hq <- (u <- getitem results "USER" ;;
          o <- getitem u "OPTIONS" ;;
          get o "web_hq") ;;
   lossless <- (u <- getitem results "USER" ;;
                o <- getitem u "OPTIONS" ;;
                get o "web_lossless") ;;
   Ok (token, ctry, lic, lang, hq, lossless))%result.

(** [results["USER"]["USER_ID"]]. *)
Definition user_id_of (results : json) : result json :=
  (u <- getitem results "USER" ;; getitem u "USER_ID")%result.

(** The formats the entitlement flags give. *)
Definition formats_of (hq lossless : json) : list string :=
  ("MP3_128" :: (if truthy hq then ["MP3_320"] else [])
             ++ (if truthy lossless then ["FLAC"] else []))%list.

(** The client once [update_session] has run to its end at time [now]. *)
Definition refreshed (token ctry lic lang : json) (now : Q)
    (formats : list string) (c : client) : client :=
  set_available_formats formats
    (set_language lang
       (set_renew_timestamp (Qceiling now)
          (set_license_token lic
             (set_country ctry (set_api_token token c))))).

(** *** Sample worlds *)

(** A client as [__init__] leaves it. *)
Definition sample_client : client :=
  {| client_id := "app"; client_secret := "secret";
     bf_secret := map byte_of_ascii (list_ascii_of_string "0123456789abcdef");
     track_url_key := "";
     cookie_jar := []; api_token := JStr ""; country := JStr "";
     license_token := JStr ""; language := JStr "en";
     renew_timestamp := 0; available_formats := ["MP3_128"];
     _arl := "" |}.

Definition start (c : client) : world :=
  {| self := c; sent := []; ticks := 0; rolls := 0 |}.

(** A service that answers the requests in the order of a script, and
    is unreachable once the script is over. *)
Definition scripted (script : list outcome) (history : list request)
    : outcome :=
  nth (length history - 1) script Unreachable.

(** A gateway response without error, and the result of
    [deezer.getUserData] for a token and a user identifier. *)
Definition gw_ok (results : json) : outcome :=
  Reply (JObj [("error", JArr []); ("results", results)]) [].

Definition user_data (token : string) (user_id : Z) : json :=
  JObj [("checkForm", JStr token);
        ("COUNTRY", JStr "US");
        ("USER",
         JObj [("USER_ID", JNum (inject_Z user_id));
               ("OPTIONS",
                JObj [("license_token", JStr "L1");
                      ("web_hq", JBool true);
                      ("web_lossless", JBool false)]);
               ("SETTING",
                JObj [("global", JObj [("language", JStr "en")])])])].

(** A media response with the given sources for the first medium. *)
Definition media_reply (sources : list json) : outcome :=
  Reply (JObj [("data",
                JArr [JObj [("media",
                             JArr [JObj [("sources", JArr sources)]])]])])
        [].

(** A client that has logged in: a token, a licence token issued at
    time 1000, and the ARL kept for the auto-relogin. *)
Definition logged_in_client : client :=
  set_renew_timestamp 1000
    (set_license_token (JStr "L0")
       (set_api_token (JStr "T0")
          (set_cookie_jar [("arl", "my-arl")]
             (set_arl "my-arl" sample_client)))).

(** A client whose token was lost: the ARL is there, the token is
    empty. *)
Definition logged_out_client : client :=
  set_cookie_jar [("arl", "my-arl")] (set_arl "my-arl" sample_client).

(** [raises_only P m]: an exception that [m] raises satisfies [P]. *)
Definition raises_only {A} (P : exn -> Prop) (m : M A) : Prop :=
  forall w e, fst (m w) = Err e -> P e.

Definition fails_only {A} (P : exn -> Prop) (r : result A) : Prop :=
  forall e, r = Err e -> P e.

(** The exceptions of a failed look-up in a decoded response. *)
Definition lookup_error (e : exn) : Prop :=
  match e with
  | KeyError _ | IndexError | TypeError | AttributeError => True
  | _ => False
  end.

(** The exceptions a gateway call can end with when it has room to
    recurse: anything but [ModuleAuthError] and [RecursionError]. *)
Definition gateway_error (e : exn) : Prop :=
  match e with
  | ModuleAuthError _ | RecursionError => False
  | _ => True
  end.

(** [keeps R m]: whatever [m] does and however it ends, the world after
    is related to the world before. *)
Definition keeps {A} (R : world -> world -> Prop) (m : M A) : Prop :=
  forall w, R w (snd (m w)).

(** Relations between the world before and the world after: the same
    requests sent; the same session fields; more requests sent, all to the
    gateway. *)
Definition same_sent (w w' : world) : Prop := sent w' = sent w.

Definition same_session (w w' : world) : Prop :=
  api_token (self w') = api_token (self w) /\
  country (self w') = country (self w) /\
  license_token (self w') = license_token (self w) /\
  language (self w') = language (self w) /\
  renew_timestamp (self w') = renew_timestamp (self w) /\
  available_formats (self w') = available_formats (self w).

Definition is_gw (r : request) : bool :=
  match r with
  | GwPost _ _ _ _ _ => true
  | MediaPost _ => false
  end.

Definition more_gw (w w' : world) : Prop :=
  exists new, sent w' = (sent w ++ new)%list /\ forallb is_gw new = true.

End Api.

(** ** More relations on worlds *)

Module Relations.
Import Api.

(** The stored ARL is the same. *)
Definition same_arl (w w' : world) : Prop := _arl (self w') = _arl (self w).

(** At most [n] requests were added to those sent before, all of them to
    the gateway. *)
Definition sends_at_most (n : nat) (w w' : world) : Prop :=
  exists new,
    sent w' = (sent w ++ new)%list /\
    forallb is_gw new = true /\ (length new <= n)%nat.

(** [bounded n m]: [m] sends at most [n] requests, all to the gateway,
    and keeps the stored ARL. *)
Definition bounded {A} (n : nat) (m : M A) : Prop :=
  forall w, sends_at_most n w (snd (m w)) /\ same_arl w (snd (m w)).

End Relations.

(** ** The catalogue calls of the client *)

Module Catalogue.
Import Api.
Local Open Scope string_scope.

(** [v.get(k, default)]. *)
Definition get_default (v : json) (k : string) (default : json)
    : result json :=
  match v with
  | JObj fields =>
      match lookup k fields with
      | Some x => Ok x
      | None => Ok default
      end
  | _ => Err AttributeError
  end.

(** [needle in hay] on two [str]. *)
Fixpoint is_substring (needle hay : string) : bool :=
  String.prefix needle hay
  || match hay with
     | EmptyString => false
     | String _ rest => is_substring needle rest
     end.

(** [k in v] for a string [k]: a key of a [dict], an item of a [list],
    a substring of a [str]; [TypeError] on what cannot be searched. *)
Definition contains (v : json) (k : string) : result bool :=
  match v with
  | JObj fields =>
      Ok (match lookup k fields with Some _ => true | None => false end)
  | JArr items =>
      Ok (existsb (fun x => match x with
                            | JStr s => s =? k
                            | _ => false
                            end) items)
  | JStr s => Ok (is_substring k s)
  | _ => Err TypeError
  end.

(** [for a in v]: the items of a [list], the keys of a [dict], the
    characters of a [str]; [TypeError] otherwise. *)
Definition iterate (v : json) : result (list json) :=
  match v with
  | JArr items => Ok items
  | JObj fields => Ok (map (fun kv => JStr (fst kv)) fields)
  | JStr s => Ok (map (fun c => JStr (String c "")) (list_ascii_of_string s))
  | _ => Err TypeError
  end.

(** [try: m except ...: handler]: the handler takes the exceptions it
    is defined on; the assignments made before the exception stay. *)
Definition try_except {A} (m : M A) (handler : exn -> option (M A))
    : M A :=
  fun w =>
    match m w with
    | (Ok a, w') => (Ok a, w')
    | (Err e, w') =>
        match handler e with
        | Some k => k w'
        | None => (Err e, w')
        end
    end.

(** The payloads of the catalogue calls. *)
Definition track_payload (track_id : string) : json :=
  JObj [("sng_id", JStr track_id)].

Definition track_field_payload (track_id field : string) : json :=
  JObj [("sng_id", JStr track_id); ("array_default", JArr [JStr field])].

Definition album_payload (album_id lang : json) : json :=
  JObj [("alb_id", album_id); ("lang", lang)].

Definition playlist_payload (playlist_id : string) (limit start : Z)
    (lang : json) : json :=
  JObj [("nb", JNum (inject_Z limit));
        ("start", JNum (inject_Z start));
        ("playlist_id", JStr playlist_id);
        ("lang", lang);
        ("tab", JNum 0);
        ("tags", JBool true);
        ("header", JBool true)].

Definition discography_payload (artist_id : string) (start limit : Z)
    (credited : bool) : json :=
  JObj [("art_id", JStr artist_id);
        ("start", JNum (inject_Z start));
        ("nb", JNum (inject_Z limit));
        ("filter_role_id",
         if credited then JArr [JNum 0; JNum 5] else JArr [JNum 0]);
        ("nb_songs", JNum 0);
        ("discography_mode", if credited then JStr "all" else JNull);
        ("array_default", JArr [JStr "ALB_ID"])].

(** [[a["ALB_ID"] for a in result.get("data", [])]]. *)
Definition album_ids_of (result : json) : Py.result (list json) :=
  (data <- get_default result "data" (JArr []) ;;
   items <- iterate data ;;
   mapM (fun a => getitem a "ALB_ID") items)%result.

Section Env.

Local Open Scope M_scope.

Variable network : list request -> outcome.
Variable clock : nat -> Q.
Variable random : nat -> Z.

(** [str(e)] for a [ModuleAPIError], a class of [haberlea.utils]. *)
Variable str_of_error : exn -> string.

Local Abbreviation _gw_api_call := (_gw_api_call network clock random).

(** [get_track(self, track_id)]. *)
Definition get_track (depth : nat) (track_id : string) : M json :=
  _gw_api_call depth "deezer.pageTrack" (Some (track_payload track_id)).

(** [get_track_data(self, track_id)]. *)
Definition get_track_data (depth : nat) (track_id : string) : M json :=
  _gw_api_call depth "song.getData" (Some (track_payload track_id)).

(** [get_track_lyrics(self, track_id)]. *)
Definition get_track_lyrics (depth : nat) (track_id : string) : M json :=
  _gw_api_call depth "song.getLyrics" (Some (track_payload track_id)).

(** [get_track_contributors(self, track_id)]. *)
Definition get_track_contributors (depth : nat) (track_id : string)
    : M json :=
  result <- _gw_api_call depth "song.getData"
              (Some (track_field_payload track_id "SNG_CONTRIBUTORS")) ;;
  lift (get_default result "SNG_CONTRIBUTORS" (JObj [])).

(** [get_track_cover(self, track_id)]. *)
Definition get_track_cover (depth : nat) (track_id : string) : M json :=
  result <- _gw_api_call depth "song.getData"
              (Some (track_field_payload track_id "ALB_PICTURE")) ;;
  lift (get_default result "ALB_PICTURE" (JStr "")).

(** The [except ModuleAPIError as e:] block of [get_album]. *)
Definition album_fallback (depth : nat) (album_id : string) (e : exn)
    : M json :=
  if is_substring "FALLBACK" (str_of_error e) then
    fallback_data <- _gw_api_call depth "album.getData"
                       (Some (JObj [("alb_id", JStr album_id)])) ;;
    found <- lift (contains fallback_data "FALLBACK") ;;
    if found then
      alb_id <- lift (f <- getitem fallback_data "FALLBACK" ;;
                      getitem f "ALB_ID")%result ;;
      self <- read ;;
      _gw_api_call depth "deezer.pageAlbum"
        (Some (album_payload alb_id (language self)))
    else raise e
  else raise e.

(** [get_album(self, album_id)]. *)
Definition get_album (depth : nat) (album_id : string) : M json :=
  self <- read ;;
  try_except
    (_gw_api_call depth "deezer.pageAlbum"
       (Some (album_payload (JStr album_id) (language self))))
    (fun e =>
       match e with
       | ModuleAPIError _ _ _ _ _ => Some (album_fallback depth album_id e)
       | _ => None
       end).

(** [get_playlist(self, playlist_id, limit, start)]. *)
Definition get_playlist (depth : nat) (playlist_id : string)
    (limit start : Z) : M json :=
  self <- read ;;
  _gw_api_call depth "deezer.pagePlaylist"
    (Some (playlist_payload playlist_id limit start (language self))).

(** [get_artist_name(self, artist_id)]. *)
Definition get_artist_name (depth : nat) (artist_id : string) : M json :=
  result <- _gw_api_call depth "artist.getData"
              (Some (JObj [("art_id", JStr artist_id);
                           ("array_default", JArr [JStr "ART_NAME"])])) ;;
  lift (get_default result "ART_NAME" (JStr "")).

(** [get_artist_album_ids(self, artist_id, start, limit, credited)]. *)
Definition get_artist_album_ids (depth : nat) (artist_id : string)
    (start limit : Z) (credited : bool) : M (list json) :=
  result <- _gw_api_call depth "album.getDiscography"
              (Some (discography_payload artist_id start limit credited)) ;;
  lift (album_ids_of result).

End Env.

Section Download.

Local Open Scope result_scope.

(** The cipher, and [download_file] of [haberlea.utils.utils] with its
    arguments [url], [output_path], [chunk_processor] and [chunk_size]
    (the HTTP session it is given is left out). *)
Variable Blowfish_decrypt : bytes -> bytes -> bytes -> result bytes.
Variable download_file :
  string -> string -> (bytes -> Z -> result bytes) -> Z -> result unit.

(** [download_and_decrypt_track(self, track_id, url, output_path)]. *)
Definition download_and_decrypt_track (self : client)
    (track_id url output_path : string) : result unit :=
  let chunk_size := 1048576 in
  bf_key <- get_blowfish_key self track_id ;;
  chunk_processor <-
    Decryptor._create_blowfish_decryptor Blowfish_decrypt bf_key
                                         chunk_size ;;
  download_file url output_path chunk_processor chunk_size.

End Download.

End Catalogue.

(** ** The module interface ([interface.py]) *)

Module Interface.
Import Api Catalogue.
Local Open Scope string_scope.

(** [a == b] on decoded values: [bool] compares as the numbers 0 and 1,
    a [dict] by its keys and their values whatever the order. *)
Fixpoint py_eq (a b : json) {struct a} : bool :=
  match a, b with
  | JNull, JNull => true
  | JBool x, JBool y => Bool.eqb x y
  | JBool x, JNum q => Qeq_bool (if x then 1 else 0) q
  | JNum p, JBool y => Qeq_bool p (if y then 1 else 0)
  | JNum p, JNum q => Qeq_bool p q
  | JStr s, JStr t => s =? t
  | JArr xs, JArr ys =>
      (fix items (xs ys : list json) {struct xs} : bool :=
         match xs, ys with
         | [], [] => true
         | x :: xs', y :: ys' => py_eq x y && items xs' ys'
         | _, _ => false
         end) xs ys
  | JObj fs, JObj gs =>
      (length fs =? length gs)%nat
      && (fix fields (fs : list (string * json)) {struct fs} : bool :=
            match fs with
            | [] => true
            | (k, v) :: fs' =>
                match lookup k gs with
                | Some v' => py_eq v v'
                | None => false
                end && fields fs'
            end) fs
  | _, _ => false
  end.

(** [x in v]: an item of a [list], a key of a [dict] (a [list] or a
    [dict] cannot be hashed), a substring of a [str]; [TypeError] on
    what cannot be searched. *)
Definition py_in (x v : json) : result bool :=
  match v with
  | JArr items => Ok (existsb (py_eq x) items)
  | JObj fields =>
      match x with
      | JStr k =>
          Ok (match lookup k fields with Some _ => true | None => false end)
      | JArr _ | JObj _ => Err TypeError
      | _ => Ok false
      end
  | JStr s =>
      match x with
      | JStr t => Ok (is_substring t s)
      | _ => Err TypeError
      end
  | _ => Err TypeError
  end.

(** [str(n)] for an [int]. *)
Definition decimal (n : Z) : string := NilZero.string_of_int (Z.to_int n).

(** The enumerations of [haberlea.utils.models], with the members the
    module names, and [ImageType] of the module. *)
Inductive QualityEnum : Type :=
| MINIMUM | LOW | MEDIUM | HIGH | LOSSLESS | HIFI.

Inductive CodecEnum : Type := MP3 | FLAC.

Inductive ImageFileTypeEnum : Type := jpg | png | webp.

Inductive CoverCompressionEnum : Type := high | low.

Inductive ImageType : Type := cover | artist | playlist | user | misc | talk.

(** [img_type.name]. *)
Definition image_type_name (t : ImageType) : string :=
  match t with
  | cover => "cover"
  | artist => "artist"
  | playlist => "playlist"
  | user => "user"
  | misc => "misc"
  | talk => "talk"
  end.

Record CoverOptions : Type := {
  file_type : ImageFileTypeEnum;
  resolution : Z;
  compression : CoverCompressionEnum
}.

(** [self.quality_map] and [self.compression_map] of [__init__]. *)
Definition quality_map (tier : QualityEnum) : string :=
  match tier with
  | MINIMUM => "MP3_128"
  | LOW => "MP3_128"
  | MEDIUM => "MP3_320"
  | HIGH => "MP3_320"
  | LOSSLESS => "FLAC"
  | HIFI => "FLAC"
  end.

Definition compression_map (c : CoverCompressionEnum) : Z :=
  match c with
  | high => 80
  | low => 50
  end.

(** [formats_priority = ["FLAC", "MP3_320", "MP3_128"]]. *)
Definition formats_priority : list string := ["FLAC"; "MP3_320"; "MP3_128"].

(** [l.index(x)], [None] standing for its [ValueError]. *)
Fixpoint list_index (x : string) (l : list string) : option nat :=
  match l with
  | [] => None
  | y :: rest =>
      if y =? x then Some 0%nat
      else match list_index x rest with
           | Some i => Some (S i)
           | None => None
           end
  end.

(** [v != "0"]. *)
Definition differs_from_0 (v : json) : bool :=
  match v with
  | JStr s => negb (s =? "0")
  | _ => true
  end.

(** The [for] loop of [_find_available_format] over the formats left. *)
Fixpoint first_available (track_data : json) (formats : list string)
    : result (option string) :=
  match formats with
  | [] => Ok None
  | fmt :: rest =>
      (let filesize_key := "FILESIZE_" ++ fmt in
       size <- get_default track_data filesize_key (JStr "0") ;;
       if differs_from_0 size then Ok (Some fmt)
       else first_available track_data rest)%result
  end.

(** [_find_available_format(self, track_data, target_format)]. *)
Definition _find_available_format (track_data : json)
    (target_format : string) : result (option string) :=
  let start_idx := match list_index target_format formats_priority with
                   | Some i => i
                   | None => 0%nat
                   end in
  first_available track_data (skipn start_idx formats_priority).

(** Whether the data of a track give a file in a format: the entry
    [FILESIZE_<format>] is there and is not the string ["0"]. *)
Definition has_file (fields : list (string * json)) (fmt : string) : bool :=
  match lookup ("FILESIZE_" ++ fmt) fields with
  | Some size => differs_from_0 size
  | None => false
  end.

(** The formats from the target on, in the order of the priorities; all
    of them for a target that is not in the list. *)
Definition candidates (target_format : string) : list string :=
  match list_index target_format formats_priority with
  | Some i => skipn i formats_priority
  | None => formats_priority
  end.

(** The format [_check_track_availability] settles on for a track of
    the catalogue. *)
Definition final_format_of (fields : list (string * json))
    (audio_format : string) : string :=
  match find (has_file fields) (candidates audio_format) with
  | Some fmt => fmt
  | None => "MP3_128"
  end.

(** [_calculate_track_codec_bitrate(self, audio_format)]. *)
Definition _calculate_track_codec_bitrate (audio_format : string)
    : CodecEnum * option Z :=
  let codec_map := [("MP3_MISC", MP3); ("MP3_128", MP3);
                    ("MP3_320", MP3); ("FLAC", FLAC)] in
  let codec := match find (fun kv => fst kv =? audio_format) codec_map with
               | Some kv => snd kv
               | None => MP3
               end in
  let bitrate_map := [("MP3_MISC", None); ("MP3_128", Some 128);
                      ("MP3_320", Some 320); ("FLAC", Some 1411)] in
  let bitrate := match find (fun kv => fst kv =? audio_format)
                            bitrate_map with
                 | Some kv => snd kv
                 | None => None
                 end in
  (codec, bitrate).

(** [_get_track_artists(self, t_data)]. *)
Definition _get_track_artists (t_data : json) : result (list json) :=
  (found <- contains t_data "ARTISTS" ;;
   if found then
     artists <- getitem t_data "ARTISTS" ;;
     items <- iterate artists ;;
     mapM (fun a => getitem a "ART_NAME") items
   else
     name <- get_default t_data "ART_NAME" (JStr "Unknown") ;;
     Ok [name])%result.

Section Formatting.

Local Open Scope result_scope.

(** [str(v)] of a decoded value that is not a [str], as an f-string
    prints it. *)
Variable repr_of : json -> string.

Definition py_str (v : json) : string :=
  match v with
  | JStr s => s
  | _ => repr_of v
  end.

(** [_get_image_url(self, md5_hash, img_type, file_type, resolution,
    compression)]. *)
Definition _get_image_url (md5_hash : json) (img_type : ImageType)
    (file_type : ImageFileTypeEnum) (resolution compression : Z)
    : string :=
  let resolution := if (3000 <? resolution)%Z then 3000 else resolution in
  let filename :=
    match file_type with
    | jpg => decimal resolution ++ "x0-000000-" ++ decimal compression
             ++ "-0-0.jpg"
    | _ => decimal resolution ++ "x0-none-100-0-0.png"
    end in
  "https://cdn-images.dzcdn.net/images/" ++ image_type_name img_type
  ++ "/" ++ py_str md5_hash ++ "/" ++ filename.

(** [_check_track_availability(self, t_data, audio_format,
    is_user_uploaded)]; [api] is [self.api]. *)
Definition _check_track_availability (api : client) (t_data : json)
    (audio_format : string) (is_user_uploaded : bool)
    : result (string * option string) :=
  if is_user_uploaded then
    rights <- get_default t_data "RIGHTS" (JObj []) ;;
    ads <- get rights "STREAM_ADS_AVAILABLE" ;;
    Ok (audio_format,
        if negb (truthy ads)
        then Some "Cannot download track uploaded by another user"
        else None)
  else
    available_format <- _find_available_format t_data audio_format ;;
    let final_format := match available_format with
                        | Some fmt => if fmt =? "" then "MP3_128" else fmt
                        | None => "MP3_128"
                        end in
    available_countries <- get_default t_data "AVAILABLE_COUNTRIES"
                                       (JObj []) ;;
    countries <- get_default available_countries "STREAM_ADS" (JArr []) ;;
    elsewhere <- (if truthy countries
                  then here <- py_in (country api) countries ;;
                       Ok (negb here)
                  else Ok false) ;;
    if elsewhere then
      Ok (final_format,
          Some ("Track not available in " ++ py_str (country api)))
    else if negb (existsb (String.eqb final_format)
                          (available_formats api)) then
      Ok (final_format,
          Some ("Format " ++ final_format
                ++ " not available with your subscription"))
    else Ok (final_format, None).

End Formatting.

Section Env.

Local Open Scope M_scope.

Variable network : list request -> outcome.
Variable clock : nat -> Q.
Variable random : nat -> Z.
Variable repr_of : json -> string.

(** [_get_track_data(self, track_id, data, is_user_uploaded)]. *)
Definition _get_track_data (depth : nat) (track_id : string) (data : json)
    (is_user_uploaded : bool) : M json :=
  cached <- lift (contains data track_id) ;;
  track <- (if cached then lift (getitem data track_id)
            else if negb is_user_uploaded
                 then get_track network clock random depth track_id
                 else get_track_data network clock random depth
                                     track_id) ;;
  t_data <- (if negb is_user_uploaded
             then lift (get_default track "DATA" track)
             else ret track) ;;
  fallback <- lift (contains t_data "FALLBACK") ;;
  if fallback then lift (getitem t_data "FALLBACK") else ret t_data.

(** [get_track_cover(self, track_id, cover_options, data)]: the URL and
    the file type of the [CoverInfo] it returns. *)
Definition get_track_cover (depth : nat) (track_id : string)
    (cover_options : CoverOptions) (data : option json)
    : M (string * ImageFileTypeEnum) :=
  let data := match data with
              | None => JObj []
              | Some d => d
              end in
  cover_md5 <- lift (get data "md5") ;;
  cover_md5 <- (match cover_md5 with
                | JNull => Catalogue.get_track_cover network clock random
                                                     depth track_id
                | _ => ret cover_md5
                end) ;;
  let file_type :=
    if negb (truthy cover_md5)
       || match file_type cover_options with
          | webp => true
          | _ => false
          end
    then jpg
    else file_type cover_options in
  ret (_get_image_url repr_of cover_md5 cover file_type
                      (resolution cover_options)
                      (compression_map (compression cover_options)),
       file_type).

(** [get_artist_info(self, artist_id, get_credited_albums)]: the name
    and the albums of the [ArtistInfo] it returns. *)
Definition get_artist_info (depth : nat) (artist_id : string)
    (get_credited_albums : bool) : M (json * list json) :=
  name <- get_artist_name network clock random depth artist_id ;;
  albums <- get_artist_album_ids network clock random depth artist_id
                                 0 (-1) get_credited_albums ;;
  ret (name, albums).

End Env.

End Interface.

(** * Facts *)

(** ** The result monad *)

Lemma bind_Ok_inv {A B} (m : result A) (k : A -> result B) (b : B) :
  bind m k = Ok b -> exists a, m = Ok a /\ k a = Ok b.
Proof. destruct m as [a|e]; simpl; [eauto | discriminate]. Qed.

Lemma mapM_app {A B} (f : A -> result B) (l1 l2 : list A) :
  mapM f (l1 ++ l2) =
  bind (mapM f l1) (fun ys1 => bind (mapM f l2) (fun ys2 => Ok (ys1 ++ ys2))).
Proof.
  induction l1 as [|x l1 IH]; simpl.
  - destruct (mapM f l2); reflexivity.
  - destruct (f x) as [y|e]; simpl; [|reflexivity].
    rewrite IH. destruct (mapM f l1) as [ys1|e]; simpl; [|reflexivity].
    destruct (mapM f l2); reflexivity.
Qed.

Lemma mapM_ext {A B} (f g : A -> result B) (l : list A) :
  (forall x, In x l -> f x = g x) -> mapM f l = mapM g l.
Proof.
  induction l as [|x l IH]; intros H; simpl; [reflexivity|].
  rewrite (H x (or_introl eq_refl)), IH; [reflexivity|].
  intros y Hy. apply H. now right.
Qed.

Lemma mapM_Ok_nth {A B} (f : A -> result B) (l : list A) (ys : list B) :
  mapM f l = Ok ys ->
  length ys = length l /\
  forall i d e, (i < length l)%nat -> f (nth i l d) = Ok (nth i ys e).
Proof.
  revert ys; induction l as [|x l IH]; intros ys H; simpl in H.
  - injection H as <-. split; [reflexivity|]. simpl; intros; lia.
  - apply bind_Ok_inv in H as (y & Hy & H).
    apply bind_Ok_inv in H as (ys' & Hys' & H). injection H as <-.
    destruct (IH _ Hys') as [Hlen Hnth]. split; [simpl; congruence|].
    intros [|i] d e Hi; simpl; [exact Hy|]. apply Hnth. simpl in Hi. lia.
Qed.

Lemma mapM_total {A B} (f : A -> result B) (l : list A) :
  (forall x, In x l -> exists y, f x = Ok y) -> exists ys, mapM f l = Ok ys.
Proof.
  induction l as [|x l IH]; intros H; simpl; [eauto|].
  destruct (H x (or_introl eq_refl)) as [y ->].
  destruct IH as [ys ->]; [intros z Hz; apply H; now right|].
  simpl. eauto.
Qed.

(** ** Floats *)

Module FloatFacts.
Import Float.







End FloatFacts.

(** ** Windows of a sequence *)

Module WindowFacts.
Import Decryptor.

Section Windows.
Context {A : Type}.
Variable n : nat.
Hypothesis n_pos : (0 < n)%nat.

Lemma nwin_mul_ge len : (len <= nwin n len * n)%nat.
Proof.
  unfold nwin.
  pose proof (Nat.div_mod_eq (len + n - 1) n) as E.
  pose proof (Nat.mod_upper_bound (len + n - 1) n ltac:(lia)) as B.
  nia.
Qed.

Lemma nwin_lt k len : (k < nwin n len <-> k * n < len)%nat.
Proof.
  unfold nwin.
  pose proof (Nat.div_mod_eq (len + n - 1) n) as E.
  pose proof (Nat.mod_upper_bound (len + n - 1) n ltac:(lia)) as B.
  split; intros H; nia.
Qed.

Lemma nwin_add m len : nwin n (m * n + len) = (m + nwin n len)%nat.
Proof.
  unfold nwin.
  replace (m * n + len + n - 1)%nat with ((len + n - 1) + m * n)%nat
    by lia.
  rewrite Nat.div_add by lia. lia.
Qed.

Lemma nwin_le_1 len : (len <= n)%nat -> (nwin n len <= 1)%nat.
Proof.
  intros H. destruct (Nat.le_gt_cases (nwin n len) 1) as [|H1]; [easy|].
  apply nwin_lt in H1. lia.
Qed.

Lemma firstn_add (a b : nat) (l : list A) :
  firstn (a + b) l = firstn a l ++ firstn b (skipn a l).
Proof.
  revert l; induction a as [|a IH]; intros [|x l]; simpl;
    try reflexivity.
  - now rewrite firstn_nil.
  - now rewrite IH.
Qed.

Lemma concat_windows (l : list A) (m : nat) :
  concat (map (window n l) (seq 0 m)) = firstn (m * n) l.
Proof.
  induction m as [|m IH]; [reflexivity|].
  rewrite seq_S, map_app, concat_app, IH. simpl.
  rewrite app_nil_r. unfold window.
  replace (n + m * n)%nat with (m * n + n)%nat by lia.
  now rewrite firstn_add.
Qed.

Lemma concat_all_windows (l : list A) :
  concat (map (window n l) (seq 0 (nwin n (length l)))) = l.
Proof. rewrite concat_windows. apply firstn_all2, nwin_mul_ge. Qed.

Lemma window_app_l (c rest : list A) (m k : nat) :
  length c = (m * n)%nat -> (k < m)%nat ->
  window n (c ++ rest) k = window n c k.
Proof.
  intros Hc Hk. unfold window.
  rewrite skipn_app, firstn_app, length_skipn.
  replace (n - (length c - k * n))%nat with 0%nat by nia.
  replace (k * n - length c)%nat with 0%nat by nia.
  simpl. now rewrite app_nil_r.
Qed.

Lemma window_app_r (c rest : list A) (m j : nat) :
  length c = (m * n)%nat -> window n (c ++ rest) (m + j) = window n rest j.
Proof.
  intros Hc. unfold window.
  rewrite skipn_app, (skipn_all2 c) by nia.
  replace ((m + j) * n - length c)%nat with (j * n)%nat by nia.
  reflexivity.
Qed.

Lemma length_window (l : list A) (k : nat) :
  length (window n l k) = Nat.min n (length l - k * n).
Proof. unfold window. now rewrite length_firstn, length_skipn. Qed.

Lemma window_full (l : list A) (k : nat) :
  (S k < nwin n (length l))%nat -> length (window n l k) = n.
Proof. intros H. apply nwin_lt in H. rewrite length_window. lia. Qed.

Lemma blocks_shape_tail (l : list A) (ls : list (list A)) :
  blocks_shape n (l :: ls) -> blocks_shape n ls.
Proof.
  clear n_pos.
  intros H k Hk. destruct (H (S k)) as [H1 H2]; [simpl; lia|].
  split; [exact H1|]. intros Hk'. apply H2. simpl. lia.
Qed.

Lemma window_concat (ls : list (list A)) (k : nat) :
  blocks_shape n ls -> (k < length ls)%nat ->
  window n (concat ls) k = nth k ls [].
Proof.
  revert k; induction ls as [|l ls IH]; intros k Hs Hk;
    [simpl in Hk; lia|].
  change (concat (l :: ls)) with (l ++ concat ls).
  destruct k as [|k].
  - destruct (Hs 0%nat Hk) as [Hle Hfull]. simpl in Hle, Hfull.
    unfold window. simpl skipn. rewrite firstn_app. simpl nth.
    destruct ls as [|l' ls].
    + simpl. rewrite firstn_nil, app_nil_r. now apply firstn_all2.
    + rewrite Hfull by (simpl; lia). rewrite Nat.sub_diag. simpl.
      rewrite app_nil_r. apply firstn_all2. rewrite Hfull; [lia|].
      simpl; lia.
  - destruct (Hs 0%nat) as [_ Hfull]; [simpl; lia|].
    simpl in Hfull, Hk.
    change (S k) with (1 + k)%nat.
    rewrite (window_app_r l _ 1 k) by (rewrite Hfull; lia).
    simpl. apply IH; [eapply blocks_shape_tail; eassumption | lia].
Qed.

Lemma length_concat_same (ls ls' : list (list A)) :
  length ls = length ls' ->
  (forall k, (k < length ls)%nat ->
     length (nth k ls []) = length (nth k ls' [])) ->
  length (concat ls) = length (concat ls').
Proof.
  clear n_pos.
  revert ls'; induction ls as [|l ls IH]; intros [|l' ls'] Hlen H;
    simpl in Hlen; try discriminate; [reflexivity|].
  simpl. rewrite !length_app.
  pose proof (H 0%nat ltac:(simpl; lia)) as H0. simpl in H0.
  rewrite H0. f_equal.
  apply IH; [lia|]. intros k Hk. apply (H (S k)). simpl. lia.
Qed.

End Windows.
End WindowFacts.

(** ** The chunk processor *)

Module DecryptorFacts.
Import Decryptor WindowFacts.
Local Open Scope result_scope.

Lemma block_size_pos : (0 < block_size)%nat.
Proof. unfold block_size. apply Nat.lt_0_succ. Qed.

Lemma block_size_Z : Z.of_nat block_size = 2048.
Proof. reflexivity. Qed.

Section WithCipher.
Variable Blowfish_decrypt : bytes -> bytes -> bytes -> result bytes.

Local Abbreviation loop_body := (loop_body Blowfish_decrypt).
Local Abbreviation process_chunk := (process_chunk Blowfish_decrypt).
Local Abbreviation transform := (transform Blowfish_decrypt).

Lemma fold_loop_body_Err bf_key base chunk e (offsets : list nat) :
  fold_left (loop_body bf_key base chunk) offsets (Err e) = Err e.
Proof. induction offsets as [|i offsets IH]; simpl; auto. Qed.

Lemma loop_body_window bf_key base chunk r (k : nat) :
  loop_body bf_key base chunk (Ok r) (k * block_size) =
  (block <- transform bf_key base chunk k ;; Ok (r ++ block)).
Proof.
  unfold Decryptor.loop_body, Decryptor.transform, slice, window.
  cbv beta iota delta [bind] zeta.
  rewrite Nat.div_mul by (pose proof block_size_pos; lia).
  replace (k * block_size + block_size - k * block_size)%nat
    with block_size by lia.
  reflexivity.
Qed.

Lemma fold_loop_body bf_key base chunk (ks : list nat) (r : bytes) :
  fold_left (loop_body bf_key base chunk)
            (map (fun k => (k * block_size)%nat) ks) (Ok r) =
  (outs <- mapM (transform bf_key base chunk) ks ;;
   Ok (r ++ concat outs)).
Proof.
  revert r; induction ks as [|k ks IH]; intros r;
    cbn [map fold_left mapM bind concat].
  - now rewrite app_nil_r.
  - rewrite loop_body_window.
    destruct (transform bf_key base chunk k) as [b|e]; cbn [bind].
    + rewrite IH.
      destruct (mapM (transform bf_key base chunk) ks); cbn [bind concat];
        [|reflexivity].
      now rewrite app_assoc.
    + apply fold_loop_body_Err.
Qed.

(** The processor, window by window. *)
Lemma process_chunk_windows bf_key bpc chunk chunk_index :
  process_chunk bf_key bpc chunk chunk_index =
  (outs <- mapM (transform bf_key (chunk_index * bpc) chunk)
                (seq 0 (nwin block_size (length chunk))) ;;
   Ok (concat outs)).
Proof.
  unfold process_chunk, range0. cbv zeta.
  rewrite fold_loop_body. reflexivity.
Qed.

Lemma mapM_seq_shift {B} (f : nat -> result B) (a s len : nat) :
  mapM f (seq (a + s) len) = mapM (fun j => f (a + j)%nat) (seq s len).
Proof.
  revert s; induction len as [|len IH]; intros s; [reflexivity|].
  cbn [seq mapM]. replace (S (a + s)) with (a + S s)%nat by lia.
  now rewrite IH.
Qed.

Lemma mapM_seq_shift0 {B} (f : nat -> result B) (a len : nat) :
  mapM f (seq a len) = mapM (fun j => f (a + j)%nat) (seq 0 len).
Proof. rewrite <- mapM_seq_shift. now rewrite Nat.add_0_r. Qed.

Lemma nwin_exact (m : nat) :
  nwin block_size (m * block_size) = m.
Proof.
  pose proof block_size_pos.
  replace (m * block_size)%nat with (m * block_size + 0)%nat by lia.
  rewrite nwin_add by assumption. unfold nwin.
  rewrite Nat.div_small; lia.
Qed.

(** A chunk that ends on a chunk boundary can be cut off and processed
    on its own, the rest with the next index. *)
Lemma process_chunk_app bf_key (m : nat) (c rest : bytes) (idx : Z) :
  length c = (m * block_size)%nat ->
  process_chunk bf_key (Z.of_nat m) (c ++ rest) idx =
  (o1 <- process_chunk bf_key (Z.of_nat m) c idx ;;
   o2 <- process_chunk bf_key (Z.of_nat m) rest (idx + 1) ;;
   Ok (o1 ++ o2)).
Proof.
  intros Hc. pose proof block_size_pos as Hpos.
  rewrite !process_chunk_windows.
  rewrite length_app, Hc, nwin_add, nwin_exact by assumption.
  rewrite seq_app, mapM_app. cbn [Nat.add].
  rewrite (mapM_ext (transform bf_key (idx * Z.of_nat m) (c ++ rest))
                    (transform bf_key (idx * Z.of_nat m) c)).
  2:{ intros k Hk. apply in_seq in Hk. unfold Decryptor.transform.
      rewrite (window_app_l _ Hpos c rest m k) by lia. reflexivity. }
  rewrite (mapM_seq_shift0 _ m).
  rewrite (mapM_ext
             (fun j => transform bf_key (idx * Z.of_nat m) (c ++ rest)
                                 (m + j))
             (transform bf_key ((idx + 1) * Z.of_nat m) rest)).
  2:{ intros j _. unfold Decryptor.transform.
      rewrite (window_app_r _ Hpos c rest m j) by assumption.
      replace (idx * Z.of_nat m + Z.of_nat (m + j))
        with ((idx + 1) * Z.of_nat m + Z.of_nat j) by lia.
      reflexivity. }
  destruct (mapM (transform bf_key (idx * Z.of_nat m) c) _) as [ys1|e];
    cbn [bind]; [|reflexivity].
  destruct (mapM (transform bf_key ((idx + 1) * Z.of_nat m) rest) _)
    as [ys2|e]; cbn [bind]; [|reflexivity].
  now rewrite concat_app.
Qed.

Lemma process_chunk_nil bf_key bpc idx :
  process_chunk bf_key bpc [] idx = Ok [].
Proof. reflexivity. Qed.

(** Chunk after chunk gives what the whole stream gives. *)
Lemma process_stream_concat bf_key (m : nat) (chunks : list bytes)
    (idx : Z) :
  blocks_shape (m * block_size) chunks ->
  process_stream (process_chunk bf_key (Z.of_nat m)) chunks idx =
  process_chunk bf_key (Z.of_nat m) (concat chunks) idx.
Proof.
  revert idx; induction chunks as [|c rest IH]; intros idx Hs.
  - reflexivity.
  - cbn [process_stream concat].
    destruct rest as [|c' rest].
    + cbn [process_stream concat bind]. rewrite app_nil_r.
      destruct (process_chunk bf_key (Z.of_nat m) c idx); cbn [bind];
        [now rewrite app_nil_r | reflexivity].
    + destruct (Hs 0%nat) as [_ Hfull]; [simpl; lia|].
      assert (Hlt : (1 < length (c :: c' :: rest))%nat) by (simpl; lia).
      specialize (Hfull Hlt). cbn [nth] in Hfull.
      rewrite process_chunk_app by exact Hfull.
      rewrite IH by (eapply blocks_shape_tail; eassumption).
      reflexivity.
Qed.

Lemma nth_map_seq {B} (f : nat -> list B) (m k : nat) :
  (k < m)%nat -> nth k (map f (seq 0 m)) [] = f k.
Proof.
  intros Hk. rewrite (nth_indep _ [] (f 0%nat)) by
    (now rewrite length_map, length_seq).
  rewrite map_nth, seq_nth by assumption. reflexivity.
Qed.

Lemma blocks_shape_split (n : nat) (stream : bytes) :
  (0 < n)%nat -> blocks_shape n (split_stream n stream).
Proof.
  intros Hn k Hk. unfold split_stream in *.
  rewrite length_map, length_seq in *.
  rewrite nth_map_seq by assumption. split.
  - rewrite length_window. lia.
  - apply window_full; assumption.
Qed.

Lemma concat_split_stream (n : nat) (stream : bytes) :
  (0 < n)%nat -> concat (split_stream n stream) = stream.
Proof. intros Hn. now apply concat_all_windows. Qed.

Lemma create_Ok_inv bf_key chunk_size proc :
  _create_blowfish_decryptor Blowfish_decrypt bf_key chunk_size = Ok proc ->
  chunk_size mod 2048 = 0 /\
  proc = process_chunk bf_key (chunk_size / 2048).
Proof.
  unfold _create_blowfish_decryptor. rewrite block_size_Z.
  destruct (Z.eqb_spec (chunk_size mod 2048) 0) as [E|E]; cbn [negb];
    [|discriminate].
  intros H; injection H as <-. now split.
Qed.

Lemma process_chunk_index_0 bf_key bpc bpc' chunk :
  process_chunk bf_key bpc chunk 0 = process_chunk bf_key bpc' chunk 0.
Proof. reflexivity. Qed.

Lemma transform_length bf_key base chunk k out :
  keeps_length Blowfish_decrypt ->
  transform bf_key base chunk k = Ok out ->
  length out = length (window block_size chunk k).
Proof.
  intros Hlen. unfold Decryptor.transform. cbv zeta.
  destruct (_ && _); intros H.
  - now apply Hlen in H.
  - now injection H as <-.
Qed.

Lemma transform_total bf_key base chunk k :
  accepts Blowfish_decrypt bf_key ->
  exists out, transform bf_key base chunk k = Ok out.
Proof.
  intros Hacc. unfold Decryptor.transform. cbv zeta.
  destruct (_ mod 3 =? 0); cbn [andb]; [|eauto].
  destruct (Nat.eqb_spec (length (window block_size chunk k)) block_size)
    as [E|E]; [|eauto].
  now apply Hacc.
Qed.

(** The output of a successful call, window by window. *)
Lemma process_chunk_layout bf_key bpc chunk idx out :
  keeps_length Blowfish_decrypt ->
  process_chunk bf_key bpc chunk idx = Ok out ->
  length out = length chunk /\
  forall k, (k < nwin block_size (length chunk))%nat ->
    transform bf_key (idx * bpc) chunk k = Ok (window block_size out k).
Proof.
  intros Hlen H. pose proof block_size_pos as Hpos.
  rewrite process_chunk_windows in H.
  apply bind_Ok_inv in H as (outs & Houts & H). injection H as <-.
  apply mapM_Ok_nth in Houts as [Hn Hnth]. rewrite length_seq in *.
  assert (Hk : forall k, (k < nwin block_size (length chunk))%nat ->
            transform bf_key (idx * bpc) chunk k = Ok (nth k outs [])).
  { intros k Hk. specialize (Hnth k 0%nat [] Hk).
    now rewrite seq_nth in Hnth by assumption. }
  assert (Hl : forall k, (k < nwin block_size (length chunk))%nat ->
            length (nth k outs []) = length (window block_size chunk k)).
  { intros k Hk'. eapply transform_length; eauto. }
  split.
  - transitivity
      (length (concat (map (window block_size chunk)
                           (seq 0 (nwin block_size (length chunk))))));
      [|now rewrite concat_all_windows].
    apply length_concat_same.
    + now rewrite length_map, length_seq.
    + intros k Hk'. rewrite Hn in Hk'.
      rewrite nth_map_seq by assumption. now apply Hl.
  - intros k Hk'. rewrite window_concat; auto; [|lia].
    intros j Hj. rewrite Hn in Hj. rewrite Hl by assumption. split.
    + rewrite length_window. lia.
    + rewrite Hn. now apply window_full.
Qed.

Lemma process_chunk_total bf_key bpc chunk idx :
  accepts Blowfish_decrypt bf_key ->
  exists out, process_chunk bf_key bpc chunk idx = Ok out.
Proof.
  intros Hacc. rewrite process_chunk_windows.
  destruct (mapM_total (transform bf_key (idx * bpc) chunk)
              (seq 0 (nwin block_size (length chunk)))) as [outs ->].
  - intros k _. now apply transform_total.
  - cbn [bind]. eauto.
Qed.

Lemma window_beyond (l : bytes) (k : nat) :
  (nwin block_size (length l) <= k)%nat -> window block_size l k = [].
Proof.
  intros H. pose proof block_size_pos as Hpos.
  assert (~ (k * block_size < length l)%nat) as Hk
    by (rewrite <- nwin_lt by assumption; lia).
  unfold window. rewrite skipn_all2 by lia. apply firstn_nil.
Qed.

End WithCipher.
End DecryptorFacts.

(** ** The stand-in cipher *)

Module MirrorFacts.
Import Decryptor.

Lemma mirror_keeps_length : keeps_length mirror_cipher.
Proof.
  intros key v data plain. unfold mirror_cipher.
  destruct (_ && _)%nat; [|discriminate].
  intros H; injection H as <-. apply length_rev.
Qed.

Lemma mirror_accepts_sample_key : accepts mirror_cipher sample_key.
Proof. intros data _. exists (rev data). reflexivity. Qed.

Lemma length_sample_stream len : length (sample_stream len) = len.
Proof. unfold sample_stream. now rewrite length_map, length_seq. Qed.

End MirrorFacts.

(** ** Claims about the chunk processor *)

Module DecryptorClaims.
Import Decryptor WindowFacts DecryptorFacts MirrorFacts.
Local Open Scope result_scope.

Lemma window_skipn {A} (n : nat) (l : list A) (j : nat) :
  window n (skipn n l) j = window n l (S j).
Proof.
  unfold window. rewrite skipn_skipn. f_equal. f_equal. simpl. lia.
Qed.

Lemma skipn_eq_of_windows {A} (n : nat) (l l' : list A) :
  (0 < n)%nat -> length l = length l' ->
  (forall k, (1 <= k)%nat -> window n l k = window n l' k) ->
  skipn n l = skipn n l'.
Proof.
  intros Hn Hlen Hw.
  rewrite <- (concat_all_windows n Hn (skipn n l)).
  rewrite <- (concat_all_windows n Hn (skipn n l')).
  rewrite !length_skipn, Hlen. f_equal.
  apply map_ext. intros j. rewrite !window_skipn. apply Hw. lia.
Qed.

(** C1. The processor decrypts exactly the windows that are full (2048
    bytes) and whose absolute block index, [chunk_index * (chunk_size /
    2048) + k], is divisible by 3; every other window, a final partial one
    included, comes out as it went in.  For a chunk of 5000 bytes with
    index 0, the first 2048 bytes of the output are the decryption of the
    first 2048 bytes of the input and the rest is the input's. *)
Theorem process_chunk_transforms_selected_blocks
    (Blowfish_decrypt : bytes -> bytes -> bytes -> result bytes)
    (bf_key : bytes) (chunk_size : Z) (proc : bytes -> Z -> result bytes)
    (chunk : bytes) (chunk_index : Z) :
  keeps_length Blowfish_decrypt -> accepts Blowfish_decrypt bf_key ->
  _create_blowfish_decryptor Blowfish_decrypt bf_key chunk_size = Ok proc ->
  exists out,
    proc chunk chunk_index = Ok out /\
    (forall k, (k * block_size < length chunk)%nat ->
       let w := window block_size chunk k in
       let block_index := chunk_index * (chunk_size / 2048) + Z.of_nat k in
       if (block_index mod 3 =? 0) && (length w =? block_size)%nat
       then Blowfish_decrypt bf_key iv w = Ok (window block_size out k)
       else window block_size out k = w) /\
    (Z.of_nat (length chunk) = 5000 -> chunk_index = 0 ->
       Blowfish_decrypt bf_key iv (firstn block_size chunk)
         = Ok (firstn block_size out) /\
       skipn block_size out = skipn block_size chunk).
Proof.
  intros Hlen Hacc Hcreate. pose proof block_size_pos as Hpos.
  apply create_Ok_inv in Hcreate as [_ ->].
  destruct (process_chunk_total Blowfish_decrypt bf_key
              (chunk_size / 2048) chunk chunk_index Hacc) as [out Hout].
  exists out. split; [exact Hout|].
  destruct (process_chunk_layout _ _ _ _ _ _ Hlen Hout) as [Hl Hw].
  assert (Hsel : forall k, (k * block_size < length chunk)%nat ->
     let w := window block_size chunk k in
     let block_index := chunk_index * (chunk_size / 2048) + Z.of_nat k in
     if (block_index mod 3 =? 0) && (length w =? block_size)%nat
     then Blowfish_decrypt bf_key iv w = Ok (window block_size out k)
     else window block_size out k = w).
  { intros k Hk. apply nwin_lt in Hk; [|assumption].
    specialize (Hw k Hk). unfold transform in Hw. cbv zeta in *.
    destruct (_ && _); [exact Hw | now injection Hw]. }
  split; [exact Hsel|].
  intros H5000 ->. fold block_size in *.
  assert (Hbs : block_size = 2048%nat) by reflexivity.
  assert (Hw0 : window block_size chunk 0 = firstn block_size chunk)
    by reflexivity.
  assert (Hfull : length (firstn block_size chunk) = block_size)
    by (rewrite length_firstn; lia).
  split.
  - specialize (Hsel 0%nat ltac:(lia)). cbv zeta in Hsel.
    rewrite Hw0, Hfull, Nat.eqb_refl in Hsel. exact Hsel.
  - apply skipn_eq_of_windows; [assumption | assumption |].
    intros k Hk.
    destruct (Nat.le_gt_cases 3 k) as [H3|H3].
    + rewrite !window_beyond; [reflexivity | |].
      * assert (~ (k < nwin block_size (length chunk))%nat); [|lia].
        rewrite nwin_lt by assumption. lia.
      * assert (~ (k < nwin block_size (length out))%nat); [|lia].
        rewrite nwin_lt by assumption. lia.
    + specialize (Hsel k ltac:(lia)). cbv zeta in Hsel.
      assert (k = 1 \/ k = 2)%nat as [-> | ->] by lia; exact Hsel.
Qed.

Lemma process_chunk_transforms_selected_blocks_witness :
  exists out,
    process_chunk mirror_cipher sample_key (2048 / 2048)
                  (sample_stream 5000) 0 = Ok out /\
    skipn block_size out = skipn block_size (sample_stream 5000).
Proof.
  destruct (process_chunk_transforms_selected_blocks
              mirror_cipher sample_key 2048
              (process_chunk mirror_cipher sample_key (2048 / 2048))
              (sample_stream 5000) 0
              mirror_keeps_length mirror_accepts_sample_key eq_refl)
    as (out & Hout & _ & H5000).
  exists out. split; [exact Hout|].
  apply H5000; [vm_compute; reflexivity | reflexivity].
Defined.

(** The processor run on the sample stream: block 0 is mirrored, blocks 1
    and the partial block 2 are not. *)
Example process_chunk_sample_5000 :
  process_chunk mirror_cipher sample_key 1 (sample_stream 5000) 0 =
  Ok (rev (firstn 2048 (sample_stream 5000))
      ++ skipn 2048 (sample_stream 5000)).
Proof. vm_compute. reflexivity. Qed.

(** A partial block at an index divisible by 3 (block 3, of 100 bytes) is
    left as it is. *)
Example process_chunk_sample_partial_block_3 :
  let s := sample_stream (3 * 2048 + 100) in
  process_chunk mirror_cipher sample_key 1 s 0 =
  Ok (rev (firstn 2048 s) ++ skipn 2048 s).
Proof. vm_compute. reflexivity. Qed.

(** Block 3 (the second chunk's second block, with chunks of two blocks)
    is mirrored, block 2 is not. *)
Example process_chunk_sample_second_chunk :
  process_chunk mirror_cipher sample_key 2 (sample_stream 4096) 1 =
  Ok (firstn 2048 (sample_stream 4096)
      ++ rev (skipn 2048 (sample_stream 4096))).
Proof. vm_compute. reflexivity. Qed.

(** C2. With a chunk size that is a positive multiple of 2048, the chunks
    of a stream processed one after the other with the indices 0, 1, 2,
    ... give, concatenated, what the whole stream gives as one chunk of
    index 0 (whatever chunk size that processor was made for): the same
    bytes, or the same exception. *)
Theorem chunk_boundary_independent
    (Blowfish_decrypt : bytes -> bytes -> bytes -> result bytes)
    (bf_key : bytes) (chunk_size chunk_size1 : Z)
    (proc proc1 : bytes -> Z -> result bytes) (stream : bytes) :
  0 < chunk_size ->
  _create_blowfish_decryptor Blowfish_decrypt bf_key chunk_size = Ok proc ->
  _create_blowfish_decryptor Blowfish_decrypt bf_key chunk_size1
    = Ok proc1 ->
  process_stream proc (split_stream (Z.to_nat chunk_size) stream) 0
  = proc1 stream 0.
Proof.
  intros Hpos Hc Hc1.
  apply create_Ok_inv in Hc as [Hmod ->].
  apply create_Ok_inv in Hc1 as [_ ->].
  assert (Hcs : chunk_size = 2048 * (chunk_size / 2048))
    by (apply Z.div_exact; [lia | exact Hmod]).
  set (m := Z.to_nat (chunk_size / 2048)).
  assert (Hm : chunk_size / 2048 = Z.of_nat m) by (unfold m; lia).
  assert (Hn : Z.to_nat chunk_size = (m * block_size)%nat).
  { rewrite Hcs at 1. rewrite Hm, <- block_size_Z. lia. }
  rewrite Hn, Hm.
  rewrite process_stream_concat.
  - rewrite concat_split_stream; [reflexivity|].
    pose proof block_size_pos. nia.
  - apply blocks_shape_split. pose proof block_size_pos. nia.
Qed.

Lemma chunk_boundary_independent_witness :
  process_stream (process_chunk mirror_cipher sample_key (2048 / 2048))
                 (split_stream (Z.to_nat 2048) (sample_stream 4500)) 0
  = process_chunk mirror_cipher sample_key (1048576 / 2048)
                  (sample_stream 4500) 0.
Proof.
  apply (chunk_boundary_independent mirror_cipher sample_key 2048 1048576);
    [lia | reflexivity | reflexivity].
Defined.

(** C8. The output of the processor is as long as the chunk, and its
    [k]-th window of 2048 bytes is the image of the [k]-th window of the
    chunk: that window itself or its decryption, of the same length. *)
Theorem process_chunk_preserves_length_and_order
    (Blowfish_decrypt : bytes -> bytes -> bytes -> result bytes)
    (bf_key : bytes) (chunk_size : Z) (proc : bytes -> Z -> result bytes)
    (chunk : bytes) (chunk_index : Z) :
  keeps_length Blowfish_decrypt -> accepts Blowfish_decrypt bf_key ->
  _create_blowfish_decryptor Blowfish_decrypt bf_key chunk_size = Ok proc ->
  exists out,
    proc chunk chunk_index = Ok out /\
    length out = length chunk /\
    forall k,
      length (window block_size out k) = length (window block_size chunk k)
      /\ (window block_size out k = window block_size chunk k \/
          Blowfish_decrypt bf_key iv (window block_size chunk k)
            = Ok (window block_size out k)).
Proof.
  intros Hlen Hacc Hcreate. pose proof block_size_pos as Hpos.
  apply create_Ok_inv in Hcreate as [_ ->].
  destruct (process_chunk_total Blowfish_decrypt bf_key
              (chunk_size / 2048) chunk chunk_index Hacc) as [out Hout].
  exists out. split; [exact Hout|].
  destruct (process_chunk_layout _ _ _ _ _ _ Hlen Hout) as [Hl Hw].
  split; [exact Hl|]. intros k.
  destruct (Nat.lt_ge_cases k (nwin block_size (length chunk))) as [Hk|Hk].
  - specialize (Hw k Hk). split.
    + eapply transform_length; eassumption.
    + unfold transform in Hw. cbv zeta in Hw.
      destruct (_ && _); [now right | left; now injection Hw].
  - rewrite !window_beyond by (rewrite ?Hl; exact Hk). now split; [|left].
Qed.

Lemma process_chunk_preserves_length_and_order_witness :
  exists out,
    process_chunk mirror_cipher sample_key (4096 / 2048)
                  (sample_stream 4500) 1 = Ok out /\
    length out = 4500%nat.
Proof.
  destruct (process_chunk_preserves_length_and_order
              mirror_cipher sample_key 4096
              (process_chunk mirror_cipher sample_key (4096 / 2048))
              (sample_stream 4500) 1
              mirror_keeps_length mirror_accepts_sample_key eq_refl)
    as (out & Hout & Hl & _).
  exists out. split; [exact Hout|].
  rewrite Hl. apply length_sample_stream.
Defined.

(** C4 as the code has it.  The check is the first thing
    [_create_blowfish_decryptor] does, it touches nothing but its
    arguments, and it refuses exactly the chunk sizes that are not
    multiples of 2048: 2047 and 4095 are refused; 2048 and 1048576 are
    accepted, and so are 0 and the negative multiples. *)
Theorem create_rejects_non_multiples
    (Blowfish_decrypt : bytes -> bytes -> bytes -> result bytes)
    (bf_key : bytes) :
  (forall chunk_size,
     _create_blowfish_decryptor Blowfish_decrypt bf_key chunk_size
     = Err (ValueError "chunk_size must be a multiple of 2048")
     <-> chunk_size mod 2048 <> 0) /\
  (forall chunk_size, chunk_size mod 2048 = 0 ->
     _create_blowfish_decryptor Blowfish_decrypt bf_key chunk_size
     = Ok (process_chunk Blowfish_decrypt bf_key (chunk_size / 2048))) /\
  (exists e, _create_blowfish_decryptor Blowfish_decrypt bf_key 2047
             = Err e) /\
  (exists e, _create_blowfish_decryptor Blowfish_decrypt bf_key 4095
             = Err e) /\
  (exists p, _create_blowfish_decryptor Blowfish_decrypt bf_key 2048
             = Ok p) /\
  (exists p, _create_blowfish_decryptor Blowfish_decrypt bf_key
               default_chunk_size = Ok p) /\
  (exists p, _create_blowfish_decryptor Blowfish_decrypt bf_key 0
             = Ok p) /\
  (exists p, _create_blowfish_decryptor Blowfish_decrypt bf_key (-2048)
             = Ok p).
Proof.
  split; [|split].
  - intros chunk_size. unfold _create_blowfish_decryptor.
    rewrite block_size_Z.
    destruct (Z.eqb_spec (chunk_size mod 2048) 0) as [E|E]; cbn [negb].
    + split; [intros H; discriminate | intros H; contradiction].
    + split; [intros _; exact E | intros _; reflexivity].
  - intros chunk_size E. unfold _create_blowfish_decryptor.
    rewrite block_size_Z, E. reflexivity.
  - repeat split; eexists; reflexivity.
Qed.

Lemma create_rejects_non_multiples_witness :
  _create_blowfish_decryptor mirror_cipher sample_key default_chunk_size
  = Ok (process_chunk mirror_cipher sample_key (default_chunk_size / 2048)).
Proof.
  apply (create_rejects_non_multiples mirror_cipher sample_key).
  reflexivity.
Defined.

(** The claim as the specification words it fails at [chunk_size = 0]:
    0 is not a positive multiple of 2048, and it is accepted. *)
Lemma create_accepts_zero :
  ~ ((exists e, _create_blowfish_decryptor mirror_cipher sample_key 0
                = Err e)
     <-> ~ (0 < 0 /\ 0 mod 2048 = 0)).
Proof.
  intros [_ H]. destruct H as [e He]; [lia | discriminate He].
Qed.

End DecryptorClaims.

(** ** Key derivation *)

Module KeyFacts.
Import Api.

(** The digests of RFC 1321, and of a track identifier. *)
Example md5_empty :
  MD5.hexdigest [] = "d41d8cd98f00b204e9800998ecf8427e"%string.
Proof. vm_compute. reflexivity. Qed.

Example md5_abc :
  MD5.hexdigest (Codec.encode_utf8 "abc")
  = "900150983cd24fb0d6963f7d28e17f72"%string.
Proof. vm_compute. reflexivity. Qed.

Example md5_two_blocks :
  MD5.hexdigest
    (Codec.encode_utf8
       ("1234567890123456789012345678901234567890"
        ++ "1234567890123456789012345678901234567890"))
  = "57edf4a22be3c955ac49da2e2107b67a"%string.
Proof. vm_compute. reflexivity. Qed.

Example md5_track_id :
  MD5.hexdigest (Codec.encode_utf8 "3135556")
  = "29a15fc70fb278009ab6988ce9a422e8"%string.
Proof. vm_compute. reflexivity. Qed.

Lemma length_digest (msg : bytes) : length (MD5.digest msg) = 16%nat.
Proof.
  unfold MD5.digest. cbv zeta.
  destruct (fold_left MD5.compress _ MD5.init) as [[[a b] c] d].
  unfold MD5.bytes_of_word.
  now rewrite !length_app, !length_map, !length_seq.
Qed.

Lemma hex_of_byte_is_hex (b : byte) :
  forallb MD5.is_hex (MD5.hex_of_byte b) = true.
Proof. destruct b; reflexivity. Qed.

Lemma is_hex_In (c : ascii) : MD5.is_hex c = true -> In c MD5.hex_digits.
Proof.
  unfold MD5.is_hex. rewrite existsb_exists. intros (x & Hx & E).
  apply Ascii.eqb_eq in E. now subst.
Qed.

Lemma is_hex_ascii (c : ascii) :
  MD5.is_hex c = true -> (N_of_ascii c <? 128)%N = true.
Proof.
  intros H. apply is_hex_In in H. unfold MD5.hex_digits in H. simpl in H.
  repeat (destruct H as [<- | H]; [reflexivity|]). contradiction.
Qed.

Lemma hexdigest_chars (msg : bytes) :
  length (list_ascii_of_string (MD5.hexdigest msg)) = 32%nat /\
  Forall (fun c => MD5.is_hex c = true)
         (list_ascii_of_string (MD5.hexdigest msg)).
Proof.
  unfold MD5.hexdigest. rewrite list_ascii_of_string_of_list_ascii. split.
  - rewrite (flat_map_constant_length (c := 2)) by reflexivity.
    now rewrite length_digest.
  - apply Forall_flat_map, Forall_forall. intros b _.
    apply Forall_forall. apply forallb_forall. apply hex_of_byte_is_hex.
Qed.

Lemma encode_ascii_Ok (l : list ascii) :
  Forall (fun c => (N_of_ascii c <? 128)%N = true) l ->
  mapM (fun c => if (N_of_ascii c <? 128)%N then Ok (byte_of_ascii c)
                 else Err UnicodeEncodeError) l
  = Ok (map byte_of_ascii l).
Proof.
  induction 1 as [|c l Hc _ IH]; [reflexivity|].
  cbn [mapM map]. rewrite Hc, IH. reflexivity.
Qed.

Lemma index_Ok (b : bytes) (i : nat) :
  (i < length b)%nat ->
  Codec.index b i = Ok (Z.of_N (Byte.to_N (nth i b x00))).
Proof.
  intros H. unfold Codec.index.
  now rewrite (nth_error_nth' b x00 H).
Qed.

Lemma byte_range (b : byte) : 0 <= Z.of_N (Byte.to_N b) < 256.
Proof. pose proof (Byte.to_N_bounded b). lia. Qed.

Lemma lxor_range (a b : Z) :
  0 <= a < 256 -> 0 <= b < 256 -> 0 <= Z.lxor a b < 256.
Proof.
  intros Ha Hb.
  assert (Hnn : 0 <= Z.lxor a b) by (apply Z.lxor_nonneg; lia).
  split; [exact Hnn|].
  destruct (Z.eq_dec (Z.lxor a b) 0) as [->|Hne]; [lia|].
  change 256 with (2 ^ 8). apply Z.log2_lt_pow2; [lia|].
  pose proof (Z.log2_lxor a b ltac:(lia) ltac:(lia)) as Hl.
  assert (Hla : Z.log2 a < 8).
  { destruct (Z.eq_dec a 0) as [->|]; [simpl; lia|].
    apply Z.log2_lt_pow2; [lia|]. change (2 ^ 8) with 256. lia. }
  assert (Hlb : Z.log2 b < 8).
  { destruct (Z.eq_dec b 0) as [->|]; [simpl; lia|].
    apply Z.log2_lt_pow2; [lia|]. change (2 ^ 8) with 256. lia. }
  lia.
Qed.

Lemma bytes_of_ints_Ok (ints : list Z) :
  Forall (fun z => 0 <= z < 256) ints ->
  exists key,
    Codec.bytes_of_ints ints = Ok key /\
    map (fun b => Z.of_N (Byte.to_N b)) key = ints.
Proof.
  unfold Codec.bytes_of_ints.
  induction 1 as [|z ints Hz _ (key & IH & Hkey)].
  - exists []. now split.
  - cbn [mapM].
    replace ((0 <=? z) && (z <? 256)) with true
      by (symmetry; apply andb_true_iff; split; lia).
    destruct (Byte.of_N (Z.to_N z)) as [b|] eqn:E.
    + exists (b :: key). rewrite IH. cbn [bind map]. split; [reflexivity|].
      apply Byte.to_of_N in E. rewrite E, Hkey. f_equal. lia.
    + apply Byte.of_N_None_iff in E. lia.
Qed.

Lemma mapM_Ok_map {A B} (g : A -> B) (l : list A) :
  mapM (fun x => Ok (g x)) l = Ok (map g l).
Proof.
  induction l as [|x l IH]; [reflexivity|].
  cbn [mapM map bind]. now rewrite IH.
Qed.

(** C3. [get_blowfish_key] takes the lowercase hexadecimal MD5 digest of
    the encoded identifier, 32 ASCII bytes, and returns the 16 bytes
    [digest[i] ^ digest[i + 16] ^ bf_secret[i]].  It reads nothing of the
    client but [bf_secret], so the same identifier gives the same key. *)
Theorem get_blowfish_key_derivation (self : client) (track_id : string) :
  (16 <= length (bf_secret self))%nat ->
  let digest :=
    map byte_of_ascii
        (list_ascii_of_string
           (MD5.hexdigest (Codec.encode_utf8 track_id))) in
  let int_at (b : bytes) (i : nat) := Z.of_N (Byte.to_N (nth i b x00)) in
  length digest = 32%nat /\
  Forall (fun b => In (ascii_of_byte b) MD5.hex_digits) digest /\
  exists key,
    get_blowfish_key self track_id = Ok key /\
    length key = 16%nat /\
    (forall i, (i < 16)%nat ->
       int_at key i =
       Z.lxor (Z.lxor (int_at digest i) (int_at digest (i + 16)%nat))
              (int_at (bf_secret self) i)) /\
    (forall self', bf_secret self' = bf_secret self ->
       get_blowfish_key self' track_id = Ok key).
Proof.
  intros Hsecret digest int_at.
  destruct (hexdigest_chars (Codec.encode_utf8 track_id)) as [H32 Hhex].
  assert (Hlen : length digest = 32%nat)
    by (unfold digest; now rewrite length_map).
  split; [exact Hlen|]. split.
  { unfold digest. apply Forall_map.
    eapply Forall_impl; [|exact Hhex]. intros c Hc.
    rewrite ascii_of_byte_of_ascii. now apply is_hex_In. }
  assert (Henc : Codec.encode_ascii
                   (MD5.hexdigest (Codec.encode_utf8 track_id))
                 = Ok digest).
  { apply encode_ascii_Ok. eapply Forall_impl; [|exact Hhex].
    intros c. apply is_hex_ascii. }
  set (g := fun (secret : bytes) (i : nat) =>
              Z.lxor (Z.lxor (int_at digest i)
                             (int_at digest (i + 16)%nat))
                     (int_at secret i)).
  assert (Hkey : forall self0, bf_secret self0 = bf_secret self ->
            get_blowfish_key self0 track_id
            = Codec.bytes_of_ints (map (g (bf_secret self)) (seq 0 16))).
  { intros self0 E. unfold get_blowfish_key. rewrite Henc. cbn [bind].
    rewrite (mapM_ext _ (fun i => Ok (g (bf_secret self) i))).
    - now rewrite mapM_Ok_map.
    - intros i Hi. apply in_seq in Hi.
      rewrite !index_Ok by (rewrite ?E; lia). rewrite E. reflexivity. }
  destruct (bytes_of_ints_Ok (map (g (bf_secret self)) (seq 0 16)))
    as (key & Hk & Hmap).
  { apply Forall_map, Forall_forall. intros i _. unfold g, int_at.
    apply lxor_range; [apply lxor_range|]; apply byte_range. }
  exists key. split; [now rewrite Hkey|].
  assert (Hl : length key = 16%nat).
  { apply (f_equal (@length Z)) in Hmap.
    now rewrite !length_map, length_seq in Hmap. }
  split; [exact Hl|]. split.
  - intros i Hi. unfold int_at at 1.
    change (Z.of_N (Byte.to_N (nth i key x00)))
      with ((fun b => Z.of_N (Byte.to_N b)) (nth i key x00)).
    rewrite <- map_nth, Hmap.
    rewrite (nth_indep _ _ (g (bf_secret self) 0%nat))
      by (now rewrite length_map, length_seq).
    rewrite map_nth, seq_nth by assumption. reflexivity.
  - intros self' E. now rewrite (Hkey self' E).
Qed.

Lemma get_blowfish_key_derivation_witness :
  exists key,
    get_blowfish_key sample_client "3135556" = Ok key /\
    length key = 16%nat.
Proof.
  destruct (get_blowfish_key_derivation sample_client "3135556")
    as (_ & _ & key & Hkey & Hlen & _).
  - cbn. apply Nat.le_refl.
  - exists key. split; [exact Hkey | exact Hlen].
Defined.

(** The key of a track, as [hashlib] and [^] give it. *)
Example get_blowfish_key_sample :
  get_blowfish_key sample_client "3135556"
  = Ok [x3b; x69; x31; x34; x38; x6b; x6d; x63;
        x6d; x66; x62; x64; x66; x6e; x30; x6e].
Proof. vm_compute. reflexivity. Qed.

Example init_sample :
  __init__ "app" "secret" "0123456789abcdef" "" = Ok sample_client.
Proof. vm_compute. reflexivity. Qed.

End KeyFacts.

(** ** The client: what a computation leaves alone *)

Module Frame.
Import Api.
Local Open Scope M_scope.

Section Relation.
Variable R : world -> world -> Prop.
Hypothesis R_refl : forall w, R w w.
Hypothesis R_trans : forall w1 w2 w3, R w1 w2 -> R w2 w3 -> R w1 w3.

Lemma keeps_ret {A} (a : A) : keeps R (ret a).
Proof. intros w. apply R_refl. Qed.

Lemma keeps_raise {A} (e : exn) : keeps R (@raise A e).
Proof. intros w. apply R_refl. Qed.

Lemma keeps_lift {A} (r : result A) : keeps R (lift r).
Proof. intros w. apply R_refl. Qed.

Lemma keeps_read : keeps R read.
Proof. intros w. apply R_refl. Qed.

Lemma keeps_bind {A B} (m : M A) (k : A -> M B) :
  keeps R m -> (forall a, keeps R (k a)) -> keeps R (bindM m k).
Proof.
  intros Hm Hk w. unfold bindM. specialize (Hm w).
  destruct (m w) as [[a|e] w1]; simpl in *; [|exact Hm].
  eapply R_trans; [exact Hm | apply Hk].
Qed.

Lemma keeps_for_each {A} (l : list A) (body : A -> M unit) :
  (forall x, keeps R (body x)) -> keeps R (for_each l body).
Proof.
  intros H. induction l as [|x l IH]; cbn [for_each].
  - apply keeps_ret.
  - apply keeps_bind; [apply H | intros _; exact IH].
Qed.

End Relation.

Lemma same_sent_refl w : same_sent w w.
Proof. reflexivity. Qed.

Lemma same_sent_trans w1 w2 w3 :
  same_sent w1 w2 -> same_sent w2 w3 -> same_sent w1 w3.
Proof. unfold same_sent. congruence. Qed.

Lemma same_session_refl w : same_session w w.
Proof. repeat split. Qed.

Lemma same_session_trans w1 w2 w3 :
  same_session w1 w2 -> same_session w2 w3 -> same_session w1 w3.
Proof.
  unfold same_session.
  intros (?&?&?&?&?&?) (?&?&?&?&?&?). repeat split; congruence.
Qed.

Lemma more_gw_refl w : more_gw w w.
Proof. exists []. now rewrite app_nil_r. Qed.

Lemma more_gw_trans w1 w2 w3 :
  more_gw w1 w2 -> more_gw w2 w3 -> more_gw w1 w3.
Proof.
  intros (n1 & E1 & F1) (n2 & E2 & F2). exists (n1 ++ n2)%list.
  rewrite E2, E1, app_assoc, forallb_app, F1, F2. now split.
Qed.

End Frame.

(** ** The client: the gateway call *)

Module ApiFacts.
Import Api Frame.
Local Open Scope M_scope.
Local Open Scope string_scope.

Section Env.
Variable network : list request -> outcome.
Variable clock : nat -> Q.
Variable random : nat -> Z.

Local Abbreviation time := (time clock).
Local Abbreviation randint := (randint random).
Local Abbreviation post := (post network).
Local Abbreviation update_session := (update_session clock).
Local Abbreviation gw_request := (gw_request network clock random).
Local Abbreviation _gw_api_call := (_gw_api_call network clock random).
Local Abbreviation gw_post_of := (gw_post_of random).

(** *** The primitives *)

Lemma time_same_sent : keeps same_sent time.
Proof. intros w. reflexivity. Qed.

Lemma time_same_session : keeps same_session time.
Proof. intros w. repeat split. Qed.

Lemma time_more_gw : keeps more_gw time.
Proof. intros w. exists []. simpl. now rewrite app_nil_r. Qed.

Lemma randint_same_session : keeps same_session randint.
Proof. intros w. repeat split. Qed.

Lemma randint_more_gw : keeps more_gw randint.
Proof. intros w. exists []. simpl. now rewrite app_nil_r. Qed.

Lemma assign_same_sent f : keeps same_sent (assign f).
Proof. intros w. reflexivity. Qed.

Lemma assign_more_gw f : keeps more_gw (assign f).
Proof. intros w. exists []. simpl. now rewrite app_nil_r. Qed.

Lemma post_same_session req : keeps same_session (post req).
Proof.
  intros w. unfold Api.post. destruct (network _); repeat split.
Qed.

Lemma post_more_gw method token cid payload :
  keeps more_gw (post (GwPost method token cid payload)).
Proof.
  intros w. unfold Api.post.
  exists [GwPost method token cid payload (cookie_jar (self w))].
  destruct (network _); now split.
Qed.

(** *** [update_session] sends nothing *)

Lemma update_session_same_sent data :
  keeps same_sent (update_session data).
Proof.
  unfold Api.update_session.
  repeat first
    [ apply (keeps_bind _ same_sent_trans); [|intros ?]
    | apply (keeps_for_each _ same_sent_refl same_sent_trans); intros ?
    | apply (keeps_lift _ same_sent_refl)
    | apply (keeps_ret _ same_sent_refl)
    | apply (keeps_read _ same_sent_refl)
    | apply assign_same_sent
    | apply time_same_sent
    | match goal with |- keeps _ (if ?c then _ else _) => destruct c end ].
Qed.

Lemma update_session_more_gw data : keeps more_gw (update_session data).
Proof.
  intros w. exists []. rewrite app_nil_r.
  split; [apply update_session_same_sent | reflexivity].
Qed.

(** *** [gw_request] *)

Ltac keeps_step R_refl R_trans :=
  first
    [ apply (keeps_bind _ R_trans); [|intros ?]
    | apply (keeps_lift _ R_refl)
    | apply (keeps_ret _ R_refl)
    | apply (keeps_raise _ R_refl)
    | apply (keeps_read _ R_refl) ].

Lemma gw_request_more_gw method payload :
  keeps more_gw (gw_request method payload).
Proof.
  unfold Api.gw_request.
  repeat first
    [ keeps_step more_gw_refl more_gw_trans
    | apply randint_more_gw
    | apply post_more_gw
    | apply update_session_more_gw
    | match goal with
      | |- keeps _ (if ?c then _ else _) => destruct c
      | |- keeps _ (match ?e with _ => _ end) => destruct e
      end ].
Qed.

Lemma gw_request_same_session method payload :
  method <> "deezer.getUserData" ->
  keeps same_session (gw_request method payload).
Proof.
  intros Hm. apply String.eqb_neq in Hm.
  unfold Api.gw_request. rewrite Hm.
  repeat first
    [ keeps_step same_session_refl same_session_trans
    | apply randint_same_session
    | apply post_same_session
    | match goal with
      | |- keeps _ (if ?c then _ else _) => destruct c
      | |- keeps _ (match ?e with _ => _ end) => destruct e
      end ].
Qed.

(** *** [_gw_api_call] *)

Lemma gw_call_unfold depth method payload w :
  _gw_api_call (S depth) method payload w =
  if relogin_due method w then
    match _gw_api_call depth "deezer.getUserData" None w with
    | (Ok _, w1) => gw_request method (default_payload payload) w1
    | (Err e, w1) => (Err e, w1)
    end
  else gw_request method (default_payload payload) w.
Proof.
  cbn [Api._gw_api_call]. unfold bindM at 1. cbn [read fst snd].
  unfold bindM at 1. fold (relogin_due method w).
  destruct (relogin_due method w).
  - unfold bindM at 1.
    destruct (_gw_api_call depth "deezer.getUserData" None w)
      as [[v|e] w1]; reflexivity.
  - reflexivity.
Qed.

Lemma relogin_due_auth w : relogin_due "deezer.getUserData" w = false.
Proof. unfold relogin_due. cbn. now rewrite !andb_false_r. Qed.

(** The bootstrap call never calls itself. *)
Lemma gw_call_bootstrap depth payload w :
  _gw_api_call (S depth) "deezer.getUserData" payload w =
  gw_request "deezer.getUserData" (default_payload payload) w.
Proof. now rewrite gw_call_unfold, relogin_due_auth. Qed.

Lemma gw_call_more_gw depth method payload :
  keeps more_gw (_gw_api_call depth method payload).
Proof.
  revert method payload; induction depth as [|depth IH];
    intros method payload w.
  - apply more_gw_refl.
  - rewrite gw_call_unfold. destruct (relogin_due method w).
    + specialize (IH "deezer.getUserData" None w).
      destruct (_gw_api_call depth "deezer.getUserData" None w)
        as [[v|e] w1]; simpl in IH; [|exact IH].
      eapply more_gw_trans; [exact IH | apply gw_request_more_gw].
    + apply gw_request_more_gw.
Qed.

(** *** Running a call *)

Lemma bind_lift {A B} (r : result A) (k : A -> M B) w :
  bindM (lift r) k w =
  match r with Ok a => k a w | Err e => (Err e, w) end.
Proof. unfold bindM, lift. destruct r; reflexivity. Qed.

Lemma bind_lift_Ok {A B} (r : result A) (a : A) (k : A -> M B) w :
  r = Ok a -> bindM (lift r) k w = k a w.
Proof. intros ->. reflexivity. Qed.

Lemma gw_request_run method payload w :
  gw_request method payload w =
  let w1 := log (gw_post_of method payload w) (roll w) in
  match network (sent w1) with
  | Reply body set_cookies =>
      let w2 := receive set_cookies w1 in
      match get body "error" with
      | Err e => (Err e, w2)
      | Ok error =>
          if truthy error then
            (match error with
             | JObj ((error_type, error_msg) :: _) =>
                 Err (ModuleAPIError 400 error_type error_msg method
                                     "deezer")
             | JObj [] => Err IndexError
             | _ => Err AttributeError
             end, w2)
          else if method =? "deezer.getUserData" then
            match update_session body w2 with
            | (Ok _, w3) => (getitem body "results", w3)
            | (Err e, w3) => (Err e, w3)
            end
          else (getitem body "results", w2)
      end
  | Unreachable => (Err ClientError, w1)
  | Malformed => (Err DecodeError, w1)
  end.
Proof.
  unfold Api.gw_request, Api.gw_post_of, bindM, read, Api.randint,
    Api.post, lift, raise, ret.
  cbn [fst snd self cookie_jar roll log sent].
  destruct (network _) as [body ck| |]; try reflexivity.
  destruct (get body "error") as [error|e]; [|reflexivity].
  destruct (truthy error).
  - destruct error as [| | | | |[|[k v] fs]]; reflexivity.
  - destruct (method =? "deezer.getUserData"); [|reflexivity].
    destruct (Api.update_session clock body _) as [[u|e] w3];
      reflexivity.
Qed.

(** A call of another method than the bootstrap: one request, the
    answer read in the response, the client untouched but for the
    cookies. *)
Lemma gw_request_other method payload w :
  method <> "deezer.getUserData" ->
  gw_request method payload w =
  let w1 := log (gw_post_of method payload w) (roll w) in
  match network (sent w1) with
  | Reply body set_cookies =>
      (gw_answer method body, receive set_cookies w1)
  | Unreachable => (Err ClientError, w1)
  | Malformed => (Err DecodeError, w1)
  end.
Proof.
  intros Hm. apply String.eqb_neq in Hm.
  rewrite gw_request_run. cbv zeta. rewrite Hm.
  destruct (network _) as [body ck| |]; try reflexivity.
  unfold gw_answer.
  destruct (get body "error") as [error|e]; [|reflexivity].
  cbn [bind]. destruct (truthy error); [|reflexivity].
  destruct error as [| | | | |[|[k v] fs]]; reflexivity.
Qed.

Lemma gw_request_sent method payload w :
  sent (snd (gw_request method payload w)) =
  (sent w ++ [gw_post_of method payload w])%list.
Proof.
  rewrite gw_request_run. cbv zeta.
  destruct (network _) as [body ck| |]; try reflexivity.
  destruct (get body "error") as [error|e]; [|reflexivity].
  destruct (truthy error); [reflexivity|].
  destruct (method =? "deezer.getUserData"); [|reflexivity].
  pose proof (update_session_same_sent body
                (receive ck (log (gw_post_of method payload w) (roll w))))
    as Hs.
  destruct (Api.update_session clock body _) as [[u|e] w3];
    exact Hs.
Qed.

(** [update_session] on a result that has all the fields. *)
Lemma update_session_run data results token ctry lic lang hq lossless w :
  getitem data "results" = Ok results ->
  session_fields results = Ok (token, ctry, lic, lang, hq, lossless) ->
  update_session data w =
  (Ok tt,
   with_self (refreshed token ctry lic lang (Float.round64 (clock (ticks w)))
                        (formats_of hq lossless))
             (tick w)).
Proof.
  intros Hres Hf. unfold session_fields in Hf.
  apply bind_Ok_inv in Hf as (token' & Htoken & Hf).
  apply bind_Ok_inv in Hf as (ctry' & Hctry & Hf).
  apply bind_Ok_inv in Hf as (lic' & Hlic & Hf).
  apply bind_Ok_inv in Hf as (lang' & Hlang & Hf).
  apply bind_Ok_inv in Hf as (hq' & Hhq & Hf).
  apply bind_Ok_inv in Hf as (ll' & Hll & Hf).
  injection Hf as <- <- <- <- <- <-.
  unfold Api.update_session.
  rewrite (bind_lift_Ok _ _ _ _ Hres).
  rewrite (bind_lift_Ok _ _ _ _ Htoken).
  unfold bindM at 1. cbn [assign fst snd].
  rewrite (bind_lift_Ok _ _ _ _ Hctry).
  unfold bindM at 1. cbn [assign fst snd].
  rewrite (bind_lift_Ok _ _ _ _ Hlic).
  unfold bindM at 1. cbn [assign fst snd].
  unfold bindM at 1. cbn [Api.time fst snd].
  unfold bindM at 1. cbn [assign fst snd].
  rewrite (bind_lift_Ok _ _ _ _ Hlang).
  unfold bindM at 1. cbn [assign fst snd].
  unfold bindM at 1. cbn [assign fst snd].
  cbn [for_each format_map fst snd].
  unfold bindM at 1. rewrite (bind_lift_Ok _ _ _ _ Hhq).
  unfold formats_of.
  destruct (truthy hq'); cbn [bindM read assign ret fst snd];
    unfold bindM at 1; rewrite (bind_lift_Ok _ _ _ _ Hll);
    destruct (truthy ll'); reflexivity.
Qed.

(** *** The exceptions of a call *)

Lemma fails_only_bind {A B} (P : exn -> Prop) (r : result A)
    (k : A -> result B) :
  fails_only P r -> (forall a, fails_only P (k a)) ->
  fails_only P (bind r k).
Proof.
  intros Hr Hk e. destruct r as [a|e']; simpl.
  - apply Hk.
  - intros H; injection H as <-. now apply Hr.
Qed.

Lemma getitem_fails v k : fails_only lookup_error (getitem v k).
Proof.
  intros e. destruct v; simpl; try (intros H; injection H as <-; exact I).
  destruct (lookup k fields); [discriminate|].
  intros H; injection H as <-; exact I.
Qed.

Lemma get_fails v k : fails_only lookup_error (get v k).
Proof.
  intros e. destruct v; simpl; try (intros H; injection H as <-; exact I).
  destruct (lookup k fields); discriminate.
Qed.

Lemma getitem0_fails v : fails_only lookup_error (getitem0 v).
Proof.
  intros e. destruct v as [| | |[|c s]|[|x l]|]; simpl;
    try discriminate; intros H; injection H as <-; exact I.
Qed.

Lemma raises_only_bind {A B} (P : exn -> Prop) (m : M A) (k : A -> M B) :
  raises_only P m -> (forall a, raises_only P (k a)) ->
  raises_only P (bindM m k).
Proof.
  intros Hm Hk w e. unfold bindM. specialize (Hm w).
  destruct (m w) as [[a|e'] w1]; simpl in *.
  - apply Hk.
  - intros H; injection H as <-. now apply Hm.
Qed.

Lemma raises_only_lift {A} (P : exn -> Prop) (r : result A) :
  fails_only P r -> raises_only P (lift r).
Proof. intros H w e. apply H. Qed.

Lemma raises_only_total {A} (P : exn -> Prop) (m : M A) :
  (forall w, exists a, fst (m w) = Ok a) -> raises_only P m.
Proof. intros H w e E. destruct (H w) as [a Ha]. congruence. Qed.

Lemma raises_only_for_each {A} (P : exn -> Prop) (l : list A)
    (body : A -> M unit) :
  (forall x, raises_only P (body x)) -> raises_only P (for_each l body).
Proof.
  intros H. induction l as [|x l IH]; cbn [for_each].
  - intros w e. discriminate.
  - apply raises_only_bind; [apply H | intros _; exact IH].
Qed.

Lemma lookup_is_gateway_error e : lookup_error e -> gateway_error e.
Proof. destruct e; simpl; auto. Qed.

Lemma fails_only_weaken {A} (P Q : exn -> Prop) (r : result A) :
  (forall e, P e -> Q e) -> fails_only P r -> fails_only Q r.
Proof. intros HPQ H e E. apply HPQ, H, E. Qed.

Ltac lookup_fails :=
  repeat first
    [ apply getitem_fails | apply get_fails | apply getitem0_fails
    | apply fails_only_bind; [|intros ?] ].

Ltac raises_step P :=
  first
    [ apply (raises_only_bind P); [|intros ?]
    | apply (raises_only_for_each P); intros ?
    | apply (raises_only_total P); intros ?; eexists; reflexivity
    | apply (raises_only_lift P);
      apply (fails_only_weaken lookup_error P);
      [exact lookup_is_gateway_error | lookup_fails]
    | match goal with
      | |- raises_only _ (if ?c then _ else _) => destruct c
      end ].

Lemma update_session_raises data :
  raises_only gateway_error (update_session data).
Proof.
  unfold Api.update_session. repeat raises_step gateway_error.
Qed.

Lemma gw_request_raises method payload :
  raises_only gateway_error (gw_request method payload).
Proof.
  intros w e. rewrite gw_request_run. cbv zeta.
  destruct (network _) as [body ck| |];
    try (simpl; intros H; injection H as <-; exact I).
  pose proof (get_fails body "error") as Hg.
  destruct (get body "error") as [error|e0].
  - destruct (truthy error).
    + destruct error as [| | | | |[|[k v] fs]]; simpl;
        intros H; injection H as <-; exact I.
    + destruct (method =? "deezer.getUserData").
      * pose proof (update_session_raises body
                      (receive ck (log (gw_post_of method payload w)
                                       (roll w)))) as Hu.
        destruct (Api.update_session clock body _) as [[u|e1] w3];
          simpl in *.
        -- intros H. apply lookup_is_gateway_error.
           now apply (getitem_fails body "results").
        -- intros H; injection H as <-. now apply Hu.
      * simpl. intros H. apply lookup_is_gateway_error.
        now apply (getitem_fails body "results").
  - simpl. intros H; injection H as <-.
    apply lookup_is_gateway_error. now apply Hg.
Qed.

(** *** [get_track_url], step by step *)

Local Abbreviation renew_tokens := (renew_tokens network clock random).
Local Abbreviation media_step := (media_step network).
Local Abbreviation get_track_url := (get_track_url network clock random).
Local Abbreviation stale := (stale clock).
Local Abbreviation expired := (expired clock).

Lemma bindM_assoc {A B C} (m : M A) (k : A -> M B) (h : B -> M C) w :
  bindM (bindM m k) h w = bindM m (fun a => bindM (k a) h) w.
Proof. unfold bindM. destruct (m w) as [[a|e] w1]; reflexivity. Qed.

Lemma bindM_ext {A B} (m : M A) (k k' : A -> M B) w :
  (forall a w1, k a w1 = k' a w1) -> bindM m k w = bindM m k' w.
Proof.
  intros H. unfold bindM. destruct (m w) as [[a|e] w1];
    [apply H | reflexivity].
Qed.

Lemma get_track_url_split depth track_id track_token expiry fmt w :
  get_track_url depth track_id track_token expiry fmt w =
  bindM (renew_tokens depth track_id track_token expiry)
        (media_step fmt) w.
Proof.
  unfold Api.get_track_url, Api.renew_tokens. symmetry.
  rewrite bindM_assoc. apply bindM_ext; intros now1 w1.
  rewrite bindM_assoc. apply bindM_ext; intros self1 w2.
  rewrite bindM_assoc. apply bindM_ext; intros u w3.
  rewrite bindM_assoc. apply bindM_ext; intros now2 w4.
  reflexivity.
Qed.

Lemma media_step_run fmt track_token w :
  media_step fmt track_token w =
  let w1 := log (MediaPost
                   (media_payload (license_token (self w)) fmt
                                  track_token)) w in
  match network (sent w1) with
  | Reply body set_cookies => (stream_url body, receive set_cookies w1)
  | Unreachable => (Err ClientError, w1)
  | Malformed => (Err DecodeError, w1)
  end.
Proof.
  unfold Api.media_step, bindM, read, Api.post, lift. cbn [fst snd].
  cbv zeta. destruct (network _); reflexivity.
Qed.

Lemma renew_tokens_more_gw depth track_id track_token expiry :
  keeps more_gw (renew_tokens depth track_id track_token expiry).
Proof.
  unfold Api.renew_tokens.
  repeat first
    [ apply (keeps_bind _ more_gw_trans); [|intros ?]
    | apply (keeps_lift _ more_gw_refl)
    | apply (keeps_ret _ more_gw_refl)
    | apply (keeps_read _ more_gw_refl)
    | apply time_more_gw
    | apply gw_call_more_gw
    | match goal with
      | |- keeps _ (if ?c then _ else _) => destruct c
      end ].
Qed.

(** The renewals, step by step. *)
Lemma renew_tokens_run depth track_id track_token expiry w :
  renew_tokens depth track_id track_token expiry w =
  match stale w with
  | Err e => (Err e, tick w)
  | Ok due =>
      match (if due
             then bindM (_gw_api_call depth "deezer.getUserData" None)
                        (fun _ => ret tt)
             else ret tt) (tick w) with
      | (Err e, w1) => (Err e, w1)
      | (Ok _, w1) =>
          if expired expiry w1 then
            match _gw_api_call depth "song.getData"
                               (Some (track_token_payload track_id))
                               (tick w1) with
            | (Ok result, w2) => (getitem result "TRACK_TOKEN", w2)
            | (Err e, w2) => (Err e, w2)
            end
          else (Ok track_token, tick w1)
      end
  end.
Proof.
  unfold Api.renew_tokens.
  unfold bindM at 1. cbn [Api.time fst snd].
  unfold bindM at 1. cbn [read fst snd]. rewrite bind_lift.
  unfold Api.stale. cbn [self tick].
  destruct (Float.of_int (renew_timestamp (self w))) as [issued|e];
    cbn [bind]; [|reflexivity].
  unfold bindM at 1.
  destruct ((if Qle_bool (inject_Z 3600)
                         (Float.sub (Float.round64 (clock (ticks w))) issued)
             then bindM (_gw_api_call depth "deezer.getUserData" None)
                        (fun _ => ret tt)
             else ret tt) (tick w)) as [[u|e] w1]; [|reflexivity].
  unfold bindM at 1. cbn [Api.time fst snd]. unfold Api.expired.
  destruct (Qle_bool expiry (Float.round64 (clock (ticks w1))));
    [|reflexivity].
  unfold bindM at 1.
  destruct (_gw_api_call depth "song.getData" _ _) as [[res|e] w2];
    reflexivity.
Qed.

Lemma renew_tokens_fresh depth track_id track_token expiry w :
  stale w = Ok false -> expired expiry (tick w) = false ->
  renew_tokens depth track_id track_token expiry w =
  (Ok track_token, tick (tick w)).
Proof.
  intros Hs He. rewrite renew_tokens_run, Hs. cbn [ret]. now rewrite He.
Qed.





Lemma gw_answer_Ok method body res :
  gw_answer method body = Ok res -> getitem body "results" = Ok res.
Proof.
  unfold gw_answer. intros H.
  apply bind_Ok_inv in H as (error & _ & H).
  destruct (truthy error); [|exact H].
  destruct error as [| | | | |[|[k v] fs]]; discriminate.
Qed.


(** A call of another method that returns: its request is the last one
    sent, after gateway requests only, and the result is read in the
    response to it. *)
Lemma gw_call_other_Ok depth method payload w res w2 :
  method <> "deezer.getUserData" ->
  _gw_api_call depth method payload w = (Ok res, w2) ->
  exists pre wm body set_cookies,
    forallb is_gw pre = true /\
    sent w2 =
    (sent w ++ pre ++ [gw_post_of method (default_payload payload) wm])%list
    /\ network (sent w2) = Reply body set_cookies /\
    getitem body "results" = Ok res.
Proof.
  intros Hm Hrun. destruct depth as [|depth]; [discriminate|].
  rewrite gw_call_unfold in Hrun.
  assert (Hreq : forall wm pre,
            sent wm = (sent w ++ pre)%list -> forallb is_gw pre = true ->
            gw_request method (default_payload payload) wm = (Ok res, w2) ->
            exists pre wm body set_cookies,
              forallb is_gw pre = true /\
              sent w2 =
              (sent w ++ pre
                 ++ [gw_post_of method (default_payload payload) wm])%list
              /\ network (sent w2) = Reply body set_cookies /\
              getitem body "results" = Ok res).
  { intros wm pre Hsent Hgw Hreq.
    rewrite gw_request_other in Hreq by exact Hm. cbv zeta in Hreq.
    destruct (network (sent (log _ (roll wm)))) as [body ck| |] eqn:Hnet;
      [|discriminate|discriminate].
    injection Hreq as Hans <-.
    exists pre, wm, body, ck. cbn [sent receive with_self log roll] in *.
    rewrite Hsent, <- app_assoc in *.
    repeat split; [exact Hgw | exact Hnet | exact (gw_answer_Ok _ _ _ Hans)]. }
  destruct (relogin_due method w).
  - pose proof (gw_call_more_gw depth "deezer.getUserData" None w)
      as (pre & Hpre & Hgw).
    destruct (_gw_api_call depth "deezer.getUserData" None w)
      as [[v|e] w1]; [|discriminate].
    now apply (Hreq w1 pre).
  - apply (Hreq w []); [now rewrite app_nil_r | reflexivity | exact Hrun].
Qed.
End Env.
End ApiFacts.

(** ** Claims about the client *)

Module ApiClaims.
Import Api Frame ApiFacts.
Local Open Scope M_scope.
Local Open Scope string_scope.

(** C10. A gateway call of another method than [deezer.getUserData],
    made with a token that is not empty, leaves the token, the country,
    the licence token, the language, the issue time and the formats as
    they were, however the call ends. *)
Theorem gw_call_leaves_session
    (network : list request -> outcome) (clock : nat -> Q)
    (random : nat -> Z) (depth : nat) (method : string)
    (payload : option json) (w : world) :
  method <> "deezer.getUserData" ->
  truthy (api_token (self w)) = true ->
  let w' := snd (_gw_api_call network clock random depth method payload w)
  in
  api_token (self w') = api_token (self w) /\
  country (self w') = country (self w) /\
  license_token (self w') = license_token (self w) /\
  language (self w') = language (self w) /\
  renew_timestamp (self w') = renew_timestamp (self w) /\
  available_formats (self w') = available_formats (self w).
Proof.
  intros Hm Htok. destruct depth as [|depth]; [repeat split|].
  cbv zeta. rewrite gw_call_unfold.
  unfold relogin_due. rewrite Htok. cbn [negb andb].
  now apply gw_request_same_session.
Qed.

Lemma gw_call_leaves_session_witness :
  let w := start logged_in_client in
  let w' :=
    snd (_gw_api_call
           (scripted [Reply (JObj [("error", JObj [("DATA_ERROR", JStr "x")])])
                            [("sid", "s1")]])
           (fun _ => 0%Q) (fun _ => 7) 1000 "song.getData"
           (Some (track_token_payload "3135556")) w) in
  api_token (self w') = JStr "T0" /\ license_token (self w') = JStr "L0".
Proof.
  pose proof (gw_call_leaves_session
                (scripted [Reply (JObj [("error",
                                         JObj [("DATA_ERROR", JStr "x")])])
                                 [("sid", "s1")]])
                (fun _ => 0%Q) (fun _ => 7) 1000 "song.getData"
                (Some (track_token_payload "3135556"))
                (start logged_in_client)
                ltac:(discriminate) eq_refl) as (H1 & _ & H3 & _).
  split; [exact H1 | exact H3].
Defined.

(** What the calls of the samples do. *)
Example failed_call_sample :
  _gw_api_call
    (scripted [Reply (JObj [("error", JObj [("DATA_ERROR", JStr "x")])])
                     [("sid", "s1")]])
    (fun _ => 0%Q) (fun _ => 7) 1000 "song.getData"
    (Some (track_token_payload "3135556")) (start logged_in_client)
  = (Err (ModuleAPIError 400 "DATA_ERROR" (JStr "x") "song.getData"
                         "deezer"),
     {| self := set_cookie_jar [("sid", "s1"); ("arl", "my-arl")]
                               logged_in_client;
        sent := [GwPost "song.getData" (JStr "T0") 7
                        (track_token_payload "3135556")
                        [("arl", "my-arl")]];
        ticks := 0; rolls := 1 |}).
Proof. vm_compute. reflexivity. Qed.

(** C6 as the code has it.  A call of a method that is not an
    authentication method, started with an empty token and a stored ARL,
    first makes one bootstrap call, which never calls itself; if the
    bootstrap raises, its exception is the outcome and nothing else is
    sent; otherwise the request of the method goes out next, with the
    token the bootstrap left, empty or not.  The outcome is never
    [ModuleAuthError], and two nested calls are all the recursion
    there is. *)
Theorem relogin_is_one_bootstrap
    (network : list request -> outcome) (clock : nat -> Q)
    (random : nat -> Z) (depth : nat) (method : string)
    (payload : option json) (w : world) :
  truthy (api_token (self w)) = false ->
  _arl (self w) <> "" ->
  method <> "deezer.getUserData" -> method <> "user.getArl" ->
  let boot := gw_post_of random "deezer.getUserData" (JObj []) w in
  let '(rb, w1) :=
    _gw_api_call network clock random (S depth) "deezer.getUserData" None w
  in
  let '(r, w') :=
    _gw_api_call network clock random (S (S depth)) method payload w in
  sent w1 = (sent w ++ [boot])%list /\
  match rb with
  | Err e => r = Err e /\ w' = w1
  | Ok _ =>
      sent w' =
      (sent w ++ [boot; gw_post_of random method (default_payload payload)
                                   w1])%list
  end /\
  (forall name, r <> Err (ModuleAuthError name)) /\
  r <> Err RecursionError.
Proof.
  intros Htok Harl Hm1 Hm2 boot.
  assert (Hdue : relogin_due method w = true).
  { unfold relogin_due, is_auth_method. rewrite Htok.
    apply String.eqb_neq in Harl, Hm1, Hm2. now rewrite Harl, Hm1, Hm2. }
  rewrite (gw_call_unfold _ _ _ (S depth) method), Hdue.
  rewrite gw_call_bootstrap. cbn [default_payload].
  pose proof (gw_request_sent network clock random "deezer.getUserData"
                (JObj []) w) as Hs1.
  pose proof (gw_request_raises network clock random "deezer.getUserData"
                (JObj []) w) as Hr1.
  destruct (gw_request network clock random "deezer.getUserData" (JObj []) w)
    as [[v|e] w1]; cbn [fst snd] in *.
  - pose proof (gw_request_sent network clock random method
                  (default_payload payload) w1) as Hs2.
    pose proof (gw_request_raises network clock random method
                  (default_payload payload) w1) as Hr2.
    destruct (gw_request network clock random method
                (default_payload payload) w1) as [r w']; cbn [fst snd] in *.
    split; [exact Hs1|]. split.
    + rewrite Hs2, Hs1, <- app_assoc. reflexivity.
    + split; [intros name E | intros E]; subst r;
        exact (Hr2 _ eq_refl).
  - split; [exact Hs1|]. split; [now split|].
    split; [intros name E | intros E]; injection E as ->;
      exact (Hr1 _ eq_refl).
Qed.

Lemma relogin_is_one_bootstrap_witness :
  let net := scripted [gw_ok (user_data "T1" 42);
                       gw_ok (JObj [("TRACK_TOKEN", JStr "tt")])] in
  let w := start logged_out_client in
  let '(r, w') :=
    _gw_api_call net (fun _ => 5000%Q) (fun _ => 7) 2 "song.getData"
                 (Some (track_token_payload "3135556")) w in
  forall name, r <> Err (ModuleAuthError name).
Proof.
  pose proof (relogin_is_one_bootstrap
                (scripted [gw_ok (user_data "T1" 42);
                           gw_ok (JObj [("TRACK_TOKEN", JStr "tt")])])
                (fun _ => 5000%Q) (fun _ => 7) 0 "song.getData"
                (Some (track_token_payload "3135556"))
                (start logged_out_client)
                eq_refl ltac:(discriminate) ltac:(discriminate)
                ltac:(discriminate)) as H.
  cbv zeta in H |- *.
  destruct (_gw_api_call _ _ _ 1 "deezer.getUserData" None _) as [rb w1].
  destruct (_gw_api_call _ _ _ 2 "song.getData" _ _) as [r w'].
  exact (proj1 (proj2 (proj2 H))).
Defined.

(** The auto-relogin on the sample: one bootstrap, then the call with
    the new token. *)
Example relogin_sample :
  _gw_api_call
    (scripted [gw_ok (user_data "T1" 42);
               gw_ok (JObj [("TRACK_TOKEN", JStr "tt")])])
    (fun _ => 5000%Q) (fun _ => 7) 1000 "song.getData"
    (Some (track_token_payload "3135556")) (start logged_out_client)
  = (Ok (JObj [("TRACK_TOKEN", JStr "tt")]),
     {| self := refreshed (JStr "T1") (JStr "US") (JStr "L1") (JStr "en")
                          5000 ["MP3_128"; "MP3_320"] logged_out_client;
        sent := [GwPost "deezer.getUserData" (JStr "") 7 (JObj [])
                        [("arl", "my-arl")];
                 GwPost "song.getData" (JStr "T1") 7
                        (track_token_payload "3135556")
                        [("arl", "my-arl")]];
        ticks := 1; rolls := 2 |}).
Proof. vm_compute. reflexivity. Qed.

(** The claim as the specification words it fails when the bootstrap
    leaves the token empty: the call goes on with the empty token and
    returns what the service answers; no [ModuleAuthError]. *)
Lemma relogin_empty_token_goes_on :
  let '(r, w') :=
    _gw_api_call
      (scripted [gw_ok (user_data "" 0);
                 gw_ok (JObj [("TRACK_TOKEN", JStr "tt")])])
      (fun _ => 5000%Q) (fun _ => 7) 1000 "song.getData"
      (Some (track_token_payload "3135556")) (start logged_out_client) in
  truthy (api_token (self w')) = false /\
  r = Ok (JObj [("TRACK_TOKEN", JStr "tt")]) /\
  sent w' = [GwPost "deezer.getUserData" (JStr "") 7 (JObj [])
                    [("arl", "my-arl")];
             GwPost "song.getData" (JStr "") 7
                    (track_token_payload "3135556") [("arl", "my-arl")]].
Proof. vm_compute. repeat split. Qed.

(** C9 as the code has it.  When the service answers the bootstrap
    request of [login_via_arl] with a result that has the session fields,
    the token, the country, the licence token, the language, the issue
    time and the formats are written from it whether a user identifier
    comes with it or not.  With a user identifier the result is
    returned and the ARL is kept; without one [ModuleAuthError] is
    raised, the stored ARL is emptied and the cookie jar is cleared, and
    the session fields stay as written. *)
Theorem login_via_arl_outcome
    (network : list request -> outcome) (clock : nat -> Q)
    (random : nat -> Z) (depth : nat) (arl : string) (w : world)
    (body : json) (set_cookies : cookies) (error results : json)
    (token ctry lic lang hq lossless user_id : json) :
  let w0 :=
    with_self (fun c => set_cookie_jar
                          (set_cookie "arl" arl (cookie_jar c))
                          (set_arl arl c)) w in
  let boot := gw_post_of random "deezer.getUserData" (JObj []) w0 in
  network (sent w ++ [boot])%list = Reply body set_cookies ->
  get body "error" = Ok error -> truthy error = false ->
  getitem body "results" = Ok results ->
  session_fields results = Ok (token, ctry, lic, lang, hq, lossless) ->
  user_id_of results = Ok user_id ->
  let '(r, w') := login_via_arl network clock random (S depth) arl w in
  sent w' = (sent w ++ [boot])%list /\
  api_token (self w') = token /\
  country (self w') = ctry /\
  license_token (self w') = lic /\
  language (self w') = lang /\
  renew_timestamp (self w') = Qceiling (Float.round64 (clock (ticks w))) /\
  available_formats (self w') = formats_of hq lossless /\
  if truthy user_id
  then r = Ok results /\
       _arl (self w') = arl /\
       cookie_jar (self w') =
       update_cookies set_cookies (set_cookie "arl" arl (cookie_jar (self w)))
  else r = Err (ModuleAuthError "deezer") /\
       _arl (self w') = "" /\
       cookie_jar (self w') = [].
Proof.
  intros w0 boot Hnet Herr Hfalse Hres Hfields Huid.
  unfold login_via_arl.
  unfold bindM at 1. cbn [assign fst snd].
  unfold bindM at 1. cbn [read fst snd].
  unfold bindM at 1. cbn [assign fst snd].
  unfold bindM at 1.
  change (with_self _ (with_self (set_arl arl) w)) with w0.
  rewrite gw_call_bootstrap, gw_request_run. cbn [default_payload].
  cbv zeta. fold boot.
  change (sent (log boot (roll w0))) with (sent w ++ [boot])%list.
  rewrite Hnet, Herr, Hfalse. cbn [String.eqb Ascii.eqb Bool.eqb].
  rewrite (update_session_run clock body results token ctry lic lang hq
             lossless _ Hres Hfields).
  rewrite Hres.
  unfold bindM at 1. unfold lift at 1. cbn [fst snd].
  change (u <- getitem results "USER";; getitem u "USER_ID")%result
    with (user_id_of results).
  rewrite Huid.
  destruct (truthy user_id); cbn [negb].
  - repeat split.
  - repeat split.
Qed.

Lemma login_via_arl_outcome_witness :
  let '(r, w') :=
    login_via_arl (scripted [gw_ok (user_data "T1" 42)])
                  (fun _ => 5000%Q) (fun _ => 7) 1 "my-arl"
                  (start sample_client) in
  api_token (self w') = JStr "T1" /\
  available_formats (self w') = ["MP3_128"; "MP3_320"].
Proof.
  pose proof (login_via_arl_outcome
                (scripted [gw_ok (user_data "T1" 42)])
                (fun _ => 5000%Q) (fun _ => 7) 0 "my-arl"
                (start sample_client)
                (JObj [("error", JArr []);
                       ("results", user_data "T1" 42)]) []
                (JArr []) (user_data "T1" 42)
                (JStr "T1") (JStr "US") (JStr "L1") (JStr "en")
                (JBool true) (JBool false) (JNum (inject_Z 42))
                eq_refl eq_refl eq_refl eq_refl eq_refl eq_refl) as H.
  cbv zeta in H.
  destruct (login_via_arl _ _ _ 1 "my-arl" _) as [r w'].
  destruct H as (_ & Htok & _ & _ & _ & _ & Hfmt & _).
  split; [exact Htok | exact Hfmt].
Defined.

(** The login of a user the service knows, from a new client. *)
Example login_sample :
  login_via_arl (scripted [gw_ok (user_data "T1" 42)])
                (fun _ => 5000%Q) (fun _ => 7) 1000 "my-arl"
                (start sample_client)
  = (Ok (user_data "T1" 42),
     {| self := refreshed (JStr "T1") (JStr "US") (JStr "L1") (JStr "en")
                          5000 ["MP3_128"; "MP3_320"] logged_out_client;
        sent := [GwPost "deezer.getUserData" (JStr "") 7 (JObj [])
                        [("arl", "my-arl")]];
        ticks := 1; rolls := 1 |}).
Proof. vm_compute. reflexivity. Qed.

(** The claim as the specification words it fails for the session
    fields: after a login that the service answers without a user
    identifier, the client, new before the call, holds the token, the
    licence token, the issue time and the formats of that answer. *)
Lemma failed_login_keeps_session_fields :
  let w := start sample_client in
  let '(r, w') :=
    login_via_arl (scripted [gw_ok (user_data "anon" 0)])
                  (fun _ => 5000%Q) (fun _ => 7) 1000 "bad-arl" w in
  r = Err (ModuleAuthError "deezer") /\
  _arl (self w') = "" /\ cookie_jar (self w') = [] /\
  api_token (self w) = JStr "" /\
  api_token (self w') = JStr "anon" /\
  license_token (self w') = JStr "L1" /\
  renew_timestamp (self w') = 5000 /\
  available_formats (self w') = ["MP3_128"; "MP3_320"].
Proof. vm_compute. repeat split. Qed.

(** C5 as the code has it.  [get_track_url] first renews the tokens,
    which sends gateway requests only; if that raises, the call ends with
    the exception.  Otherwise it sends the media request, once and as its
    last request, and returns what
    [data["data"][0]["media"][0]["sources"][0]["url"]] gives on the
    decoded response: [IndexError] for an empty [data] or [sources] list
    and [KeyError] for a missing key, raised as they are; with a first
    source, the value of its [url].  With tokens that need no renewal the
    media request is the only request, at any depth of the call stack. *)
Theorem get_track_url_media_outcome
    (network : list request -> outcome) (clock : nat -> Q)
    (random : nat -> Z) (depth : nat) (track_id : string)
    (track_token : json) (track_token_expiry : Q) (audio_format : string)
    (w : world) :
  let run :=
    get_track_url network clock random depth track_id track_token
                  track_token_expiry audio_format w in
  let renewals :=
    renew_tokens network clock random depth track_id track_token
                 track_token_expiry w in
  (exists pre,
     sent (snd renewals) = (sent w ++ pre)%list /\
     forallb is_gw pre = true) /\
  (forall e, fst renewals = Err e -> run = (Err e, snd renewals)) /\
  (forall token, fst renewals = Ok token ->
     let w1 := snd renewals in
     let req := MediaPost (media_payload (license_token (self w1))
                                         audio_format token) in
     sent (snd run) = (sent w1 ++ [req])%list /\
     match network (sent w1 ++ [req])%list with
     | Unreachable => fst run = Err ClientError
     | Malformed => fst run = Err DecodeError
     | Reply data _ =>
         fst run = stream_url data /\
         (getitem data "data" = Ok (JArr []) -> fst run = Err IndexError) /\
         (forall fields,
            data = JObj fields -> lookup "data" fields = None ->
            fst run = Err (KeyError (JStr "data"))) /\
         (forall d ds m ms,
            getitem data "data" = Ok (JArr (d :: ds)) ->
            getitem d "media" = Ok (JArr (m :: ms)) ->
            (getitem m "sources" = Ok (JArr []) ->
             fst run = Err IndexError) /\
            (getitem m "sources" = Err (KeyError (JStr "sources")) ->
             fst run = Err (KeyError (JStr "sources"))) /\
            (forall src more,
               getitem m "sources" = Ok (JArr (src :: more)) ->
               fst run = getitem src "url"))
     end) /\
  (stale clock w = Ok false ->
   expired clock track_token_expiry (tick w) = false ->
   let req := MediaPost (media_payload (license_token (self w))
                                       audio_format track_token) in
   sent (snd run) = (sent w ++ [req])%list /\
   fst run = match network (sent w ++ [req])%list with
             | Reply data _ => stream_url data
             | Unreachable => Err ClientError
             | Malformed => Err DecodeError
             end).
Proof.
  intros run renewals.
  assert (Hmedia : forall token w1,
            renewals = (Ok token, w1) ->
            let req := MediaPost (media_payload (license_token (self w1))
                                                audio_format token) in
            sent (snd run) = (sent w1 ++ [req])%list /\
            fst run = match network (sent w1 ++ [req])%list with
                      | Reply data _ => stream_url data
                      | Unreachable => Err ClientError
                      | Malformed => Err DecodeError
                      end).
  { intros token w1 H req. unfold run. rewrite get_track_url_split.
    unfold bindM. fold renewals. rewrite H. rewrite media_step_run.
    cbv zeta. fold req.
    change (sent (log req w1)) with (sent w1 ++ [req])%list.
    destruct (network (sent w1 ++ [req])%list); now split. }
  split; [|split; [|split]].
  - destruct (renew_tokens_more_gw network clock random depth track_id
                track_token track_token_expiry w) as (pre & Hpre & Hgw).
    now exists pre.
  - intros e H. unfold run. rewrite get_track_url_split. unfold bindM.
    fold renewals. destruct renewals as [rt w1]. cbn [fst snd] in *.
    now subst rt.
  - intros token H w1 req.
    destruct (Hmedia token w1) as [Hs Hr].
    { unfold w1. destruct renewals as [rt wa]. cbn [fst snd] in *.
      now subst rt. }
    split; [exact Hs|]. fold req in Hr.
    destruct (network (sent w1 ++ [req])%list) as [data ck| |];
      [|exact Hr|exact Hr].
    split; [exact Hr|]. rewrite Hr. unfold stream_url. split; [|split].
    + intros H0. now rewrite H0.
    + intros fields -> H0. cbn [getitem]. now rewrite H0.
    + intros d ds m ms Hd Hm.
      rewrite Hd. cbn [bind getitem0]. rewrite Hm. cbn [bind getitem0].
      split; [|split].
      * intros ->. reflexivity.
      * intros ->. reflexivity.
      * intros src more ->. reflexivity.
  - intros Hs He req.
    destruct (Hmedia track_token (tick (tick w))) as [Hs' Hr].
    { unfold renewals. now apply renew_tokens_fresh. }
    split; [exact Hs' | exact Hr].
Qed.

Lemma get_track_url_media_outcome_witness :
  fst (get_track_url (scripted [Reply (JObj [("data", JArr [])]) []])
                     (fun _ => 1500%Q) (fun _ => 7) 1
                     "3135556" (JStr "tt") 2000 "FLAC"
                     (start logged_in_client))
  = Err IndexError.
Proof.
  destruct (get_track_url_media_outcome
              (scripted [Reply (JObj [("data", JArr [])]) []])
              (fun _ => 1500%Q) (fun _ => 7) 1
              "3135556" (JStr "tt") 2000 "FLAC" (start logged_in_client))
    as (_ & _ & _ & H).
  destruct (H ltac:(vm_compute; reflexivity) ltac:(vm_compute; reflexivity))
    as [_ Hr].
  rewrite Hr. reflexivity.
Defined.

(** The claim as the specification words it fails on an empty [data]
    list: the exception is [IndexError], not [ModuleAPIError]. *)
Lemma empty_data_raises_IndexError :
  get_track_url (scripted [Reply (JObj [("data", JArr [])]) []])
                (fun _ => 1500%Q) (fun _ => 7) 1000
                "3135556" (JStr "tt") 2000 "FLAC" (start logged_in_client)
  = (Err IndexError,
     {| self := logged_in_client;
        sent := [MediaPost (media_payload (JStr "L0") "FLAC" (JStr "tt"))];
        ticks := 2; rolls := 0 |}).
Proof. vm_compute. reflexivity. Qed.

(** With one source, its URL comes back as it is. *)
Example one_source_sample :
  fst (get_track_url
         (scripted [media_reply [JObj [("url", JStr "https://cdn/x")]]])
         (fun _ => 1500%Q) (fun _ => 7) 1000
         "3135556" (JStr "tt") 2000 "FLAC" (start logged_in_client))
  = Ok (JStr "https://cdn/x").
Proof. vm_compute. reflexivity. Qed.






(** The two thresholds on the sample client, whose licence token was
    issued at time 1000: at 4601 the bootstrap comes first and the media
    request carries the licence token it brings, at 4599 the media
    request is the only one. *)
Example renewal_sample_3601 :
  get_track_url
    (scripted [gw_ok (user_data "T1" 42);
               media_reply [JObj [("url", JStr "https://cdn/x")]]])
    (fun _ => 4601%Q) (fun _ => 7) 1000
    "3135556" (JStr "tt") 9999 "FLAC" (start logged_in_client)
  = (Ok (JStr "https://cdn/x"),
     {| self := refreshed (JStr "T1") (JStr "US") (JStr "L1") (JStr "en")
                          4601 ["MP3_128"; "MP3_320"] logged_in_client;
        sent := [GwPost "deezer.getUserData" (JStr "") 7 (JObj [])
                        [("arl", "my-arl")];
                 MediaPost (media_payload (JStr "L1") "FLAC" (JStr "tt"))];
        ticks := 3; rolls := 1 |}).
Proof. vm_compute. reflexivity. Qed.

Example renewal_sample_3599 :
  get_track_url
    (scripted [media_reply [JObj [("url", JStr "https://cdn/x")]]])
    (fun _ => 4599%Q) (fun _ => 7) 1000
    "3135556" (JStr "tt") 9999 "FLAC" (start logged_in_client)
  = (Ok (JStr "https://cdn/x"),
     {| self := logged_in_client;
        sent := [MediaPost (media_payload (JStr "L0") "FLAC" (JStr "tt"))];
        ticks := 2; rolls := 0 |}).
Proof. vm_compute. reflexivity. Qed.

(** An expired track token: the fresh one is fetched and used. *)
Example renewal_sample_track_token :
  get_track_url
    (scripted [gw_ok (JObj [("TRACK_TOKEN", JStr "fresh")]);
               media_reply [JObj [("url", JStr "https://cdn/x")]]])
    (fun _ => 1500%Q) (fun _ => 7) 1000
    "3135556" (JStr "tt") 1200 "FLAC" (start logged_in_client)
  = (Ok (JStr "https://cdn/x"),
     {| self := logged_in_client;
        sent := [GwPost "song.getData" (JStr "T0") 7
                        (track_token_payload "3135556")
                        [("arl", "my-arl")];
                 MediaPost (media_payload (JStr "L0") "FLAC"
                                          (JStr "fresh"))];
        ticks := 2; rolls := 1 |}).
Proof. vm_compute. reflexivity. Qed.


End ApiClaims.


(** * More properties of the code *)

(** ** The gateway call and the login *)

Module SessionProps.
Import Api Frame ApiFacts Relations.
Local Open Scope M_scope.
Local Open Scope string_scope.

Section Env.
Variable network : list request -> outcome.
Variable clock : nat -> Q.
Variable random : nat -> Z.

Local Abbreviation gw_request := (gw_request network clock random).
Local Abbreviation _gw_api_call := (_gw_api_call network clock random).
Local Abbreviation update_session := (update_session clock).
Local Abbreviation login_via_arl := (login_via_arl network clock random).

Lemma same_arl_refl w : same_arl w w.
Proof. reflexivity. Qed.

Lemma same_arl_trans w1 w2 w3 :
  same_arl w1 w2 -> same_arl w2 w3 -> same_arl w1 w3.
Proof. unfold same_arl. congruence. Qed.

Lemma update_session_same_arl data : keeps same_arl (update_session data).
Proof.
  unfold Api.update_session.
  repeat first
    [ apply (keeps_bind _ same_arl_trans); [|intros ?]
    | apply (keeps_for_each _ same_arl_refl same_arl_trans); intros ?
    | apply (keeps_lift _ same_arl_refl)
    | apply (keeps_ret _ same_arl_refl)
    | apply (keeps_read _ same_arl_refl)
    | (intros w; reflexivity)
    | match goal with |- keeps _ (if ?c then _ else _) => destruct c end ].
Qed.

Lemma gw_request_same_arl method payload :
  keeps same_arl (gw_request method payload).
Proof.
  intros w. rewrite gw_request_run. cbv zeta.
  destruct (network _) as [body ck| |]; try reflexivity.
  destruct (get body "error") as [error|e]; [|reflexivity].
  destruct (truthy error); [reflexivity|].
  destruct (method =? "deezer.getUserData"); [|reflexivity].
  pose proof (update_session_same_arl body
                (receive ck (log (gw_post_of random method payload w)
                                 (roll w)))) as H.
  destruct (Api.update_session clock body _) as [[u|e] w3]; exact H.
Qed.

Lemma gw_call_same_arl depth method payload :
  keeps same_arl (_gw_api_call depth method payload).
Proof.
  revert method payload; induction depth as [|depth IH];
    intros method payload w.
  - reflexivity.
  - rewrite gw_call_unfold. destruct (relogin_due method w).
    + specialize (IH "deezer.getUserData" None w).
      destruct (_gw_api_call depth "deezer.getUserData" None w)
        as [[v|e] w1]; simpl in IH; [|exact IH].
      eapply same_arl_trans; [exact IH | apply gw_request_same_arl].
    + apply gw_request_same_arl.
Qed.


(** The loop over [format_map] that runs to its end. *)
Lemma format_loop_Ok_inv results w1 w' :
  for_each format_map (fun kf =>
    flag <- lift (u <- getitem results "USER" ;;
                  o <- getitem u "OPTIONS" ;;
                  get o (fst kf))%result ;;
    if truthy flag then
      self <- read ;;
      assign (set_available_formats
                (available_formats self ++ [snd kf])%list)
    else ret tt) w1 = (Ok tt, w') ->
  exists hq lossless,
    (u <- getitem results "USER" ;; o <- getitem u "OPTIONS" ;;
     get o "web_hq")%result = Ok hq /\
    (u <- getitem results "USER" ;; o <- getitem u "OPTIONS" ;;
     get o "web_lossless")%result = Ok lossless /\
    w' = with_self
           (fun c => set_available_formats
                       ((available_formats c
                           ++ (if truthy hq then ["MP3_320"] else []))
                          ++ (if truthy lossless then ["FLAC"] else []))%list
                       c) w1.
Proof.
  cbn [for_each format_map fst snd]. intros H.
  unfold bindM at 1 in H. rewrite bind_lift in H.
  destruct (u <- getitem results "USER" ;; o <- getitem u "OPTIONS" ;;
            get o "web_hq")%result as [hq|e]; [|discriminate].
  exists hq.
  destruct (truthy hq); cbn [bindM read assign ret fst snd] in H;
    unfold bindM at 1 in H; rewrite bind_lift in H;
    destruct (u <- getitem results "USER" ;; o <- getitem u "OPTIONS" ;;
              get o "web_lossless")%result as [ll|e]; try discriminate;
    exists ll; (split; [reflexivity|]); (split; [reflexivity|]);
    destruct (truthy ll); cbn [bindM read assign ret fst snd] in H;
    injection H as <-; destruct w1 as [c sent0 ticks0 rolls0]; destruct c;
    unfold with_self, set_available_formats; cbn; rewrite ?app_nil_r;
    reflexivity.
Qed.

(** [update_session] that runs to its end has found every field. *)
Lemma update_session_Ok_inv data w w' :
  update_session data w = (Ok tt, w') ->
  exists results token ctry lic lang hq lossless,
    getitem data "results" = Ok results /\
    session_fields results = Ok (token, ctry, lic, lang, hq, lossless) /\
    w' = with_self (refreshed token ctry lic lang
                              (Float.round64 (clock (ticks w)))
                              (formats_of hq lossless))
                   (tick w).
Proof.
  intros H. unfold Api.update_session in H.
  rewrite bind_lift in H.
  destruct (getitem data "results") as [results|e] eqn:Hres; [|discriminate].
  rewrite bind_lift in H.
  destruct (getitem results "checkForm") as [token|e] eqn:Htok;
    [|discriminate].
  unfold bindM at 1 in H. cbn [assign fst snd] in H.
  rewrite bind_lift in H.
  destruct (getitem results "COUNTRY") as [ctry|e] eqn:Hctry;
    [|discriminate].
  unfold bindM at 1 in H. cbn [assign fst snd] in H.
  rewrite bind_lift in H.
  destruct (u <- getitem results "USER" ;; o <- getitem u "OPTIONS" ;;
            getitem o "license_token")%result as [lic|e] eqn:Hlic;
    [|discriminate].
  unfold bindM at 1 in H. cbn [assign fst snd] in H.
  unfold bindM at 1 in H. cbn [Api.time fst snd] in H.
  unfold bindM at 1 in H. cbn [assign fst snd] in H.
  rewrite bind_lift in H.
  destruct (u <- getitem results "USER" ;; s <- getitem u "SETTING" ;;
            g <- getitem s "global" ;; getitem g "language")%result
    as [lang|e] eqn:Hlang; [|discriminate].
  unfold bindM at 1 in H. cbn [assign fst snd] in H.
  unfold bindM at 1 in H. cbn [assign fst snd] in H.
  apply format_loop_Ok_inv in H as (hq & lossless & Hhq & Hll & ->).
  exists results, token, ctry, lic, lang, hq, lossless.
  split; [reflexivity|]. split.
  - unfold session_fields. rewrite Htok, Hctry. cbn [bind].
    rewrite Hlic. cbn [bind]. rewrite Hlang. cbn [bind].
    rewrite Hhq. cbn [bind]. rewrite Hll. reflexivity.
  - unfold formats_of. destruct (truthy hq), (truthy lossless); reflexivity.
Qed.

(** X1. The two authentication methods are sent with an empty token
    whatever token the client holds, and never start an auto-relogin: the
    call sends that one request and no other. *)
Theorem auth_methods_send_empty_token depth method payload w :
  method = "deezer.getUserData" \/ method = "user.getArl" ->
  sent (snd (_gw_api_call (S depth) method payload w)) =
  (sent w ++ [GwPost method (JStr "") (random (rolls w))
                     (default_payload payload) (cookie_jar (self w))])%list.
Proof.
  intros Hm. rewrite gw_call_unfold.
  assert (Hauth : is_auth_method method = true)
    by (destruct Hm as [-> | ->]; reflexivity).
  unfold relogin_due. rewrite Hauth, andb_false_r.
  rewrite gw_request_sent. unfold gw_post_of. now rewrite Hauth.
Qed.

(** X2. A response whose [error] is a non-empty object makes the call raise
    [ModuleAPIError] with code 400 and the first key and value of that
    object; nothing of the session is written, for the bootstrap method as
    for any other, and the clock is not read.  A truthy [error] that is not
    an object raises [AttributeError] instead. *)
Theorem error_envelope_raises depth method payload w body set_cookies error :
  relogin_due method w = false ->
  network (sent w ++ [gw_post_of random method (default_payload payload) w])
    = Reply body set_cookies ->
  get body "error" = Ok error ->
  truthy error = true ->
  let '(r, w') := _gw_api_call (S depth) method payload w in
  r = match error with
      | JObj ((error_type, error_msg) :: _) =>
          Err (ModuleAPIError 400 error_type error_msg method "deezer")
      | JObj [] => Err IndexError
      | _ => Err AttributeError
      end /\
  same_session w w' /\ same_arl w w' /\ ticks w' = ticks w /\
  sent w' =
  (sent w ++ [gw_post_of random method (default_payload payload) w])%list.
Proof.
  intros Hdue Hnet Herr Htrue.
  rewrite gw_call_unfold, Hdue, gw_request_run. cbv zeta.
  change (sent (log ?r (roll w))) with (sent w ++ [r])%list.
  rewrite Hnet, Herr, Htrue.
  split; [|repeat split].
  destruct error as [| | | | |[|[k v] fs]]; reflexivity.
Qed.

(** X3. Whenever the bootstrap call returns, what it returns has all the
    session fields, and the client holds them: the token is its
    [checkForm], the issue time is the clock rounded up, the formats are
    those of its entitlement flags; the ARL is kept and the request was the
    only one sent. *)
Theorem bootstrap_result_populates_session depth payload w results w' :
  _gw_api_call (S depth) "deezer.getUserData" payload w = (Ok results, w') ->
  exists token ctry lic lang hq lossless,
    session_fields results = Ok (token, ctry, lic, lang, hq, lossless) /\
    api_token (self w') = token /\
    country (self w') = ctry /\
    license_token (self w') = lic /\
    language (self w') = lang /\
    renew_timestamp (self w') = Qceiling (Float.round64 (clock (ticks w))) /\
    available_formats (self w') = formats_of hq lossless /\
    _arl (self w') = _arl (self w) /\
    sent w' =
    (sent w ++ [GwPost "deezer.getUserData" (JStr "") (random (rolls w))
                       (default_payload payload) (cookie_jar (self w))])%list.
Proof.
  intros H. rewrite gw_call_bootstrap, gw_request_run in H. cbv zeta in H.
  destruct (network _) as [body ck| |]; [|discriminate|discriminate].
  destruct (get body "error") as [error|e]; [|discriminate].
  destruct (truthy error).
  { destruct error as [| | | | |[|[k v] fs]]; discriminate. }
  cbn [String.eqb Ascii.eqb Bool.eqb] in H.
  destruct (Api.update_session clock body _) as [[[]|e] w3] eqn:Hupd;
    [|discriminate].
  apply update_session_Ok_inv in Hupd
    as (results' & token & ctry & lic & lang & hq & ll & Hres & Hf & ->).
  injection H as Hres' <-. rewrite Hres in Hres'. injection Hres' as ->.
  exists token, ctry, lic, lang, hq, ll. repeat split. exact Hf.
Qed.

(** X4. The bootstrap does not write the session at once.  When the result
    has a [checkForm] and no [COUNTRY], the call raises [KeyError] for
    [COUNTRY] after the token was replaced: the client then holds the new
    token with the country, the licence token, the language, the issue time
    and the formats it had before. *)
Theorem bootstrap_update_stops_midway
    depth payload w body set_cookies error fields token :
  network (sent w ++ [gw_post_of random "deezer.getUserData"
                                   (default_payload payload) w])
    = Reply body set_cookies ->
  get body "error" = Ok error -> truthy error = false ->
  getitem body "results" = Ok (JObj fields) ->
  lookup "checkForm" fields = Some token ->
  lookup "COUNTRY" fields = None ->
  let '(r, w') := _gw_api_call (S depth) "deezer.getUserData" payload w in
  r = Err (KeyError (JStr "COUNTRY")) /\
  api_token (self w') = token /\
  country (self w') = country (self w) /\
  license_token (self w') = license_token (self w) /\
  language (self w') = language (self w) /\
  renew_timestamp (self w') = renew_timestamp (self w) /\
  available_formats (self w') = available_formats (self w).
Proof.
  intros Hnet Herr Hfalse Hres Htok Hctry.
  rewrite gw_call_bootstrap, gw_request_run. cbv zeta.
  change (sent (log ?r (roll w))) with (sent w ++ [r])%list.
  rewrite Hnet, Herr, Hfalse. cbn [String.eqb Ascii.eqb Bool.eqb].
  unfold Api.update_session.
  rewrite (bind_lift_Ok _ _ _ _ Hres).
  rewrite bind_lift. cbn [getitem]. rewrite Htok.
  unfold bindM at 1. cbn [assign fst snd].
  rewrite bind_lift. rewrite Hctry.
  repeat split.
Qed.

(** X5. After [login_via_arl] the ARL is stored exactly when the outcome is
    not [ModuleAuthError]: that exception comes with an empty ARL and an
    empty cookie jar; any other exception (of the transport, of the
    service, of a missing field) and a success leave the ARL that was
    given. *)
Theorem login_via_arl_stores_arl depth arl w :
  let '(r, w') := login_via_arl (S depth) arl w in
  match r with
  | Err (ModuleAuthError _) =>
      _arl (self w') = "" /\ cookie_jar (self w') = []
  | _ => _arl (self w') = arl
  end.
Proof.
  unfold Api.login_via_arl.
  unfold bindM at 1. cbn [assign fst snd].
  unfold bindM at 1. cbn [read fst snd].
  unfold bindM at 1. cbn [assign fst snd].
  unfold bindM at 1.
  set (w0 := with_self _ (with_self (set_arl arl) w)).
  pose proof (gw_call_same_arl (S depth) "deezer.getUserData" None w0)
    as Harl.
  pose proof (gw_request_raises network clock random "deezer.getUserData"
                (JObj []) w0) as Hraise.
  rewrite <- (gw_call_bootstrap network clock random depth None) in Hraise.
  unfold same_arl in Harl. change (_arl (self w0)) with arl in Harl.
  destruct (_gw_api_call (S depth) "deezer.getUserData" None w0)
    as [[user_data|e] w1]; cbn [fst snd] in *.
  - rewrite bind_lift.
    pose proof (fails_only_bind lookup_error (getitem user_data "USER")
                  (fun u => getitem u "USER_ID")
                  (getitem_fails _ _) (fun u => getitem_fails u _)) as Hl.
    destruct (u <- getitem user_data "USER" ;; getitem u "USER_ID")%result
      as [user_id|e].
    + destruct (truthy user_id); cbn [negb].
      * exact Harl.
      * split; reflexivity.
    + specialize (Hl e eq_refl). destruct e; try exact Harl. destruct Hl.
  - specialize (Hraise e eq_refl). destruct e; try exact Harl.
    destruct Hraise.
Qed.

(** X6. A gateway call never touches the requests already sent and adds at
    most two, all to the gateway: its own, and before it the bootstrap of
    the auto-relogin. *)
Theorem gw_call_sends_at_most_two depth method payload w :
  exists new,
    sent (snd (_gw_api_call depth method payload w)) = (sent w ++ new)%list /\
    forallb is_gw new = true /\ (length new <= 2)%nat.
Proof.
  destruct depth as [|depth].
  - exists []. cbn. rewrite app_nil_r. repeat split. lia.
  - rewrite gw_call_unfold. destruct (relogin_due method w).
    + destruct depth as [|depth].
      * exists []. cbn. rewrite app_nil_r. repeat split. lia.
      * rewrite gw_call_bootstrap. cbn [default_payload].
        pose proof (gw_request_sent network clock random "deezer.getUserData"
                      (JObj []) w) as Hs1.
        destruct (gw_request "deezer.getUserData" (JObj []) w)
          as [[v|e] w1]; cbn [snd] in Hs1.
        -- pose proof (gw_request_sent network clock random method
                         (default_payload payload) w1) as Hs2.
           exists [gw_post_of random "deezer.getUserData" (JObj []) w;
                   gw_post_of random method (default_payload payload) w1].
           rewrite Hs2, Hs1, <- app_assoc. repeat split. cbn. lia.
        -- exists [gw_post_of random "deezer.getUserData" (JObj []) w].
           cbn [snd]. rewrite Hs1. repeat split. cbn. lia.
    + exists [gw_post_of random method (default_payload payload) w].
      rewrite gw_request_sent. repeat split. cbn. lia.
Qed.
End Env.

Local Open Scope string_scope.

Lemma auth_methods_send_empty_token_witness :
  sent (snd (_gw_api_call (scripted [gw_ok (user_data "T1" 42)])
                          (fun _ => 0%Q) (fun _ => 7) 1
                          "deezer.getUserData" None
                          (start logged_in_client)))
  = [GwPost "deezer.getUserData" (JStr "") 7 (JObj [])
            [("arl", "my-arl")]].
Proof.
  exact (auth_methods_send_empty_token
           (scripted [gw_ok (user_data "T1" 42)])
           (fun _ => 0%Q) (fun _ => 7) 0 "deezer.getUserData" None
           (start logged_in_client) (or_introl eq_refl)).
Defined.

Lemma error_envelope_raises_witness :
  fst (_gw_api_call
         (scripted [Reply (JObj [("error",
                                  JObj [("DATA_ERROR", JStr "x")])]) []])
         (fun _ => 0%Q) (fun _ => 7) 1 "song.getData" None
         (start logged_in_client))
  = Err (ModuleAPIError 400 "DATA_ERROR" (JStr "x") "song.getData"
                        "deezer").
Proof.
  pose proof (error_envelope_raises
                (scripted [Reply (JObj [("error",
                                         JObj [("DATA_ERROR", JStr "x")])])
                                 []])
                (fun _ => 0%Q) (fun _ => 7) 0 "song.getData" None
                (start logged_in_client)
                (JObj [("error", JObj [("DATA_ERROR", JStr "x")])]) []
                (JObj [("DATA_ERROR", JStr "x")])
                eq_refl eq_refl eq_refl eq_refl) as H.
  destruct (_gw_api_call _ _ _ 1 "song.getData" None _) as [r w'].
  exact (proj1 H).
Defined.

Lemma bootstrap_result_populates_session_witness :
  let w' := snd (_gw_api_call (scripted [gw_ok (user_data "T1" 42)])
                              (fun _ => 0%Q) (fun _ => 7) 1
                              "deezer.getUserData" None
                              (start logged_out_client)) in
  exists token,
    getitem (user_data "T1" 42) "checkForm" = Ok token /\
    api_token (self w') = token.
Proof.
  intros w'.
  destruct (bootstrap_result_populates_session
              (scripted [gw_ok (user_data "T1" 42)])
              (fun _ => 0%Q) (fun _ => 7) 0 None
              (start logged_out_client) (user_data "T1" 42) w'
              ltac:(vm_compute; reflexivity))
    as (token & ctry & lic & lang & hq & lossless & Hf & Ht & _).
  exists token. split; [|exact Ht].
  unfold session_fields in Hf.
  destruct (getitem (user_data "T1" 42) "checkForm") as [t|e];
    [|discriminate Hf].
  cbn [bind] in Hf.
  repeat match type of Hf with
         | bind ?m _ = _ => destruct m; [cbn [bind] in Hf | discriminate Hf]
         end.
  injection Hf as -> _ _ _ _ _. reflexivity.
Defined.

Lemma bootstrap_update_stops_midway_witness :
  let '(r, w') :=
    _gw_api_call
      (scripted [gw_ok (JObj [("checkForm", JStr "T9")])])
      (fun _ => 0%Q) (fun _ => 7) 1 "deezer.getUserData" None
      (start logged_in_client) in
  r = Err (KeyError (JStr "COUNTRY")) /\
  api_token (self w') = JStr "T9" /\
  license_token (self w') = JStr "L0".
Proof.
  pose proof (bootstrap_update_stops_midway
                (scripted [gw_ok (JObj [("checkForm", JStr "T9")])])
                (fun _ => 0%Q) (fun _ => 7) 0 None
                (start logged_in_client)
                (JObj [("error", JArr []);
                       ("results", JObj [("checkForm", JStr "T9")])])
                [] (JArr []) [("checkForm", JStr "T9")] (JStr "T9")
                eq_refl eq_refl eq_refl eq_refl eq_refl eq_refl) as H.
  destruct (_gw_api_call _ _ _ 1 "deezer.getUserData" None _) as [r w'].
  destruct H as (Hr & Ht & _ & Hl & _).
  repeat split; assumption.
Defined.

End SessionProps.

(** ** The chunk processor and the key *)

Module DecryptorProps.
Import Decryptor WindowFacts DecryptorFacts MirrorFacts.
Local Open Scope result_scope.

(** X7. A chunk shorter than one block comes out as it went in, at any
    index, without a call of the cipher: so also with a key that the
    cipher refuses. *)
Theorem short_chunk_unchanged
    (Blowfish_decrypt : bytes -> bytes -> bytes -> result bytes)
    (bf_key : bytes) (blocks_per_chunk : Z) (chunk : bytes)
    (chunk_index : Z) :
  (length chunk < block_size)%nat ->
  process_chunk Blowfish_decrypt bf_key blocks_per_chunk chunk chunk_index
  = Ok chunk.
Proof.
  intros Hlen. pose proof block_size_pos as Hpos.
  rewrite process_chunk_windows.
  pose proof (nwin_le_1 block_size Hpos (length chunk) ltac:(lia)) as Hn.
  destruct (nwin block_size (length chunk)) as [|[|n]] eqn:En; [| |lia].
  - assert (Hz : ~ (0 * block_size < length chunk)%nat).
    { rewrite <- (nwin_lt block_size Hpos). lia. }
    destruct chunk; [reflexivity | simpl in Hz; lia].
  - cbn [seq mapM]. unfold transform.
    assert (Hw : window block_size chunk 0 = chunk).
    { unfold window. cbn [Nat.mul skipn]. apply firstn_all2. lia. }
    rewrite Hw.
    replace (length chunk =? block_size)%nat with false
      by (symmetry; apply Nat.eqb_neq; lia).
    rewrite andb_false_r. cbn [bind concat]. now rewrite app_nil_r.
Qed.

Lemma short_chunk_unchanged_witness :
  process_chunk mirror_cipher [] 512 (sample_stream 2047) 0
  = Ok (sample_stream 2047).
Proof.
  apply short_chunk_unchanged. rewrite length_sample_stream.
  unfold block_size. apply Nat.lt_succ_diag_r.
Defined.

(** X8. Of [chunk_index * blocks_per_chunk] only the remainder modulo 3
    matters to the processor: two indices with the same remainder give the
    same output on every chunk; so do [chunk_index] and [chunk_index + 3],
    and any two indices when the blocks of a chunk are a multiple of 3. *)
Theorem chunk_phase_decides
    (Blowfish_decrypt : bytes -> bytes -> bytes -> result bytes)
    (bf_key : bytes) (blocks_per_chunk : Z) (chunk : bytes) :
  (forall i j,
     (i * blocks_per_chunk) mod 3 = (j * blocks_per_chunk) mod 3 ->
     process_chunk Blowfish_decrypt bf_key blocks_per_chunk chunk i =
     process_chunk Blowfish_decrypt bf_key blocks_per_chunk chunk j) /\
  (forall i,
     process_chunk Blowfish_decrypt bf_key blocks_per_chunk chunk (i + 3) =
     process_chunk Blowfish_decrypt bf_key blocks_per_chunk chunk i) /\
  (blocks_per_chunk mod 3 = 0 -> forall i j,
     process_chunk Blowfish_decrypt bf_key blocks_per_chunk chunk i =
     process_chunk Blowfish_decrypt bf_key blocks_per_chunk chunk j).
Proof.
  assert (H : forall i j,
     (i * blocks_per_chunk) mod 3 = (j * blocks_per_chunk) mod 3 ->
     process_chunk Blowfish_decrypt bf_key blocks_per_chunk chunk i =
     process_chunk Blowfish_decrypt bf_key blocks_per_chunk chunk j).
  { intros i j Hij. rewrite !process_chunk_windows.
    rewrite (mapM_ext _ (transform Blowfish_decrypt bf_key
                                   (j * blocks_per_chunk) chunk));
      [reflexivity|].
    intros k _. unfold transform. cbv zeta.
    rewrite (Z.add_mod (i * blocks_per_chunk)) by lia.
    rewrite (Z.add_mod (j * blocks_per_chunk)) by lia.
    now rewrite Hij. }
  split; [exact H|]. split.
  - intros i. apply H.
    replace ((i + 3) * blocks_per_chunk)
      with (i * blocks_per_chunk + blocks_per_chunk * 3) by lia.
    apply Z_mod_plus_full.
  - intros Hb i j. apply H.
    rewrite !(Z.mul_mod _ blocks_per_chunk) by lia.
    now rewrite Hb, !Z.mul_0_r.
Qed.

Lemma chunk_phase_decides_witness :
  process_chunk mirror_cipher sample_key 3 (sample_stream 4500) 7 =
  process_chunk mirror_cipher sample_key 3 (sample_stream 4500) 1.
Proof.
  apply (chunk_phase_decides mirror_cipher sample_key 3 (sample_stream 4500)).
  reflexivity.
Defined.

End DecryptorProps.

Module KeyProps.
Import Api KeyFacts.
Local Open Scope result_scope.

Lemma mapM_stops {A B} (f : A -> result B) (l1 l2 : list A) (x : A)
    (e : exn) :
  (forall y, In y l1 -> exists b, f y = Ok b) ->
  f x = Err e ->
  mapM f (l1 ++ x :: l2) = Err e.
Proof.
  intros Hl1 Hx. rewrite mapM_app.
  destruct (mapM_total f l1 Hl1) as [ys ->]. cbn [bind mapM].
  now rewrite Hx.
Qed.

Lemma hexdigest_encoded (msg : bytes) :
  exists digest,
    Codec.encode_ascii (MD5.hexdigest msg) = Ok digest /\
    length digest = 32%nat.
Proof.
  destruct (hexdigest_chars msg) as [H32 Hhex].
  exists (map byte_of_ascii (list_ascii_of_string (MD5.hexdigest msg))).
  split; [|now rewrite length_map].
  apply encode_ascii_Ok. eapply Forall_impl; [|exact Hhex].
  intros c. apply is_hex_ascii.
Qed.

Lemma index_beyond (b : bytes) (i : nat) :
  (length b <= i)%nat -> Codec.index b i = Err IndexError.
Proof.
  intros H. unfold Codec.index.
  now replace (nth_error b i) with (@None byte)
    by (symmetry; now apply nth_error_None).
Qed.

Lemma get_blowfish_key_long_secret (self : client) (track_id : string) :
  (16 <= length (bf_secret self))%nat ->
  exists key, get_blowfish_key self track_id = Ok key /\
              length key = 16%nat.
Proof.
  intros Hs. unfold get_blowfish_key.
  destruct (hexdigest_encoded (Codec.encode_utf8 track_id))
    as (digest & -> & H32). cbn [bind].
  set (g := fun i : nat =>
         Z.lxor (Z.lxor (Z.of_N (Byte.to_N (nth i digest x00)))
                        (Z.of_N (Byte.to_N (nth (i + 16) digest x00))))
                (Z.of_N (Byte.to_N (nth i (bf_secret self) x00)))).
  rewrite (mapM_ext _ (fun i => Ok (g i))).
  2:{ intros i Hi. apply in_seq in Hi.
      rewrite !index_Ok by lia. reflexivity. }
  rewrite mapM_Ok_map. cbn [bind].
  destruct (bytes_of_ints_Ok (map g (seq 0 16))) as (key & -> & Hmap).
  { apply Forall_map, Forall_forall. intros i _. unfold g.
    apply lxor_range; [apply lxor_range|]; apply byte_range. }
  exists key. split; [reflexivity|].
  apply (f_equal (@length Z)) in Hmap.
  now rewrite !length_map, length_seq in Hmap.
Qed.

Lemma get_blowfish_key_short_secret (self : client) (track_id : string) :
  (length (bf_secret self) < 16)%nat ->
  get_blowfish_key self track_id = Err IndexError.
Proof.
  intros Hs. unfold get_blowfish_key.
  destruct (hexdigest_encoded (Codec.encode_utf8 track_id))
    as (digest & -> & H32). cbn [bind].
  set (n := length (bf_secret self)) in *.
  replace (seq 0 16) with (seq 0 n ++ n :: seq (S n) (16 - S n))%list.
  2:{ change (n :: seq (S n) (16 - S n)) with (seq (0 + n) (S (16 - S n))).
      rewrite <- (seq_app n (S (16 - S n)) 0). f_equal. lia. }
  rewrite (mapM_stops _ _ _ _ IndexError); [reflexivity| |].
  - intros i Hi. apply in_seq in Hi.
    rewrite !index_Ok by (fold n; lia). cbn [bind]. eauto.
  - rewrite !index_Ok by lia. cbn [bind].
    rewrite index_beyond by (fold n; lia). reflexivity.
Qed.

(** X9. [get_blowfish_key] raises exactly when the secret of the client
    has fewer than 16 bytes, and then [IndexError], for every track; and it
    reads the first 16 bytes of the secret only. *)
Theorem get_blowfish_key_secret_length (self : client)
    (track_id : string) :
  (forall e, get_blowfish_key self track_id = Err e <->
             e = IndexError /\ (length (bf_secret self) < 16)%nat) /\
  (forall self',
     firstn 16 (bf_secret self') = firstn 16 (bf_secret self) ->
     get_blowfish_key self' track_id = get_blowfish_key self track_id).
Proof.
  split.
  - intros e. split.
    + intros H.
      destruct (Nat.lt_ge_cases (length (bf_secret self)) 16) as [Hs|Hs].
      * rewrite (get_blowfish_key_short_secret _ _ Hs) in H.
        injection H as <-. now split.
      * destruct (get_blowfish_key_long_secret self track_id Hs)
          as (key & Hk & _). congruence.
    + intros [-> Hs]. now apply get_blowfish_key_short_secret.
  - intros self' E. unfold get_blowfish_key.
    destruct (Codec.encode_ascii _) as [digest|e]; cbn [bind];
      [|reflexivity].
    erewrite mapM_ext; [reflexivity|]. intros i Hi. apply in_seq in Hi.
    cbv beta.
    assert (Hi' : forall b : bytes,
               Codec.index b i = Codec.index (firstn 16 b) i).
    { intros b. unfold Codec.index.
      now rewrite nth_error_firstn,
        (proj2 (Nat.ltb_lt i 16) ltac:(lia)). }
    rewrite (Hi' (bf_secret self')), (Hi' (bf_secret self)), E.
    reflexivity.
Qed.

(** X10. The constructor raises exactly when the secret has a character
    above 127, and then [UnicodeEncodeError]; otherwise the client holds
    one byte for each character of the secret, an empty token, no ARL and
    the format [MP3_128].  The length of the secret is not looked at: a
    client built from fewer than 16 characters raises [IndexError] at
    every key derivation, one built from 16 or more gives a key of 16
    bytes for every track. *)
Theorem init_accepts_ascii_of_any_length
    (client_id client_secret bf_secret track_url_key : string) :
  match __init__ client_id client_secret bf_secret track_url_key with
  | Err e =>
      e = UnicodeEncodeError /\
      Exists (fun c => (128 <= N_of_ascii c)%N)
             (list_ascii_of_string bf_secret)
  | Ok c =>
      Forall (fun c => (N_of_ascii c < 128)%N)
             (list_ascii_of_string bf_secret) /\
      Api.bf_secret c = map byte_of_ascii (list_ascii_of_string bf_secret) /\
      api_token c = JStr "" /\ _arl c = ""%string /\
      cookie_jar c = [] /\ available_formats c = ["MP3_128"%string] /\
      forall track_id,
        if (String.length bf_secret <? 16)%nat
        then get_blowfish_key c track_id = Err IndexError
        else exists key, get_blowfish_key c track_id = Ok key /\
                         length key = 16%nat
  end.
Proof.
  unfold __init__, Codec.encode_ascii.
  assert (H : forall l,
            match mapM (fun c => if (N_of_ascii c <? 128)%N
                                 then Ok (byte_of_ascii c)
                                 else Err UnicodeEncodeError) l with
            | Ok bs => Forall (fun c => (N_of_ascii c < 128)%N) l /\
                       bs = map byte_of_ascii l
            | Err e => e = UnicodeEncodeError /\
                       Exists (fun c => (128 <= N_of_ascii c)%N) l
            end).
  { induction l as [|c l IH]; cbn [mapM map]; [now split|].
    destruct (N.ltb_spec (N_of_ascii c) 128) as [Hc|Hc]; cbn [bind].
    - destruct (mapM _ l) as [bs|e]; cbn [bind].
      + destruct IH as [Hl ->]. split; [now constructor | reflexivity].
      + destruct IH as [-> Hl]. split; [reflexivity | now right].
    - split; [reflexivity | now left]. }
  specialize (H (list_ascii_of_string bf_secret)).
  destruct (mapM _ (list_ascii_of_string bf_secret)) as [bs|e];
    cbn [bind]; [|exact H].
  destruct H as [Hall ->].
  cbn [Api.bf_secret api_token _arl cookie_jar available_formats].
  repeat (split; [first [exact Hall | reflexivity]|]).
  intros track_id.
  match goal with
  | |- context [get_blowfish_key ?x _] => set (c := x)
  end.
  assert (Hlen : length (Api.bf_secret c) = String.length bf_secret).
  { unfold c. cbn [Api.bf_secret]. rewrite length_map. clear.
    induction bf_secret; simpl; congruence. }
  destruct (Nat.ltb_spec (String.length bf_secret) 16) as [Hs|Hs].
  - apply get_blowfish_key_short_secret. now rewrite Hlen.
  - apply get_blowfish_key_long_secret. now rewrite Hlen.
Qed.

Lemma get_blowfish_key_secret_length_witness :
  get_blowfish_key
    {| client_id := "app"; client_secret := "secret";
       bf_secret :=
         map byte_of_ascii (list_ascii_of_string "0123456789abcdefXYZ");
       track_url_key := ""; cookie_jar := []; api_token := JStr "";
       country := JStr ""; license_token := JStr ""; language := JStr "en";
       renew_timestamp := 0; available_formats := ["MP3_128"%string];
       _arl := "" |} "3135556"
  = get_blowfish_key sample_client "3135556".
Proof.
  apply (get_blowfish_key_secret_length sample_client "3135556").
  reflexivity.
Defined.

End KeyProps.
(** ** The catalogue calls *)

Module CatalogueFacts.
Import Api Frame ApiFacts Relations Catalogue.
Local Open Scope M_scope.
Local Open Scope string_scope.

Lemma sends_at_most_refl n w : sends_at_most n w w.
Proof. exists []. rewrite app_nil_r. repeat split. cbn. lia. Qed.

Lemma sends_at_most_trans n m w1 w2 w3 :
  sends_at_most n w1 w2 -> sends_at_most m w2 w3 ->
  sends_at_most (n + m) w1 w3.
Proof.
  intros (l1 & E1 & F1 & L1) (l2 & E2 & F2 & L2). exists (l1 ++ l2)%list.
  rewrite E2, E1, app_assoc, forallb_app, F1, F2, length_app.
  repeat split. lia.
Qed.

Lemma sends_at_most_weaken n m w w' :
  (n <= m)%nat -> sends_at_most n w w' -> sends_at_most m w w'.
Proof. intros H (l & E & F & L). exists l. repeat split; trivial. lia. Qed.

Lemma bounded_weaken {A} n k (m : M A) :
  (n <= k)%nat -> bounded n m -> bounded k m.
Proof.
  intros H Hm w. destruct (Hm w) as [Hs Ha]. split; [|exact Ha].
  now apply (sends_at_most_weaken n).
Qed.

Lemma bounded_bind {A B} n k (m : M A) (f : A -> M B) :
  bounded n m -> (forall a, bounded k (f a)) -> bounded (n + k) (bindM m f).
Proof.
  intros Hm Hf w. unfold bindM. destruct (Hm w) as [Hs Ha].
  destruct (m w) as [[a|e] w1]; cbn [snd] in *.
  - destruct (Hf a w1) as [Hs' Ha']. split.
    + eapply sends_at_most_trans; eassumption.
    + unfold same_arl in *. congruence.
  - split; [|exact Ha]. apply (sends_at_most_weaken n); [lia | exact Hs].
Qed.

Lemma bounded_pure {A} (m : M A) :
  (forall w, snd (m w) = w) -> bounded 0 m.
Proof.
  intros H w. rewrite H. split; [apply sends_at_most_refl | reflexivity].
Qed.

Lemma bounded_lift {A} (r : result A) : bounded 0 (lift r).
Proof. now apply bounded_pure. Qed.

Lemma bounded_ret {A} (a : A) : bounded 0 (ret a).
Proof. now apply bounded_pure. Qed.

Lemma bounded_raise {A} (e : exn) : bounded 0 (@raise A e).
Proof. now apply bounded_pure. Qed.

Lemma bounded_read : bounded 0 read.
Proof. now apply bounded_pure. Qed.

Lemma bounded_try {A} n k (m : M A) (handler : exn -> option (M A)) :
  bounded n m ->
  (forall e h, handler e = Some h -> bounded k h) ->
  bounded (n + k) (try_except m handler).
Proof.
  intros Hm Hh w. unfold try_except. destruct (Hm w) as [Hs Ha].
  destruct (m w) as [[a|e] w1]; cbn [snd] in *.
  - split; [|exact Ha]. apply (sends_at_most_weaken n); [lia | exact Hs].
  - destruct (handler e) as [h|] eqn:E; cbn [snd].
    + destruct (Hh e h E w1) as [Hs' Ha']. split.
      * eapply sends_at_most_trans; eassumption.
      * unfold same_arl in *. congruence.
    + split; [|exact Ha]. apply (sends_at_most_weaken n); [lia | exact Hs].
Qed.

Section Env.
Variable network : list request -> outcome.
Variable clock : nat -> Q.
Variable random : nat -> Z.
Variable str_of_error : exn -> string.

Local Abbreviation gw_request := (gw_request network clock random).
Local Abbreviation _gw_api_call := (_gw_api_call network clock random).
Local Abbreviation gw_post_of := (gw_post_of random).

Lemma gw_call_bounded depth method payload :
  bounded 2 (_gw_api_call depth method payload).
Proof.
  intros w. split;
    [|apply (SessionProps.gw_call_same_arl network clock random)].
  destruct depth as [|depth].
  - apply sends_at_most_refl.
  - rewrite gw_call_unfold. destruct (relogin_due method w).
    + destruct depth as [|depth]; [apply sends_at_most_refl|].
      rewrite gw_call_bootstrap. cbn [default_payload].
      pose proof (gw_request_sent network clock random "deezer.getUserData"
                    (JObj []) w) as Hs1.
      destruct (gw_request "deezer.getUserData" (JObj []) w)
        as [[v|e] w1]; cbn [snd] in Hs1.
      * pose proof (gw_request_sent network clock random method
                      (default_payload payload) w1) as Hs2.
        exists [gw_post_of "deezer.getUserData" (JObj []) w;
                gw_post_of method (default_payload payload) w1].
        rewrite Hs2, Hs1, <- app_assoc. repeat split. cbn. lia.
      * exists [gw_post_of "deezer.getUserData" (JObj []) w].
        cbn [snd]. rewrite Hs1. repeat split. cbn. lia.
    + exists [gw_post_of method (default_payload payload) w].
      rewrite gw_request_sent. repeat split. cbn. lia.
Qed.

(** A call by a client that holds a token, for a method other than the
    bootstrap: one request, and the answer read in the response. *)
Lemma gw_call_run depth method payload w :
  truthy (api_token (self w)) = true ->
  method <> "deezer.getUserData" ->
  _gw_api_call (S depth) method payload w =
  let w1 := log (gw_post_of method (default_payload payload) w) (roll w) in
  match network (sent w1) with
  | Reply body set_cookies =>
      (gw_answer method body, receive set_cookies w1)
  | Unreachable => (Err ClientError, w1)
  | Malformed => (Err DecodeError, w1)
  end.
Proof.
  intros Htok Hm. rewrite gw_call_unfold. unfold relogin_due.
  rewrite Htok. cbn [negb andb]. now apply gw_request_other.
Qed.

End Env.
End CatalogueFacts.

Module CatalogueProps.
Import Api Frame ApiFacts Relations Catalogue CatalogueFacts.
Local Open Scope M_scope.
Local Open Scope string_scope.

Section Env.
Variable network : list request -> outcome.
Variable clock : nat -> Q.
Variable random : nat -> Z.
Variable str_of_error : exn -> string.

Local Abbreviation _gw_api_call := (_gw_api_call network clock random).
Local Abbreviation get_album :=
  (get_album network clock random str_of_error).
Local Abbreviation album_fallback :=
  (album_fallback network clock random str_of_error).

Lemma album_fallback_bounded depth album_id e :
  bounded 4 (album_fallback depth album_id e).
Proof.
  unfold Catalogue.album_fallback.
  destruct (is_substring "FALLBACK" (str_of_error e));
    [|apply (bounded_weaken 0); [lia | apply bounded_raise]].
  apply (bounded_bind 2 2); [apply gw_call_bounded | intros fd].
  apply (bounded_bind 0 2); [apply bounded_lift | intros found].
  destruct found; [|apply (bounded_weaken 0); [lia | apply bounded_raise]].
  apply (bounded_bind 0 2); [apply bounded_lift | intros alb].
  apply (bounded_bind 0 2); [apply bounded_read | intros c].
  apply gw_call_bounded.
Qed.

(** X11. Whatever the services answer and however it ends, [get_album]
    adds at most six requests to those sent (three calls, each with one
    relogin at most), all of them to the gateway, and keeps the stored
    ARL: the fallback is followed once, not again when the fallback album
    has a fallback of its own. *)
Theorem get_album_sends_at_most_six depth album_id w :
  let w' := snd (get_album depth album_id w) in
  (exists new,
     sent w' = (sent w ++ new)%list /\
     forallb is_gw new = true /\ (length new <= 6)%nat) /\
  _arl (self w') = _arl (self w).
Proof.
  assert (H : bounded 6 (get_album depth album_id)).
  { unfold Catalogue.get_album.
    apply (bounded_bind 0 6); [apply bounded_read | intros c].
    apply (bounded_try 2 4); [apply gw_call_bounded|].
    intros e h E. destruct e; try discriminate E.
    injection E as <-. apply album_fallback_bounded. }
  exact (H w).
Qed.


Lemma gw_post_of_other method payload w :
  is_auth_method method = false ->
  gw_post_of random method payload w =
  GwPost method (api_token (self w)) (random (rolls w)) payload
         (cookie_jar (self w)).
Proof. intros H. unfold gw_post_of. now rewrite H. Qed.

Lemma gw_answer_error method body error_type error_msg rest :
  get body "error" = Ok (JObj ((error_type, error_msg) :: rest)) ->
  gw_answer method body =
  Err (ModuleAPIError 400 error_type error_msg method "deezer").
Proof. intros H. unfold gw_answer. now rewrite H. Qed.

Lemma contains_of_getitem v k x :
  getitem v k = Ok x -> contains v k = Ok true.
Proof.
  destruct v; try discriminate. cbn.
  destruct (lookup k fields); [reflexivity | discriminate].
Qed.

(** A call by a client that holds a token, when the service answers. *)
Lemma gw_call_reply depth method payload w body set_cookies :
  let req := GwPost method (api_token (self w)) (random (rolls w))
                    (default_payload payload) (cookie_jar (self w)) in
  truthy (api_token (self w)) = true ->
  is_auth_method method = false ->
  network (sent w ++ [req]) = Reply body set_cookies ->
  _gw_api_call (S depth) method payload w =
  (gw_answer method body, receive set_cookies (log req (roll w))).
Proof.
  intros req Htok Hm H.
  rewrite gw_call_run; [|exact Htok|intros ->; discriminate Hm].
  cbv zeta. rewrite gw_post_of_other by exact Hm. fold req.
  change (sent (log req (roll w))) with (sent w ++ [req])%list.
  now rewrite H.
Qed.

(** The first call of [get_album] by a client that holds a token, when
    the response carries an error. *)
Lemma album_first_call depth album_id w body1 cs1 error_type error_msg rest :
  let req1 := GwPost "deezer.pageAlbum" (api_token (self w))
                     (random (rolls w))
                     (album_payload (JStr album_id) (language (self w)))
                     (cookie_jar (self w)) in
  truthy (api_token (self w)) = true ->
  network (sent w ++ [req1]) = Reply body1 cs1 ->
  get body1 "error" = Ok (JObj ((error_type, error_msg) :: rest)) ->
  get_album (S depth) album_id w =
  album_fallback (S depth) album_id
    (ModuleAPIError 400 error_type error_msg "deezer.pageAlbum" "deezer")
    (receive cs1 (log req1 (roll w))).
Proof.
  intros req1 Htok H1 Herr. unfold Catalogue.get_album.
  unfold bindM at 1. cbn [read]. unfold try_except.
  rewrite (gw_call_reply depth "deezer.pageAlbum"
             (Some (album_payload (JStr album_id) (language (self w))))
             w body1 cs1 Htok eq_refl H1).
  now rewrite (gw_answer_error _ _ _ _ _ Herr).
Qed.

(** X12. A client that holds a token asks for an album and gets an error
    whose text has [FALLBACK] in it; the data of the album name a
    fallback album.  Then [get_album] has sent three requests: the page
    of the album, its data, and the page of the fallback album, with the
    identifier read in the data, in the language and with the token of
    the first request; and it ends as this third call does. *)
Theorem get_album_follows_fallback depth album_id w body1 cs1
    error_type error_msg rest body2 cs2 fallback_data fallback alb_id :
  let lang := language (self w) in
  let token := api_token (self w) in
  let e := ModuleAPIError 400 error_type error_msg "deezer.pageAlbum"
                          "deezer" in
  let req1 := GwPost "deezer.pageAlbum" token (random (rolls w))
                     (album_payload (JStr album_id) lang)
                     (cookie_jar (self w)) in
  let jar1 := update_cookies cs1 (cookie_jar (self w)) in
  let req2 := GwPost "album.getData" token (random (S (rolls w)))
                     (JObj [("alb_id", JStr album_id)]) jar1 in
  let jar2 := update_cookies cs2 jar1 in
  let req3 := GwPost "deezer.pageAlbum" token (random (S (S (rolls w))))
                     (album_payload alb_id lang) jar2 in
  truthy token = true ->
  network (sent w ++ [req1]) = Reply body1 cs1 ->
  get body1 "error" = Ok (JObj ((error_type, error_msg) :: rest)) ->
  is_substring "FALLBACK" (str_of_error e) = true ->
  network (sent w ++ [req1; req2]) = Reply body2 cs2 ->
  gw_answer "album.getData" body2 = Ok fallback_data ->
  getitem fallback_data "FALLBACK" = Ok fallback ->
  getitem fallback "ALB_ID" = Ok alb_id ->
  let '(r, w') := get_album (S depth) album_id w in
  sent w' = (sent w ++ [req1; req2; req3])%list /\
  r = match network (sent w') with
      | Reply body3 _ => gw_answer "deezer.pageAlbum" body3
      | Unreachable => Err ClientError
      | Malformed => Err DecodeError
      end.
Proof.
  intros lang token e req1 jar1 req2 jar2 req3 Htok H1 Herr Hsub H2 Hfd
         Hfb Halb.
  subst lang token.
  rewrite (album_first_call depth album_id w body1 cs1 _ _ _ Htok H1 Herr).
  fold e req1. unfold Catalogue.album_fallback. rewrite Hsub.
  change (sent w ++ [req1; req2])%list
    with (sent w ++ [req1] ++ [req2])%list in H2.
  rewrite app_assoc in H2.
  unfold bindM at 1.
  rewrite (gw_call_reply depth "album.getData"
             (Some (JObj [("alb_id", JStr album_id)]))
             (receive cs1 (log req1 (roll w))) body2 cs2 Htok eq_refl H2).
  rewrite Hfd.
  rewrite (bind_lift_Ok _ true)
    by (now apply (contains_of_getitem _ _ fallback)).
  rewrite (bind_lift_Ok _ alb_id) by (now rewrite Hfb).
  unfold bindM at 1. cbn [read].
  rewrite gw_call_run by (trivial; discriminate). cbv zeta.
  rewrite gw_post_of_other by reflexivity.
  match goal with
  | |- context [log ?r (roll ?w2)] =>
      change r with req3;
      assert (Hs : sent (log req3 (roll w2))
                   = (sent w ++ [req1; req2; req3])%list)
        by (change (sent (log req3 (roll w2)))
              with (((sent w ++ [req1]) ++ [req2]) ++ [req3])%list;
            now rewrite <- !app_assoc);
      destruct (network (sent (log req3 (roll w2)))) as [body3 cs3| |] eqn:E3
  end.
  - change (sent (receive cs3 ?x)) with (sent x). rewrite E3, Hs. now split.
  - rewrite E3, Hs. now split.
  - rewrite E3, Hs. now split.
Qed.

(** X13. When the fallback is not there, [get_album] raises the error of
    its first call: after one request when the text of the error has no
    [FALLBACK] in it, after two when it has but the data of the album
    name no fallback album. *)
Theorem get_album_reraises_first_error depth album_id w body1 cs1
    error_type error_msg rest :
  let lang := language (self w) in
  let token := api_token (self w) in
  let e := ModuleAPIError 400 error_type error_msg "deezer.pageAlbum"
                          "deezer" in
  let req1 := GwPost "deezer.pageAlbum" token (random (rolls w))
                     (album_payload (JStr album_id) lang)
                     (cookie_jar (self w)) in
  let req2 := GwPost "album.getData" token (random (S (rolls w)))
                     (JObj [("alb_id", JStr album_id)])
                     (update_cookies cs1 (cookie_jar (self w))) in
  truthy token = true ->
  network (sent w ++ [req1]) = Reply body1 cs1 ->
  get body1 "error" = Ok (JObj ((error_type, error_msg) :: rest)) ->
  let '(r, w') := get_album (S depth) album_id w in
  (is_substring "FALLBACK" (str_of_error e) = false ->
   r = Err e /\ sent w' = (sent w ++ [req1])%list) /\
  (is_substring "FALLBACK" (str_of_error e) = true ->
   forall body2 cs2 fallback_data,
     network (sent w ++ [req1; req2]) = Reply body2 cs2 ->
     gw_answer "album.getData" body2 = Ok fallback_data ->
     contains fallback_data "FALLBACK" = Ok false ->
     r = Err e /\ sent w' = (sent w ++ [req1; req2])%list).
Proof.
  intros lang token e req1 req2 Htok H1 Herr.
  subst lang token.
  rewrite (album_first_call depth album_id w body1 cs1 _ _ _ Htok H1 Herr).
  fold e req1. unfold Catalogue.album_fallback.
  destruct (is_substring "FALLBACK" (str_of_error e)).
  - match goal with
    | |- let '(r, w') := ?m in _ => destruct m as [r w'] eqn:E
    end.
    split; [discriminate|]. intros _ body2 cs2 fallback_data H2 Hfd Hc.
    change (sent w ++ [req1; req2])%list
      with (sent w ++ [req1] ++ [req2])%list in H2.
    rewrite app_assoc in H2.
    unfold bindM at 1 in E.
    rewrite (gw_call_reply depth "album.getData"
               (Some (JObj [("alb_id", JStr album_id)]))
               (receive cs1 (log req1 (roll w))) body2 cs2 Htok eq_refl H2)
      in E.
    rewrite Hfd in E. rewrite (bind_lift_Ok _ false) in E by exact Hc.
    injection E as <- <-.
    split; [reflexivity|].
    change (sent w ++ [req1; req2])%list
      with (sent w ++ [req1] ++ [req2])%list.
    now rewrite app_assoc.
  - split; [|discriminate]. intros _. now split.
Qed.

End Env.

Lemma get_album_follows_fallback_witness :
  fst (get_album
         (scripted [Reply (JObj [("error",
                                  JObj [("FALLBACK", JStr "moved")])]) [];
                    gw_ok (JObj [("FALLBACK",
                                  JObj [("ALB_ID", JStr "77")])]);
                    gw_ok (JObj [("DATA", JObj [])])])
         (fun _ => 0%Q) (fun _ => 7)
         (fun e => match e with
                   | ModuleAPIError _ error_type _ _ _ => error_type
                   | _ => ""
                   end)
         1 "55" (start logged_in_client))
  = Ok (JObj [("DATA", JObj [])]).
Proof.
  pose proof (get_album_follows_fallback
                (scripted [Reply (JObj [("error",
                                         JObj [("FALLBACK", JStr "moved")])])
                                 [];
                           gw_ok (JObj [("FALLBACK",
                                         JObj [("ALB_ID", JStr "77")])]);
                           gw_ok (JObj [("DATA", JObj [])])])
                (fun _ => 0%Q) (fun _ => 7)
                (fun e => match e with
                          | ModuleAPIError _ error_type _ _ _ => error_type
                          | _ => ""
                          end)
                0 "55" (start logged_in_client)
                (JObj [("error", JObj [("FALLBACK", JStr "moved")])]) []
                "FALLBACK" (JStr "moved") []
                (JObj [("error", JArr []);
                       ("results",
                        JObj [("FALLBACK", JObj [("ALB_ID", JStr "77")])])])
                []
                (JObj [("FALLBACK", JObj [("ALB_ID", JStr "77")])])
                (JObj [("ALB_ID", JStr "77")]) (JStr "77")
                eq_refl eq_refl eq_refl eq_refl eq_refl eq_refl eq_refl
                eq_refl) as H.
  cbv zeta in H.
  destruct (get_album _ _ _ _ 1 "55" _) as [r w'].
  destruct H as [Hs Hr]. rewrite Hs in Hr. exact Hr.
Defined.

Lemma get_album_reraises_first_error_witness :
  fst (get_album
         (scripted [Reply (JObj [("error",
                                  JObj [("DATA_ERROR", JStr "gone")])]) []])
         (fun _ => 0%Q) (fun _ => 7)
         (fun e => match e with
                   | ModuleAPIError _ error_type _ _ _ => error_type
                   | _ => ""
                   end)
         1 "55" (start logged_in_client))
  = Err (ModuleAPIError 400 "DATA_ERROR" (JStr "gone") "deezer.pageAlbum"
                        "deezer").
Proof.
  pose proof (get_album_reraises_first_error
                (scripted [Reply (JObj [("error",
                                         JObj [("DATA_ERROR", JStr "gone")])])
                                 []])
                (fun _ => 0%Q) (fun _ => 7)
                (fun e => match e with
                          | ModuleAPIError _ error_type _ _ _ => error_type
                          | _ => ""
                          end)
                0 "55" (start logged_in_client)
                (JObj [("error", JObj [("DATA_ERROR", JStr "gone")])]) []
                "DATA_ERROR" (JStr "gone") []
                eq_refl eq_refl eq_refl) as H.
  cbv zeta in H.
  destruct (get_album _ _ _ _ 1 "55" _) as [r w'].
  exact (proj1 (proj1 H eq_refl)).
Defined.

End CatalogueProps.

Module DownloadProps.
Import Api Decryptor WindowFacts DecryptorFacts MirrorFacts KeyProps
       Catalogue.
Local Open Scope result_scope.

Lemma default_chunk_blocks :
  Z.to_nat 1048576 = (Z.to_nat 512 * block_size)%nat.
Proof.
  rewrite <- (Nat2Z.id block_size), block_size_Z, <- Z2Nat.inj_mul by lia.
  reflexivity.
Qed.

Lemma create_default
    (Blowfish_decrypt : bytes -> bytes -> bytes -> result bytes)
    (bf_key : bytes) :
  _create_blowfish_decryptor Blowfish_decrypt bf_key 1048576
  = Ok (process_chunk Blowfish_decrypt bf_key 512).
Proof.
  unfold _create_blowfish_decryptor. rewrite block_size_Z. reflexivity.
Qed.

(** X14. [download_and_decrypt_track] raises [IndexError] without a call
    of [download_file] when the secret of the client has fewer than 16
    bytes.  Otherwise the chunk size 1048576 passes the check of the
    decryptor, and [download_file] gets this size and the processor of the
    key of the track for 512 blocks in a chunk.  Run on the chunks of
    1048576 bytes of a stream, this processor gives what it gives on the
    stream in one piece: a stream of the same length whose block [k] is
    the block [k] of the input, deciphered when [k] is a multiple of 3 and
    the block is full. *)
Theorem download_hands_over_track_processor
    (Blowfish_decrypt : bytes -> bytes -> bytes -> result bytes)
    (download_file :
       string -> string -> (bytes -> Z -> result bytes) -> Z -> result unit)
    (self : client) (track_id url output_path : string) :
  ((length (bf_secret self) < 16)%nat ->
   download_and_decrypt_track Blowfish_decrypt download_file self track_id
                              url output_path = Err IndexError) /\
  ((16 <= length (bf_secret self))%nat ->
   exists bf_key,
     let chunk_processor := process_chunk Blowfish_decrypt bf_key 512 in
     get_blowfish_key self track_id = Ok bf_key /\
     download_and_decrypt_track Blowfish_decrypt download_file self
                                track_id url output_path
     = download_file url output_path chunk_processor 1048576 /\
     forall stream,
       process_stream chunk_processor
                      (split_stream (Z.to_nat 1048576) stream) 0
       = chunk_processor stream 0 /\
       (keeps_length Blowfish_decrypt ->
        forall out, chunk_processor stream 0 = Ok out ->
          length out = length stream /\
          forall k, (k * block_size < length stream)%nat ->
            let block := window block_size stream k in
            if (Z.of_nat k mod 3 =? 0) && (length block =? block_size)%nat
            then Blowfish_decrypt bf_key iv block
                 = Ok (window block_size out k)
            else window block_size out k = block)).
Proof.
  split.
  - intros Hs. unfold download_and_decrypt_track.
    now rewrite (get_blowfish_key_short_secret self track_id Hs).
  - intros Hs.
    destruct (get_blowfish_key_long_secret self track_id Hs)
      as (bf_key & Hk & _).
    exists bf_key. cbv zeta. split; [exact Hk|]. split.
    { unfold download_and_decrypt_track. rewrite Hk. cbn [bind].
      now rewrite create_default. }
    intros stream. split.
    + rewrite default_chunk_blocks.
      rewrite <- (Z2Nat.id 512) at 1 2 by lia.
      rewrite process_stream_concat.
      * rewrite concat_split_stream; [reflexivity|].
        pose proof block_size_pos. nia.
      * apply blocks_shape_split. pose proof block_size_pos. nia.
    + intros Hkeep out Hout.
      destruct (process_chunk_layout Blowfish_decrypt bf_key 512 stream 0
                  out Hkeep Hout) as [Hlen Hblocks].
      split; [exact Hlen|]. intros k Hk'.
      specialize (Hblocks k
        (proj2 (nwin_lt block_size block_size_pos k (length stream)) Hk')).
      unfold transform in Hblocks. cbv zeta in Hblocks |- *.
      change (0 * 512 + Z.of_nat k) with (Z.of_nat k) in Hblocks.
      destruct ((Z.of_nat k mod 3 =? 0)
                && (length (window block_size stream k) =? block_size)%nat).
      * exact Hblocks.
      * now injection Hblocks as <-.
Qed.

Lemma download_hands_over_track_processor_witness :
  download_and_decrypt_track mirror_cipher (fun _ _ _ _ => Ok tt)
                             sample_client "3135556" "u" "p"
  = Ok tt.
Proof.
  destruct (proj2 (download_hands_over_track_processor
                     mirror_cipher (fun _ _ _ _ => Ok tt) sample_client
                     "3135556" "u" "p"))
    as (bf_key & _ & H & _).
  - cbn. apply Nat.le_refl.
  - exact H.
Defined.

End DownloadProps.

(** ** The module interface *)

Module InterfaceProps.
Import Api Catalogue Interface.
Local Open Scope string_scope.
Local Open Scope result_scope.

Lemma first_available_find fields formats :
  first_available (JObj fields) formats
  = Ok (find (has_file fields) formats).
Proof.
  induction formats as [|fmt rest IH]; [reflexivity|].
  cbn [first_available find]. unfold has_file at 1.
  cbn [get_default].
  destruct (lookup ("FILESIZE_" ++ fmt) fields) as [size|]; cbn [bind].
  - destruct (differs_from_0 size); [reflexivity | exact IH].
  - exact IH.
Qed.

Lemma find_available_candidates track_data target_format :
  _find_available_format track_data target_format
  = first_available track_data (candidates target_format).
Proof.
  unfold _find_available_format, candidates.
  now destruct (list_index target_format formats_priority).
Qed.

Lemma candidates_cases target_format :
  candidates target_format = ["FLAC"; "MP3_320"; "MP3_128"] \/
  (target_format = "MP3_320" /\
   candidates target_format = ["MP3_320"; "MP3_128"]) \/
  (target_format = "MP3_128" /\ candidates target_format = ["MP3_128"]).
Proof.
  unfold candidates, formats_priority. cbn [list_index].
  destruct ("FLAC" =? target_format); [now left|].
  destruct ("MP3_320" =? target_format) eqn:E1.
  { apply String.eqb_eq in E1. right; left. now subst. }
  destruct ("MP3_128" =? target_format) eqn:E2.
  { apply String.eqb_eq in E2. right; right. now subst. }
  now left.
Qed.

(** X15. On a [dict], [_find_available_format] returns the first format
    with a file among the target and the formats after it in the order
    FLAC, MP3_320, MP3_128, or [None] when there is none; a target that
    is not in this list counts as FLAC.  A file is there when the entry
    [FILESIZE_<format>] is there and is anything but the string ["0"].
    On anything that is not a [dict] it raises [AttributeError]. *)
Theorem find_available_format_first_with_file
    (track_data : json) (target_format : string) :
  match track_data with
  | JObj fields =>
      _find_available_format track_data target_format
      = Ok (find (has_file fields) (candidates target_format))
  | _ =>
      _find_available_format track_data target_format = Err AttributeError
  end /\
  (list_index target_format formats_priority = None ->
   _find_available_format track_data target_format
   = _find_available_format track_data "FLAC").
Proof.
  split.
  - rewrite find_available_candidates.
    destruct track_data; try apply first_available_find;
      destruct (candidates_cases target_format) as [->|[[_ ->]|[_ ->]]];
      reflexivity.
  - intros H. rewrite !find_available_candidates. unfold candidates.
    now rewrite H.
Qed.

Lemma find_available_format_first_with_file_witness :
  _find_available_format (JObj [("FILESIZE_MP3_320", JStr "700")])
                         "MP3_MISC"
  = _find_available_format (JObj [("FILESIZE_MP3_320", JStr "700")]) "FLAC".
Proof.
  apply (proj2 (find_available_format_first_with_file
                  (JObj [("FILESIZE_MP3_320", JStr "700")]) "MP3_MISC")).
  reflexivity.
Defined.

(** X16. [_find_available_format] never returns a format before the
    target in the order FLAC, MP3_320, MP3_128: the format it returns has
    a file, and no format from the target to it has one. *)
Theorem find_available_format_never_better
    (fields : list (string * json)) (target_format fmt : string) (i : nat) :
  list_index target_format formats_priority = Some i ->
  _find_available_format (JObj fields) target_format = Ok (Some fmt) ->
  exists j,
    list_index fmt formats_priority = Some j /\ (i <= j)%nat /\
    has_file fields fmt = true /\
    forall other k,
      list_index other formats_priority = Some k ->
      (i <= k < j)%nat -> has_file fields other = false.
Proof.
  intros Hi H. rewrite find_available_candidates, first_available_find in H.
  injection H as H. unfold candidates in H. rewrite Hi in H.
  assert (Hrank : forall other k,
            list_index other formats_priority = Some k ->
            nth_error formats_priority k = Some other).
  { intros other k. unfold formats_priority. cbn [list_index].
    destruct ("FLAC" =? other) eqn:E0.
    { apply String.eqb_eq in E0. intros [= <-]. now subst. }
    destruct ("MP3_320" =? other) eqn:E1.
    { apply String.eqb_eq in E1. intros [= <-]. now subst. }
    destruct ("MP3_128" =? other) eqn:E2.
    { apply String.eqb_eq in E2. intros [= <-]. now subst. }
    discriminate. }
  pose proof (Hrank _ _ Hi) as Ht.
  assert (Hother : forall other k v,
            list_index other formats_priority = Some k ->
            nth_error formats_priority k = Some v -> other = v).
  { intros other k v Hk Hv. apply Hrank in Hk. congruence. }
  unfold formats_priority in Ht.
  destruct i as [|[|[|i]]]; cbn [nth_error] in Ht;
    try discriminate; try (destruct i; discriminate);
    cbn [skipn formats_priority find] in H.
  - destruct (has_file fields "FLAC") eqn:F0.
    { injection H as <-. exists 0%nat. repeat split; trivial. intros; lia. }
    destruct (has_file fields "MP3_320") eqn:F1.
    { injection H as <-. exists 1%nat. repeat split; trivial; [lia|].
      intros other k Hk Hr. assert (k = 0)%nat as -> by lia.
      now rewrite (Hother _ _ "FLAC" Hk eq_refl). }
    destruct (has_file fields "MP3_128") eqn:F2; [|discriminate].
    injection H as <-. exists 2%nat. repeat split; trivial; [lia|].
    intros other k Hk Hr.
    destruct k as [|[|k]]; [| |lia].
    + now rewrite (Hother _ _ "FLAC" Hk eq_refl).
    + now rewrite (Hother _ _ "MP3_320" Hk eq_refl).
  - destruct (has_file fields "MP3_320") eqn:F1.
    { injection H as <-. exists 1%nat. repeat split; trivial. intros; lia. }
    destruct (has_file fields "MP3_128") eqn:F2; [|discriminate].
    injection H as <-. exists 2%nat. repeat split; trivial; [lia|].
    intros other k Hk Hr. assert (k = 1)%nat as -> by lia.
    now rewrite (Hother _ _ "MP3_320" Hk eq_refl).
  - destruct (has_file fields "MP3_128") eqn:F2; [|discriminate].
    injection H as <-. exists 2%nat. repeat split; trivial. intros; lia.
Qed.

Lemma find_available_format_never_better_witness :
  exists j,
    list_index "MP3_128" formats_priority = Some j /\ (1 <= j)%nat.
Proof.
  destruct (find_available_format_never_better
              [("FILESIZE_FLAC", JStr "900"); ("FILESIZE_MP3_320", JStr "0");
               ("FILESIZE_MP3_128", JStr "300")]
              "MP3_320" "MP3_128" 1 eq_refl eq_refl)
    as (j & Hj & Hle & _).
  exists j. split; [exact Hj | exact Hle].
Defined.

Lemma final_format_in_priority fields audio_format :
  In (final_format_of fields audio_format) formats_priority /\
  match find (has_file fields) (candidates audio_format) with
  | Some fmt => if fmt =? "" then "MP3_128" else fmt
  | None => "MP3_128"
  end = final_format_of fields audio_format.
Proof.
  unfold final_format_of, formats_priority.
  destruct (candidates_cases audio_format) as [->|[[_ ->]|[_ ->]]];
    cbn [find];
    repeat match goal with
           | |- context [has_file fields ?f] => destruct (has_file fields f)
           end;
    cbn; auto.
Qed.

Lemma check_catalogue_inv repr_of api t_data audio_format fmt err :
  _check_track_availability repr_of api t_data audio_format false
  = Ok (fmt, err) ->
  exists fields,
    t_data = JObj fields /\
    fmt = final_format_of fields audio_format /\
    (err = None ->
     existsb (String.eqb fmt) (available_formats api) = true).
Proof.
  unfold _check_track_availability.
  rewrite find_available_candidates.
  destruct t_data as [| | | | |fields];
    try (destruct (candidates_cases audio_format) as [->|[[_ ->]|[_ ->]]];
         discriminate).
  rewrite first_available_find. cbn [bind].
  rewrite (proj2 (final_format_in_priority fields audio_format)).
  intros H. exists fields. split; [reflexivity|].
  destruct (get_default (JObj fields) "AVAILABLE_COUNTRIES" (JObj []))
    as [ac|]; [cbn [bind] in H | discriminate H].
  destruct (get_default ac "STREAM_ADS" (JArr [])) as [countries|];
    [cbn [bind] in H | discriminate H].
  destruct (if truthy countries
            then here <- py_in (country api) countries ;; Ok (negb here)
            else Ok false) as [elsewhere|];
    [cbn [bind] in H | discriminate H].
  destruct elsewhere.
  - injection H as <- <-. split; [reflexivity | discriminate].
  - destruct (existsb _ (available_formats api)) eqn:E; cbn [negb] in H;
      injection H as <- <-; split; trivial; discriminate.
Qed.

(** X17. For a track of the catalogue, [_check_track_availability]
    returns a result only on a [dict]; the format is then the first format
    with a file from the requested one on, or MP3_128 when no format has a
    file: one of FLAC, MP3_320, MP3_128, and never one before the
    requested format in this order.  No error is reported only if the
    subscription of the client has this format. *)
Theorem check_availability_of_catalogue_track
    (repr_of : json -> string) (api : client) (t_data : json)
    (audio_format fmt : string) (err : option string) :
  _check_track_availability repr_of api t_data audio_format false
  = Ok (fmt, err) ->
  exists fields,
    t_data = JObj fields /\
    fmt = match find (has_file fields) (candidates audio_format) with
          | Some found => found
          | None => "MP3_128"
          end /\
    In fmt formats_priority /\
    (forall i, list_index audio_format formats_priority = Some i ->
       exists j, list_index fmt formats_priority = Some j /\ (i <= j)%nat) /\
    (err = None -> In fmt (available_formats api)).
Proof.
  intros H. apply check_catalogue_inv in H as (fields & -> & -> & Herr).
  exists fields. split; [reflexivity|]. split; [reflexivity|].
  split; [apply final_format_in_priority|]. split.
  - intros i Hi. unfold final_format_of, candidates. rewrite Hi.
    unfold formats_priority in *. cbn [list_index] in Hi.
    destruct ("FLAC" =? audio_format).
    { injection Hi as <-. cbn [skipn find].
      repeat match goal with
             | |- context [has_file fields ?f] => destruct (has_file fields f)
             end;
        cbn; eexists; (split; [reflexivity | lia]). }
    destruct ("MP3_320" =? audio_format).
    { injection Hi as <-. cbn [skipn find].
      repeat match goal with
             | |- context [has_file fields ?f] => destruct (has_file fields f)
             end;
        cbn; eexists; (split; [reflexivity | lia]). }
    destruct ("MP3_128" =? audio_format); [|discriminate].
    injection Hi as <-. cbn [skipn find].
    repeat match goal with
           | |- context [has_file fields ?f] => destruct (has_file fields f)
           end;
      cbn; eexists; (split; [reflexivity | lia]).
  - intros He. specialize (Herr He). apply existsb_exists in Herr.
    destruct Herr as (x & Hx & E). apply String.eqb_eq in E. now subst.
Qed.

Lemma check_availability_of_catalogue_track_witness :
  In "MP3_128" formats_priority.
Proof.
  destruct (check_availability_of_catalogue_track
              (fun _ => "") logged_in_client
              (JObj [("FILESIZE_FLAC", JStr "0");
                     ("FILESIZE_MP3_128", JStr "300")])
              "FLAC" "MP3_128" None eq_refl)
    as (fields & _ & _ & H & _).
  exact H.
Defined.

(** X18. For a track uploaded by a user, [_check_track_availability]
    looks at the rights of the track only, not at the client: the format
    comes back as it was given, and there is no error exactly when the
    entry [STREAM_ADS_AVAILABLE] of [RIGHTS] is true; a track without
    [RIGHTS] is refused. *)
Theorem check_availability_of_uploaded_track
    (repr_of : json -> string) (api : client) (t_data : json)
    (audio_format : string) :
  (forall repr_of' api',
     _check_track_availability repr_of' api' t_data audio_format true
     = _check_track_availability repr_of api t_data audio_format true) /\
  (forall fmt err,
     _check_track_availability repr_of api t_data audio_format true
     = Ok (fmt, err) ->
     fmt = audio_format /\
     (err = None <->
      exists rights ads,
        getitem t_data "RIGHTS" = Ok rights /\
        get rights "STREAM_ADS_AVAILABLE" = Ok ads /\
        truthy ads = true)).
Proof.
  split; [reflexivity|]. intros fmt err. unfold _check_track_availability.
  destruct t_data as [| | | | |fields]; try discriminate.
  cbn [get_default getitem].
  destruct (lookup "RIGHTS" fields) as [rights|]; cbn [bind].
  - destruct (get rights "STREAM_ADS_AVAILABLE") as [ads|e] eqn:E;
      [cbn [bind] | discriminate].
    intros [= <- <-]. split; [reflexivity|].
    destruct (truthy ads) eqn:T; cbn [negb]; split.
    + intros _. now exists rights, ads.
    + reflexivity.
    + discriminate.
    + intros (r & a & [= <-] & Ha & Ht). congruence.
  - cbn. intros [= <- <-]. split; [reflexivity|]. split; [discriminate|].
    intros (r & a & Hr & _). discriminate Hr.
Qed.

Lemma check_availability_of_uploaded_track_witness :
  "MP3_MISC" = "MP3_MISC" /\
  (@None string = None <->
   exists rights ads,
     getitem (JObj [("RIGHTS",
                     JObj [("STREAM_ADS_AVAILABLE", JBool true)])])
             "RIGHTS" = Ok rights /\
     get rights "STREAM_ADS_AVAILABLE" = Ok ads /\
     truthy ads = true).
Proof.
  apply (proj2 (check_availability_of_uploaded_track
                  (fun _ => "") logged_in_client
                  (JObj [("RIGHTS",
                          JObj [("STREAM_ADS_AVAILABLE", JBool true)])])
                  "MP3_MISC")).
  reflexivity.
Defined.

(** X19. For every quality tier, the bit rate of the format a track of
    the catalogue is given is one of 128, 320 and 1411, and never above
    the bit rate of the format of the tier; the codec is FLAC exactly at
    1411.  The format [MP3_MISC] of an uploaded track has the codec MP3
    and no bit rate. *)
Theorem bitrate_never_above_tier
    (repr_of : json -> string) (api : client) (t_data : json)
    (tier : QualityEnum) (fmt : string) (err : option string) :
  _check_track_availability repr_of api t_data (quality_map tier) false
  = Ok (fmt, err) ->
  (exists bitrate wanted,
     snd (_calculate_track_codec_bitrate fmt) = Some bitrate /\
     snd (_calculate_track_codec_bitrate (quality_map tier)) = Some wanted /\
     In bitrate [128; 320; 1411] /\ bitrate <= wanted /\
     (fst (_calculate_track_codec_bitrate fmt) = FLAC <-> bitrate = 1411)) /\
  _calculate_track_codec_bitrate "MP3_MISC" = (MP3, None).
Proof.
  intros H. split; [|reflexivity].
  apply check_catalogue_inv in H as (fields & _ & -> & _).
  unfold final_format_of.
  destruct tier; cbn [quality_map];
    (match goal with
     | |- context [candidates ?f] =>
         let c := eval vm_compute in (candidates f) in
         change (candidates f) with c
     end);
    cbn [find];
    repeat match goal with
           | |- context [has_file fields ?f] => destruct (has_file fields f)
           end;
    cbn; do 2 eexists;
    (split; [reflexivity|]); (split; [reflexivity|]);
    (split; [tauto|]); (split; [lia|]);
    (split; [try discriminate; reflexivity
            | try discriminate; reflexivity]).
Qed.

Lemma bitrate_never_above_tier_witness :
  _calculate_track_codec_bitrate "MP3_MISC" = (MP3, None).
Proof.
  apply (bitrate_never_above_tier
           (fun _ => "") logged_in_client
           (JObj [("FILESIZE_FLAC", JStr "0");
                  ("FILESIZE_MP3_128", JStr "300")])
           HIFI "MP3_128" None eq_refl).
Defined.

Lemma string_app_assoc (a b c : string) : (a ++ b) ++ c = a ++ (b ++ c).
Proof. induction a as [|x a IH]; cbn; [reflexivity | now rewrite IH]. Qed.

Lemma ends_with_app (a s suffix : string) :
  (exists stem, s = stem ++ suffix) -> exists stem, a ++ s = stem ++ suffix.
Proof.
  intros [stem ->]. exists (a ++ stem). now rewrite string_app_assoc.
Qed.

Lemma image_url_extension repr_of md5_hash img_type file_type resolution
    compression :
  exists stem,
    _get_image_url repr_of md5_hash img_type file_type resolution
                   compression
    = stem ++ match file_type with jpg => ".jpg" | _ => ".png" end.
Proof.
  unfold _get_image_url. cbv zeta.
  destruct file_type; repeat apply ends_with_app.
  - now exists "-0-0".
  - now exists "x0-none-100-0-0".
  - now exists "x0-none-100-0-0".
Qed.

(** X20. The URL of an image never asks for more than 3000 pixels: a
    larger resolution gives the URL of 3000.  Outside of JPEG the
    compression is not used, and the types PNG and WebP give the same URL,
    a [.png] one. *)
Theorem image_url_caps_resolution (repr_of : json -> string)
    (md5_hash : json) (img_type : ImageType) (file_type : ImageFileTypeEnum)
    (resolution compression : Z) :
  _get_image_url repr_of md5_hash img_type file_type resolution compression
  = _get_image_url repr_of md5_hash img_type file_type
                   (Z.min resolution 3000) compression /\
  (forall other,
     _get_image_url repr_of md5_hash img_type png resolution compression
     = _get_image_url repr_of md5_hash img_type webp resolution other) /\
  (exists stem,
     _get_image_url repr_of md5_hash img_type file_type resolution
                    compression
     = stem ++ match file_type with jpg => ".jpg" | _ => ".png" end).
Proof.
  split; [|split; [reflexivity | apply image_url_extension]].
  unfold _get_image_url. cbv zeta.
  destruct (Z.ltb_spec 3000 resolution) as [H|H].
  - rewrite Z.min_r by lia. now rewrite Z.ltb_irrefl.
  - rewrite Z.min_l by lia.
    now replace (3000 <? resolution)%Z with false
      by (symmetry; apply Z.ltb_ge; lia).
Qed.

End InterfaceProps.

(** ** Calls of the interface and of the client together *)

Module CallProps.
Import Api Frame ApiFacts Relations Catalogue CatalogueFacts Interface
       InterfaceProps.
Local Open Scope M_scope.
Local Open Scope string_scope.

Section Env.
Variable network : list request -> outcome.
Variable clock : nat -> Q.
Variable random : nat -> Z.
Variable repr_of : json -> string.

Local Abbreviation _gw_api_call := (_gw_api_call network clock random).

Ltac bounded_call :=
  first [ apply gw_call_bounded
        | apply (bounded_bind 2 0);
          [apply gw_call_bounded | intros ?; apply bounded_lift]
        | apply (bounded_bind 0 2);
          [apply bounded_read | intros ?; apply gw_call_bounded] ].

(** X21. Each of the catalogue calls of the client, whatever the
    services answer and however it ends, adds at most two requests to
    those sent (its own and one relogin), all of them to the gateway,
    and keeps the stored ARL; [get_artist_info], which makes two of
    these calls, adds at most four. *)
Theorem catalogue_calls_send_at_most_two (depth : nat) (id : string)
    (limit start : Z) (credited : bool) :
  bounded 2 (get_track network clock random depth id) /\
  bounded 2 (get_track_data network clock random depth id) /\
  bounded 2 (get_track_lyrics network clock random depth id) /\
  bounded 2 (get_track_contributors network clock random depth id) /\
  bounded 2 (Catalogue.get_track_cover network clock random depth id) /\
  bounded 2 (get_playlist network clock random depth id limit start) /\
  bounded 2 (get_artist_name network clock random depth id) /\
  bounded 2 (get_artist_album_ids network clock random depth id start limit
                                  credited) /\
  bounded 4 (get_artist_info network clock random depth id credited).
Proof.
  unfold get_track, get_track_data, get_track_lyrics,
    get_track_contributors, Catalogue.get_track_cover, get_playlist,
    get_artist_name, get_artist_info.
  repeat (split; [bounded_call|]).
  apply (bounded_bind 2 2); [bounded_call | intros name].
  apply (bounded_bind 2 0);
    [bounded_call | intros albums; apply bounded_ret].
Qed.

(** X22. [_get_track_data] sends nothing and changes nothing when the
    track is in the data it is given; otherwise it makes one call of the
    client, so adds at most two requests, all to the gateway. *)
Theorem get_track_data_uses_cache (depth : nat) (track_id : string)
    (data : json) (is_user_uploaded : bool) :
  bounded 2 (_get_track_data network clock random depth track_id data
                             is_user_uploaded) /\
  (contains data track_id = Ok true ->
   forall w,
     snd (_get_track_data network clock random depth track_id data
                          is_user_uploaded w) = w).
Proof.
  unfold _get_track_data. split.
  - apply (bounded_bind 0 2); [apply bounded_lift | intros cached].
    apply (bounded_bind 2 0).
    + destruct cached;
        [apply (bounded_weaken 0); [lia | apply bounded_lift]|].
      destruct is_user_uploaded; cbn [negb];
        unfold get_track, get_track_data; apply gw_call_bounded.
    + intros track. apply (bounded_bind 0 0).
      * destruct (negb is_user_uploaded);
          [apply bounded_lift | apply bounded_ret].
      * intros t_data. apply (bounded_bind 0 0);
          [apply bounded_lift | intros fallback].
        destruct fallback; [apply bounded_lift | apply bounded_ret].
  - intros Hc w. rewrite (bind_lift_Ok _ true) by exact Hc.
    rewrite bind_lift.
    destruct (getitem data track_id) as [track|e]; [|reflexivity].
    unfold bindM at 1.
    assert (H1 : forall w0,
              snd ((if negb is_user_uploaded
                    then lift (get_default track "DATA" track)
                    else ret track) w0) = w0)
      by (intros w0; destruct (negb is_user_uploaded); reflexivity).
    specialize (H1 w).
    destruct ((if negb is_user_uploaded
               then lift (get_default track "DATA" track)
               else ret track) w) as [[t_data|e] w1]; cbn [snd] in H1;
      subst w1; [|reflexivity].
    rewrite bind_lift.
    destruct (contains t_data "FALLBACK") as [[|]|e]; reflexivity.
Qed.

(** X23. The cover [get_track_cover] of the interface returns is never
    of the type WebP, is a PNG only if the options ask for PNG, and its
    URL has the extension of the type it is returned with.  With an MD5
    in the data it is given, it sends nothing and changes nothing;
    otherwise it adds at most two requests, all to the gateway. *)
Theorem track_cover_type_matches_url (depth : nat) (track_id : string)
    (cover_options : CoverOptions) (data : option json) (w : world) :
  let '(r, w') :=
    Interface.get_track_cover network clock random repr_of depth track_id
                              cover_options data w in
  match r with
  | Ok (url, returned_type) =>
      returned_type <> webp /\
      (returned_type = png -> file_type cover_options = png) /\
      exists stem,
        url = stem ++ match returned_type with
                      | jpg => ".jpg"
                      | _ => ".png"
                      end
  | Err _ => True
  end /\
  sends_at_most 2 w w' /\
  (forall md5,
     get (match data with None => JObj [] | Some d => d end) "md5" = Ok md5 ->
     md5 <> JNull -> w' = w).
Proof.
  unfold Interface.get_track_cover. cbv zeta. rewrite bind_lift.
  destruct (get _ "md5") as [md5|e];
    [|split; [exact I|]; split; [apply sends_at_most_refl | discriminate]].
  unfold bindM at 1.
  assert (Hb : bounded 2 (match md5 with
                          | JNull => Catalogue.get_track_cover
                                       network clock random depth track_id
                          | _ => ret md5
                          end)).
  { destruct md5; try (apply (bounded_weaken 0); [lia | apply bounded_ret]).
    unfold Catalogue.get_track_cover. apply (bounded_bind 2 0);
      [apply gw_call_bounded | intros ?; apply bounded_lift]. }
  assert (Hc : md5 <> JNull ->
               snd (match md5 with
                    | JNull => Catalogue.get_track_cover
                                 network clock random depth track_id
                    | _ => ret md5
                    end w) = w).
  { intros H. destruct md5; try reflexivity. now destruct H. }
  destruct (Hb w) as [Hs _].
  destruct (match md5 with
            | JNull => Catalogue.get_track_cover network clock random depth
                                                 track_id
            | _ => ret md5
            end w) as [[cover_md5|e] w1]; cbn [snd] in *.
  - cbn [ret]. split; [|split; [exact Hs|]].
    + split; [|split].
      * destruct (negb (truthy cover_md5)); cbn [orb]; [discriminate|].
        destruct (file_type cover_options); discriminate.
      * destruct (negb (truthy cover_md5)); cbn [orb]; [discriminate|].
        destruct (file_type cover_options); trivial; discriminate.
      * apply image_url_extension.
    + intros md5' [= <-]. exact Hc.
  - split; [exact I|]. split; [exact Hs|]. intros md5' [= <-]. exact Hc.
Qed.

(** X24. When [get_artist_album_ids] returns, the last response has a
    result from which the identifiers were read: for a list of albums in
    [data], one identifier for each album, in the order of the list, the
    entry [ALB_ID] of the album; none for a result without [data]. *)
Theorem artist_album_ids_in_order (depth : nat) (artist_id : string)
    (start limit : Z) (credited : bool) (w w' : world) (ids : list json) :
  get_artist_album_ids network clock random depth artist_id start limit
                       credited w = (Ok ids, w') ->
  exists body set_cookies results,
    network (sent w') = Reply body set_cookies /\
    getitem body "results" = Ok results /\
    (forall items,
       getitem results "data" = Ok (JArr items) ->
       length ids = length items /\
       forall i, (i < length items)%nat ->
         getitem (nth i items JNull) "ALB_ID" = Ok (nth i ids JNull)) /\
    (getitem results "data" = Err (KeyError (JStr "data")) -> ids = []).
Proof.
  unfold get_artist_album_ids, bindM. intros H.
  destruct (_gw_api_call depth "album.getDiscography" _ w)
    as [[results|e] w2] eqn:E; [|discriminate H].
  unfold lift in H. injection H as H <-.
  destruct (gw_call_other_Ok network clock random depth
              "album.getDiscography" _ w results w2
              ltac:(discriminate) E)
    as (pre & wm & body & set_cookies & _ & _ & Hnet & Hres).
  exists body, set_cookies, results.
  split; [exact Hnet|]. split; [exact Hres|].
  unfold album_ids_of in H. split.
  - intros items Hitems.
    assert (Hd : get_default results "data" (JArr []) = Ok (JArr items)).
    { destruct results; try discriminate. cbn in *.
      destruct (lookup "data" fields); [exact Hitems | discriminate]. }
    rewrite Hd in H. cbn [bind iterate] in H.
    destruct (mapM_Ok_nth _ _ _ H) as [Hlen Hnth]. split; [exact Hlen|].
    intros i Hi. apply Hnth. exact Hi.
  - intros Hno.
    assert (Hd : get_default results "data" (JArr []) = Ok (JArr [])).
    { destruct results; try discriminate. cbn in *.
      destruct (lookup "data" fields); [discriminate | reflexivity]. }
    rewrite Hd in H. cbn in H. now injection H as <-.
Qed.

End Env.

Lemma get_track_data_uses_cache_witness :
  snd (_get_track_data (scripted []) (fun _ => 0%Q) (fun _ => 7) 1 "55"
                       (JObj [("55", JObj [("DATA", JObj [])])]) false
                       (start logged_in_client))
  = start logged_in_client.
Proof.
  apply (proj2 (get_track_data_uses_cache
                  (scripted []) (fun _ => 0%Q) (fun _ => 7) 1 "55"
                  (JObj [("55", JObj [("DATA", JObj [])])]) false)).
  reflexivity.
Defined.

Lemma artist_album_ids_in_order_witness :
  exists body set_cookies results,
    scripted [gw_ok (JObj [("data", JArr [JObj [("ALB_ID", JStr "9")]])])]
             [GwPost "album.getDiscography" (JStr "T0") 7
                     (discography_payload "27" 0 (-1) false)
                     [("arl", "my-arl")]]
    = Reply body set_cookies /\
    getitem body "results" = Ok results.
Proof.
  destruct (artist_album_ids_in_order
              (scripted [gw_ok (JObj [("data",
                                       JArr [JObj [("ALB_ID", JStr "9")]])])])
              (fun _ => 0%Q) (fun _ => 7) 1 "27" 0 (-1) false
              (start logged_in_client)
              (snd (get_artist_album_ids
                      (scripted [gw_ok (JObj [("data",
                                               JArr [JObj [("ALB_ID",
                                                            JStr "9")]])])])
                      (fun _ => 0%Q) (fun _ => 7) 1 "27" 0 (-1) false
                      (start logged_in_client)))
              [JStr "9"] ltac:(vm_compute; reflexivity))
    as (body & set_cookies & results & Hnet & Hres & _).
  exists body, set_cookies, results. split; [exact Hnet | exact Hres].
Defined.

Lemma track_cover_type_matches_url_witness :
  snd (Interface.get_track_cover
         (scripted []) (fun _ => 0%Q) (fun _ => 7) (fun _ => "") 1 "55"
         {| file_type := webp; resolution := 1400; compression := high |}
         (Some (JObj [("md5", JStr "abc")])) (start logged_in_client))
  = start logged_in_client.
Proof.
  pose proof (track_cover_type_matches_url
                (scripted []) (fun _ => 0%Q) (fun _ => 7) (fun _ => "")
                1 "55"
                {| file_type := webp; resolution := 1400;
                   compression := high |}
                (Some (JObj [("md5", JStr "abc")]))
                (start logged_in_client)) as H.
  destruct (Interface.get_track_cover _ _ _ _ 1 "55" _ _ _) as [r w'].
  destruct H as (_ & _ & H).
  exact (H (JStr "abc") eq_refl ltac:(discriminate)).
Defined.

End CallProps.

Module LoginProps.
Import Api Frame ApiFacts Relations Catalogue CatalogueFacts Interface
       InterfaceProps.
Local Open Scope M_scope.
Local Open Scope string_scope.

Section Env.
Variable network : list request -> outcome.
Variable clock : nat -> Q.
Variable random : nat -> Z.
Variable repr_of : json -> string.

Local Abbreviation _gw_api_call := (_gw_api_call network clock random).

Lemma bootstrap_formats depth payload w results w' :
  _gw_api_call (S depth) "deezer.getUserData" payload w = (Ok results, w') ->
  exists hq lossless, available_formats (self w') = formats_of hq lossless.
Proof.
  intros H. rewrite gw_call_bootstrap, gw_request_run in H. cbv zeta in H.
  destruct (network _) as [body ck| |]; [|discriminate|discriminate].
  destruct (get body "error") as [error|e]; [|discriminate].
  destruct (truthy error).
  { destruct error as [| | | | |[|[k v] fs]]; discriminate. }
  cbn [String.eqb Ascii.eqb Bool.eqb] in H.
  destruct (Api.update_session clock body _) as [[[]|e] w3] eqn:Hupd;
    [|discriminate].
  apply SessionProps.update_session_Ok_inv in Hupd
    as (results' & token & ctry & lic & lang & hq & ll & Hres & Hf & ->).
  injection H as _ <-. now exists hq, ll.
Qed.

(** X25. Once a call of [deezer.getUserData] has returned, the formats of
    the client begin with MP3_128.  So a track of the catalogue for
    which no format has a file, and which lists no countries, passes
    [_check_track_availability] for every requested format: it is given
    the format MP3_128 and no error. *)
Theorem track_without_file_passes_after_login
    (depth : nat) (payload : option json) (w w' : world) (results : json)
    (fields : list (string * json)) (audio_format : string) :
  _gw_api_call (S depth) "deezer.getUserData" payload w = (Ok results, w') ->
  find (has_file fields) formats_priority = None ->
  lookup "AVAILABLE_COUNTRIES" fields = None ->
  (exists others, available_formats (self w') = "MP3_128" :: others) /\
  _check_track_availability repr_of (self w') (JObj fields) audio_format
                            false
  = Ok ("MP3_128", None).
Proof.
  intros Hboot Hnone Hcountries.
  destruct (bootstrap_formats _ _ _ _ _ Hboot) as (hq & ll & Hf).
  split; [rewrite Hf; unfold formats_of; eauto|].
  unfold _check_track_availability.
  rewrite find_available_candidates, first_available_find.
  cbn [bind].
  assert (Hc : find (has_file fields) (candidates audio_format) = None).
  { unfold formats_priority in Hnone. cbn [find] in Hnone.
    destruct (has_file fields "FLAC") eqn:E0; [discriminate|].
    destruct (has_file fields "MP3_320") eqn:E1; [discriminate|].
    destruct (has_file fields "MP3_128") eqn:E2; [discriminate|].
    destruct (candidates_cases audio_format) as [->|[[_ ->]|[_ ->]]];
      cbn [find]; now rewrite ?E0, ?E1, ?E2. }
  rewrite Hc. cbn [get_default]. rewrite Hcountries. cbn [bind].
  cbn [get_default lookup truthy]. rewrite Hf. reflexivity.
Qed.

End Env.

Lemma track_without_file_passes_after_login_witness :
  _check_track_availability
    (fun _ => "")
    (self (snd (_gw_api_call (scripted [gw_ok (user_data "T1" 42)])
                             (fun _ => 0%Q) (fun _ => 7) 1
                             "deezer.getUserData" None
                             (start logged_out_client))))
    (JObj [("SNG_ID", JStr "55"); ("FILESIZE_FLAC", JStr "0")]) "FLAC" false
  = Ok ("MP3_128", None).
Proof.
  apply (track_without_file_passes_after_login
           (scripted [gw_ok (user_data "T1" 42)])
           (fun _ => 0%Q) (fun _ => 7) (fun _ => "") 0 None
           (start logged_out_client) _ (user_data "T1" 42)
           [("SNG_ID", JStr "55"); ("FILESIZE_FLAC", JStr "0")] "FLAC").
  - vm_compute. reflexivity.
  - reflexivity.
  - reflexivity.
Defined.

End LoginProps.
